(** * gsview: Street View imagery acquisition, shallow embedding

    This development embeds the imagery acquisition engine of the
    [gsview] package (files [streetview.py] and [downloader.py]) and
    proves properties of the panorama crop, the coverage client and the
    batch layer.

    Conventions of the embedding:
    - Python [int] is [Z]; [//] is [Z.div] and [%] is [Z.modulo] (both
      floor-based, as in Python, for a positive divisor).
    - Python [float] is IEEE-754 binary64.  A finite float is represented
      by the rational it denotes, and every arithmetic operation is the
      exact rational operation followed by rounding to nearest, ties to
      even, on the 53-bit grid (module [Float64]).  Overflow to infinity
      is outside the model (all magnitudes here stay far below 2^1024).
    - A raised exception is the [Raise] case of [result]; state (the file
      system and the trace of effects) is passed explicitly.
    - The network, the panorama service and the disk are oracles of an
      [environment]; their answers may depend on the whole history.
    - Three steps of the source are taken to return: the creation of the
      output directory at the head of the two download batches
      ([output_dir.mkdir(parents=True, exist_ok=True)]), the test
      [f.exists()] on an expected file, and the rate-limit wait before a
      request of the client (see [wait_for_rate_limit] for when it
      does).  What is stated of a batch holds of the runs in which these
      steps return. *)

From Stdlib Require Import ZArith QArith Qround Qpower Lia Lqa SpecFloat DecimalString.
From Stdlib Require DecimalPos DecimalN.
From stdpp Require Import gmap strings list.

Open Scope Z_scope.

(* ================================================================== *)
(** * Part I: definitions                                              *)
(* ================================================================== *)

(** ** binary64 arithmetic on rationals *)

Module Float64.

(** [pow2 e] is 2^e for any integer exponent. *)
Definition pow2 (e : Z) : Q :=
  if 0 <=? e then inject_Z (2 ^ e) else (1 / inject_Z (2 ^ (- e)))%Q.

(** For [x > 0], the integer [l] with 2^l <= x < 2^(l+1). *)
Definition ilog2 (x : Q) : Z :=
  let l := Z.log2 (Qnum x) - Z.log2 (Zpos (Qden x)) in
  if Qle_bool (pow2 l) x then l else l - 1.

(** Nearest integer, ties to the even neighbour. *)
Definition round_half_even (q : Q) : Z :=
  let f := Qfloor q in
  match Qcompare (q - inject_Z f) (1 # 2) with
  | Lt => f
  | Gt => f + 1
  | Eq => if Z.even f then f else f + 1
  end.

(** Rounding of a positive rational to the binary64 grid: 53 significant
    bits, least exponent -1074 (subnormal range). *)
Definition round_pos (x : Q) : Q :=
  let e := Z.max (ilog2 x - 52) (-1074) in
  (inject_Z (round_half_even (x / pow2 e)) * pow2 e)%Q.

(** Round to nearest even, symmetric in the sign. *)
Definition RN (x : Q) : Q :=
  match Qcompare x 0 with
  | Eq => 0%Q
  | Gt => round_pos x
  | Lt => (- round_pos (- x))%Q
  end.

(** [float(z)] for a Python int. *)
Definition of_int (z : Z) : Q := RN (inject_Z z).

(** [x / y], [x * y], [x - y] on floats. *)
Definition fdiv (x y : Q) : Q := RN (x / y).
Definition fmul (x y : Q) : Q := RN (x * y).
Definition fsub (x y : Q) : Q := RN (x - y).

(** [a / b] on two Python ints: the correctly rounded quotient. *)
Definition int_truediv (a b : Z) : Q := RN (inject_Z a / inject_Z b).

(** [int(x)]: truncation toward zero. *)
Definition to_int (x : Q) : Z := if Qle_bool 0 x then Qfloor x else Qceiling x.

(** The unit roundoff 2^-53: a bound on the relative error of one
    rounding. *)
Definition eps : Q := 1 # (2 ^ 53).

(** Python's built-in [round(x)] with one argument: nearest integer, ties
    to even.  The source never calls it; it is here to state the
    specification's formulas. *)
Definition py_round (x : Q) : Z := round_half_even x.

End Float64.

(** The value of a [spec_float] of the Standard Library, used to test the
    model above against the library's reference implementation. *)
Definition SF2Q (f : SpecFloat.spec_float) : Q :=
  match f with
  | SpecFloat.S754_finite s m e =>
      ((if s then -1 else 1) * inject_Z (Zpos m) * Float64.pow2 e)%Q
  | _ => 0%Q
  end.

Definition sf_of_int (z : Z) : SpecFloat.spec_float :=
  SpecFloat.binary_normalize 53 1024 z 0 false.

(** ** Exceptions and results *)

Inductive exn_class :=
  | ValueError | ZeroDivisionError | RequestException | OSError
  | AttributeError | OverflowError | OtherError.

Record exn := Exn { exn_kind : exn_class; exn_msg : string }.

(** [str(e)] *)
Definition str_exn (e : exn) : string := exn_msg e.

Inductive result (A : Type) :=
  | Ok (a : A)
  | Raise (e : exn).
Arguments Ok {A} a.
Arguments Raise {A} e.

Definition rbind {A B} (r : result A) (k : A -> result B) : result B :=
  match r with
  | Ok a => k a
  | Raise e => Raise e
  end.

(** ** Images (the part of PIL the crop uses) *)

Module PIL.

Definition pixel : Type := Z * Z * Z.
Definition black : pixel := (0, 0, 0).

(** [rows] holds [height] rows of [width] pixels. *)
Record Image := mkImage { width : Z; height : Z; rows : list (list pixel) }.

Definition zrange (n : Z) : list Z := map Z.of_nat (seq 0 (Z.to_nat n)).

(** Pixel at column [x], row [y]; black outside the image. *)
Definition getpixel (img : Image) (x y : Z) : pixel :=
  if (0 <=? x) && (x <? width img) && (0 <=? y) && (y <? height img)
  then nth (Z.to_nat x) (nth (Z.to_nat y) (rows img) []) black
  else black.

Definition build (w h : Z) (f : Z -> Z -> pixel) : Image :=
  mkImage w h (map (fun y => map (fun x => f x y) (zrange w)) (zrange h)).

(** [img.crop((left, upper, right, lower))].  Pillow rejects a box whose
    right edge is left of its left edge, or whose lower edge is above its
    upper edge; the part of the box outside the image is black. *)
Definition crop (img : Image) (box : Z * Z * Z * Z) : result Image :=
  let '(x0, y0, x1, y1) := box in
  if x1 <? x0 then
    Raise (Exn ValueError "Coordinate 'right' is less than 'left'")
  else if y1 <? y0 then
    Raise (Exn ValueError "Coordinate 'lower' is less than 'upper'")
  else
    Ok (build (x1 - x0) (y1 - y0)
              (fun x y => getpixel img (x0 + x) (y0 + y))).

(** The size check of [crop]: Pillow counts
    [max(1, |x1 - x0|) * max(1, |y1 - y0|)] pixels for a box and refuses
    it ([DecompressionBombError]) above twice [MAX_IMAGE_PIXELS].  The
    check is stated here and is not part of [crop] above: what is said of
    the result of a crop is said of boxes within the limit. *)
Definition MAX_IMAGE_PIXELS : Z := 89478485.

Definition box_pixels (box : Z * Z * Z * Z) : Z :=
  let '(x0, y0, x1, y1) := box in
  Z.max 1 (Z.abs (x1 - x0)) * Z.max 1 (Z.abs (y1 - y0)).

Definition decompression_bomb (box : Z * Z * Z * Z) : bool :=
  2 * MAX_IMAGE_PIXELS <? box_pixels box.

(** [Image.new("RGB", (w, h))]: a black canvas. *)
Definition new (size : Z * Z) : result Image :=
  let '(w, h) := size in
  if (w <? 0) || (h <? 0) then
    Raise (Exn ValueError "Width and height must be >= 0")
  else Ok (build w h (fun _ _ => black)).

(** [dst.paste(src, (x, y))]: [src] overwrites the region of [dst] it
    covers; what falls outside [dst] is dropped. *)
Definition paste (dst src : Image) (at_ : Z * Z) : Image :=
  let '(x, y) := at_ in
  build (width dst) (height dst)
        (fun i j =>
           if (x <=? i) && (i <? x + width src)
              && (y <=? j) && (j <? y + height src)
           then getpixel src (i - x) (j - y)
           else getpixel dst i j).

End PIL.

(** ** The panorama crop: [_crop_panorama] *)

Section Crop.
Import Float64.

(** [int((heading / 360.0) * w) % w] *)
Definition center_x (w heading : Z) : Z :=
  to_int (fmul (fdiv (of_int heading) 360) (of_int w)) mod w.

(** [int(h / 2 - (pitch / 180.0) * h)] *)
Definition center_y (h pitch : Z) : Z :=
  to_int (fsub (int_truediv h 2) (fmul (fdiv (of_int pitch) 180) (of_int h))).

(** [int((fov / 360.0) * w)] *)
Definition crop_w (w fov : Z) : Z :=
  to_int (fmul (fdiv (of_int fov) 360) (of_int w)).

(** [crop_h = crop_w] *)
Definition crop_h (w fov : Z) : Z := crop_w w fov.

Definition crop_left (w heading fov : Z) : Z := center_x w heading - crop_w w fov / 2.
Definition crop_right (w heading fov : Z) : Z := center_x w heading + crop_w w fov / 2.
Definition crop_top (w h pitch fov : Z) : Z := Z.max 0 (center_y h pitch - crop_h w fov / 2).
Definition crop_bottom (w h pitch fov : Z) : Z := Z.min h (center_y h pitch + crop_h w fov / 2).

(** The two sub-crops of the wraparound branch, lines 384-389. *)
Definition wraparound_parts (img : PIL.Image) (left right top bottom : Z)
    : result (PIL.Image * PIL.Image) :=
  let w := PIL.width img in
  if left <? 0 then
    rbind (PIL.crop img (w + left, top, w, bottom)) (fun left_part =>
    rbind (PIL.crop img (0, top, right, bottom)) (fun right_part =>
    Ok (left_part, right_part)))
  else
    rbind (PIL.crop img (left, top, w, bottom)) (fun left_part =>
    rbind (PIL.crop img (0, top, right - w, bottom)) (fun right_part =>
    Ok (left_part, right_part))).

(** The body of [if left < 0 or right > w:], lines 384-394: the two
    sub-crops pasted side by side on a new canvas. *)
Definition wraparound_compose (img : PIL.Image)
    (left right top bottom cw : Z) : result PIL.Image :=
  rbind (wraparound_parts img left right top bottom)
    (fun '(left_part, right_part) =>
       rbind (PIL.new (cw, bottom - top)) (fun canvas =>
       let canvas := PIL.paste canvas left_part (0, 0) in
       let canvas := PIL.paste canvas right_part (PIL.width left_part, 0) in
       Ok canvas)).

(** The final [return img.crop((left, top, right, bottom))], line 396. *)
Definition direct_crop (img : PIL.Image) (left right top bottom : Z) : result PIL.Image :=
  PIL.crop img (left, top, right, bottom).

Definition crop_panorama (img : PIL.Image) (heading pitch fov : Z) : result PIL.Image :=
  let w := PIL.width img in
  let h := PIL.height img in
  if w =? 0 then Raise (Exn ZeroDivisionError "integer modulo by zero") else
  let left := crop_left w heading fov in
  let right := crop_right w heading fov in
  let top := crop_top w h pitch fov in
  let bottom := crop_bottom w h pitch fov in
  if (left <? 0) || (w <? right) then
    wraparound_compose img left right top bottom (crop_w w fov)
  else
    direct_crop img left right top bottom.

(** The boxes [_crop_panorama] passes to [img.crop], lines 385-396. *)
Definition crop_boxes (w h heading pitch fov : Z) : list (Z * Z * Z * Z) :=
  let left := crop_left w heading fov in
  let right := crop_right w heading fov in
  let top := crop_top w h pitch fov in
  let bottom := crop_bottom w h pitch fov in
  if (left <? 0) || (w <? right) then
    if left <? 0 then [(w + left, top, w, bottom); (0, top, right, bottom)]
    else [(left, top, w, bottom); (0, top, right - w, bottom)]
  else [(left, top, right, bottom)].

(** The formulas as the specification words them, with [round]. *)
Definition spec_center_x (w heading : Z) : Z :=
  py_round (inject_Z heading / 360 * inject_Z w) mod w.
Definition spec_center_y (h pitch : Z) : Z :=
  py_round (inject_Z h / 2 - inject_Z pitch / 180 * inject_Z h).
Definition spec_crop_w (w fov : Z) : Z :=
  py_round (inject_Z fov / 360 * inject_Z w).

End Crop.

(** A panorama is an image of at least one column whose sides fit the
    C [int] Pillow stores them in. *)
Definition panorama_size (img : PIL.Image) : Prop :=
  0 < PIL.width img < 2 ^ 31 /\ 0 <= PIL.height img < 2 ^ 31.

(** ** Python values, strings and file names *)

(** A value of a decoded JSON object. *)
Inductive pyval :=
  | PyNone
  | PyBool (b : bool)
  | PyNum (q : Q)
  | PyStr (s : string)
  | PyOther.

(** [v == s] for a string literal [s]. *)
Definition py_eq_str (v : pyval) (s : string) : bool :=
  match v with
  | PyStr t => bool_decide (t = s)
  | _ => false
  end.

(** [d.get(key, default)] and [d.get(key)]. *)
Definition dict_get_default (d : gmap string pyval) (key : string) (dflt : pyval) : pyval :=
  default dflt (d !! key).
Definition dict_get (d : gmap string pyval) (key : string) : pyval :=
  dict_get_default d key PyNone.

(** [sub in s] *)
Fixpoint contains (sub s : string) : bool :=
  String.prefix sub s
  || match s with
     | EmptyString => false
     | String _ s' => contains sub s'
     end.

Definition decimal (n : N) : string := NilZero.string_of_uint (N.to_uint n).

Fixpoint zeros (n : nat) : string :=
  match n with
  | O => EmptyString
  | S k => String (Ascii.ascii_of_nat 48) (zeros k)
  end.

(** [format(z, "0{width}d")] and, with [plus], [format(z, "+0{width}d")]:
    the sign first, then zeros up to the width, then the digits. *)
Definition format_d (plus : bool) (width : nat) (z : Z) : string :=
  let sign := if z <? 0 then "-" else if plus then "+" else EmptyString in
  let digits := decimal (Z.abs_N z) in
  sign +:+ zeros (width - String.length sign - String.length digits) +:+ digits.

(** [f"{location_id}_h{heading:03d}_p{pitch:+03d}.jpg"] *)
Definition image_filename (location_id : string) (heading pitch : Z) : string :=
  location_id +:+ "_h" +:+ format_d false 3 heading
              +:+ "_p" +:+ format_d true 3 pitch +:+ ".jpg".

(** Paths, as [pathlib] reads and writes them on POSIX. *)

(** [s.split("/")] *)
Fixpoint split_slash (s : string) : list string :=
  match s with
  | EmptyString => [EmptyString]
  | String c rest =>
      if Ascii.eqb c (Ascii.ascii_of_nat 47) then EmptyString :: split_slash rest
      else match split_slash rest with
           | [] => [String c EmptyString]
           | part :: parts => String c part :: parts
           end
  end.

(** ["/".join(parts)] *)
Fixpoint join_slash (parts : list string) : string :=
  match parts with
  | [] => EmptyString
  | part :: rest =>
      match rest with
      | [] => part
      | _ => part +:+ "/" +:+ join_slash rest
      end
  end.

(** The number of slashes a string starts with. *)
Fixpoint leading_slashes (s : string) : nat :=
  match s with
  | EmptyString => O
  | String c rest => if Ascii.eqb c (Ascii.ascii_of_nat 47) then S (leading_slashes rest) else O
  end.

(** The root of a path: "//" for exactly two leading slashes, "/" for one
    and for three or more, nothing for a relative path. *)
Definition path_root (s : string) : string :=
  match leading_slashes s with
  | O => EmptyString
  | 2%nat => "//"
  | _ => "/"
  end.

(** The components of a path: empty components and "." are dropped. *)
Definition path_parts (s : string) : list string :=
  List.filter (fun x => negb (String.eqb x EmptyString) && negb (String.eqb x "."))
              (split_slash s).

(** [str] of the path with this root and these components. *)
Definition path_str (root : string) (parts : list string) : string :=
  match root, parts with
  | EmptyString, [] => "."
  | _, _ => root +:+ join_slash parts
  end.

(** [str(Path(output_dir) / filename)]: the components of the directory
    followed by those of the file name; a file name that starts with a
    slash replaces the directory. *)
Definition path_join (output_dir filename : string) : string :=
  if (0 <? leading_slashes filename)%nat
  then path_str (path_root filename) (path_parts filename)
  else path_str (path_root output_dir) (path_parts output_dir ++ path_parts filename).

(** [headings or [0, 90, 180, 270]] *)
Definition headings_or_default (headings : option (list Z)) : list Z :=
  match headings with
  | Some (h :: hs) => h :: hs
  | _ => [0; 90; 180; 270]
  end.

(** ** Data model *)

(** A row of the locations table. [pano_id] is [None] for a missing
    value (NaN or None). *)
Record Location := mkLocation {
  location_id : string;
  city : string;
  lat : Q;
  lon : Q;
  pano_id : option string
}.

Record CoverageResult := mkCoverageResult {
  cr_lat : Q;
  cr_lon : Q;
  has_coverage : bool;
  cr_pano_id : pyval;
  capture_date : pyval;
  status : pyval
}.

Record ImageResult := mkImageResult {
  ir_lat : Q;
  ir_lon : Q;
  heading : Z;
  pitch : Z;
  success : bool;
  image_path : option string;
  error : option string
}.

(** A row of the coverage result table. *)
Record CoverageRecord := mkCoverageRecord {
  cov_location_id : string;
  cov_city : string;
  cov_lat : Q;
  cov_lon : Q;
  cov_has_coverage : bool;
  cov_pano_id : pyval;
  cov_capture_date : pyval;
  cov_status : pyval
}.

(** A row of the download result table. *)
Record DownloadRecord := mkDownloadRecord {
  dl_location_id : string;
  dl_city : string;
  dl_lat : Q;
  dl_lon : Q;
  dl_heading : Z;
  dl_pitch : Z;
  dl_image_path : option string;
  dl_success : bool;
  dl_error : option string
}.

(** What [streetlevel] returns for a panorama id. *)
Record Panorama := mkPanorama { pano_lat : Q; pano_lon : Q; pano_ident : string }.

(** ** The outside world *)

Inductive request :=
  | MetadataRequest (lat lon : Q) (key : string)
  | ImageRequest (lat lon : Q) (heading pitch fov : Z) (size key : string).

(** The body of a response as [response.json()] reads it: a JSON object;
    another JSON value (an array, a string, a number, true, false or
    null), of which only the name of the Python type it decodes to
    matters here; or text that is not JSON, with the message of the
    decoder. *)
Inductive body :=
  | JsonObject (data : gmap string pyval)
  | JsonValue (type_name : string)
  | NotJson (msg : string).

Record Response := mkResponse {
  status_code : Z;
  reason : string;
  url : string;
  content_type : option string;
  content : body
}.

Inductive event :=
  | HttpGet (r : request)
  | FindPanorama (pano_id : string)
  | GetPanorama (pano : Panorama) (zoom : Z)
  | CropCall (heading pitch fov : Z)
  | FileWrite (path : string).

(** [files]: the paths that exist; [trace]: the effects so far, oldest
    first. *)
Record world := mkWorld { files : gset string; trace : list event }.

(** What [requests.get] does: it raises a [RequestException] (timeout,
    connection failure) with a message, or returns a response. *)
Inductive reply :=
  | Failed (msg : string)
  | Replied (r : Response).

(** The oracles.  Each sees the trace up to the call.
    - [getenv_api_key]: the environment variable GOOGLE_STREETVIEW_API_KEY;
    - [requests_get]: the HTTP service;
    - [find_panorama_by_id], [get_panorama]: the [streetlevel] library;
    - [file_write]: creating the parent directory of a path, opening the
      path and writing bytes to it, [None] on success, the message of the
      [OSError] otherwise;
    - [write_creates]: whether a write that fails has opened the file
      before failing (the failure is in the write or in the close, not in
      the directory or the open), so that the path exists afterwards;
    - [image_save]: [Image.save(path, "JPEG", quality=95)], [None] on
      success, the exception otherwise. *)
Record environment := mkEnvironment {
  getenv_api_key : option string;
  requests_get : list event -> request -> reply;
  find_panorama_by_id : list event -> string -> result (option Panorama);
  get_panorama : list event -> Panorama -> Z -> result (option PIL.Image);
  file_write : list event -> string -> option string;
  write_creates : list event -> string -> bool;
  image_save : list event -> PIL.Image -> string -> option exn
}.

(** ** State and exceptions *)

Definition M (A : Type) : Type := world -> world * result A.

Definition ret {A} (a : A) : M A := fun w => (w, Ok a).
Definition raise {A} (e : exn) : M A := fun w => (w, Raise e).
Definition lift {A} (r : result A) : M A := fun w => (w, r).

Definition bind {A B} (m : M A) (k : A -> M B) : M B :=
  fun w =>
    match m w with
    | (w', Ok a) => k a w'
    | (w', Raise e) => (w', Raise e)
    end.

Declare Scope py_scope.
Delimit Scope py_scope with py.
Notation "'do' x <- m ; k" := (bind m (fun x => k))
  (at level 10, x name, m at level 100, k at level 200) : py_scope.
Notation "'run' m ; k" := (bind m (fun _ => k))
  (at level 10, m at level 100, k at level 200) : py_scope.
Open Scope py_scope.

(** [try: body except <classes> as e: handler(e)] *)
Definition try_except {A} (body_ : M A) (catches : exn -> bool) (handler : exn -> M A) : M A :=
  fun w =>
    match body_ w with
    | (w', Ok a) => (w', Ok a)
    | (w', Raise e) => if catches e then handler e w' else (w', Raise e)
    end.

(** [except requests.RequestException] and [except Exception] *)
Definition is_request_exception (e : exn) : bool :=
  match exn_kind e with
  | RequestException => true
  | _ => false
  end.
Definition any_exception (_ : exn) : bool := true.

Definition log (e : event) : M unit :=
  fun w => (mkWorld (files w) (trace w ++ [e]), Ok tt).

(** A [for] loop whose body appends rows to one result list. *)
Fixpoint for_each {A B} (body : A -> M (list B)) (items : list A)
    (all_results : list B) : M (list B) :=
  match items with
  | [] => ret all_results
  | item :: rest =>
      do rs <- body item;
      for_each body rest (all_results ++ rs)
  end.

(** [all(f.exists() for f in expected_files)] *)
Definition all_exist (paths : list string) : M bool :=
  fun w => (w, Ok (forallb (fun f => bool_decide (f ∈ files w)) paths)).

(** ** The client: [StreetViewClient] *)

Record StreetViewClient := mkClient { api_key : string; rate_limit : Q }.

(** Truth value of an optional string. *)
Definition truthy (s : option string) : bool :=
  match s with
  | Some (String _ _) => true
  | _ => false
  end.

(** [f"{status_code} {kind}: {reason} for url: {url}"], the message of the
    [HTTPError] of [raise_for_status]. *)
Definition http_error_msg (kind : string) (r : Response) : string :=
  format_d false 0 (status_code r) +:+ " " +:+ kind +:+ ": " +:+ reason r
    +:+ " for url: " +:+ url r.

Definition raise_for_status (r : Response) : result unit :=
  if (400 <=? status_code r) && (status_code r <? 500)
  then Raise (Exn RequestException (http_error_msg "Client Error" r))
  else if (500 <=? status_code r) && (status_code r <? 600)
  then Raise (Exn RequestException (http_error_msg "Server Error" r))
  else Ok tt.

(** What [response.json()] returns. *)
Inductive json_value :=
  | JObject (data : gmap string pyval)
  | JOther (type_name : string).

(** [response.json()] *)
Definition json (r : Response) : result json_value :=
  match content r with
  | JsonObject data => Ok (JObject data)
  | JsonValue type_name => Ok (JOther type_name)
  | NotJson msg => Raise (Exn RequestException msg)
  end.

(** The attribute [get] of what [response.json()] returned: only a dict
    has one. *)
Definition get_method (data : json_value) : result (gmap string pyval) :=
  match data with
  | JObject d => Ok d
  | JOther type_name =>
      Raise (Exn AttributeError ("'" +:+ type_name +:+ "' object has no attribute 'get'"))
  end.

Section WithEnvironment.
Variable env : environment.

(** [StreetViewClient.__init__] *)
Definition StreetViewClient_init (api_key : option string) (rate_limit : Q)
    : result StreetViewClient :=
  let key := if truthy api_key then api_key else getenv_api_key env in
  match key with
  | Some (String c k) => Ok (mkClient (String c k) rate_limit)
  | _ => Raise (Exn ValueError
           "API key required. Set GOOGLE_STREETVIEW_API_KEY env var or pass api_key.")
  end.

(** [requests.get(url, params=..., timeout=...)] *)
Definition http_get (r : request) : M Response :=
  fun w =>
    (mkWorld (files w) (trace w ++ [HttpGet r]),
     match requests_get env (trace w) r with
     | Failed msg => Raise (Exn RequestException msg)
     | Replied resp => Ok resp
     end).

(** [path.parent.mkdir(parents=True, exist_ok=True)] followed by
    [with open(path, "wb") as f: f.write(...)] or by [df.to_csv(path)].
    A failure after the file has been opened leaves the file behind. *)
Definition write_file (path : string) : M unit :=
  fun w =>
    match file_write env (trace w) path with
    | None => (mkWorld ({[path]} ∪ files w) (trace w ++ [FileWrite path]), Ok tt)
    | Some msg =>
        (mkWorld (if write_creates env (trace w) path then {[path]} ∪ files w else files w)
                 (trace w ++ [FileWrite path]),
         Raise (Exn OSError msg))
    end.

(** [output_path.parent.mkdir(parents=True, exist_ok=True)] followed by
    [cropped.save(output_path, "JPEG", quality=95)].  When the save fails
    Pillow removes the file it has created. *)
Definition save_jpeg (img : PIL.Image) (path : string) : M unit :=
  fun w =>
    match image_save env (trace w) img path with
    | None => (mkWorld ({[path]} ∪ files w) (trace w ++ [FileWrite path]), Ok tt)
    | Some e => (mkWorld (files w) (trace w ++ [FileWrite path]), Raise e)
    end.

(** [check_coverage].  The rate-limit wait before the request only
    sleeps; time is not part of the state. *)
Definition check_coverage (client : StreetViewClient) (lat lon : Q) : M CoverageResult :=
  do response <- http_get (MetadataRequest lat lon (api_key client));
  run lift (raise_for_status response);
  do data <- lift (json response);
  do data <- lift (get_method data);
  let status := dict_get_default data "status" (PyStr "UNKNOWN") in
  let has_coverage := py_eq_str status "OK" in
  ret (mkCoverageResult lat lon has_coverage
         (dict_get data "pano_id") (dict_get data "date") status).

(** [download_image] *)
Definition download_image (client : StreetViewClient) (lat lon : Q) (heading : Z)
    (output_path : string) (pitch fov : Z) (size : string) : M ImageResult :=
  try_except
    (do response <- http_get (ImageRequest lat lon heading pitch fov size (api_key client));
     run lift (raise_for_status response);
     let content_type := default EmptyString (content_type response) in
     if negb (contains "image" content_type) then
       ret (mkImageResult lat lon heading pitch false None
              (Some ("Unexpected content type: " +:+ content_type)))
     else
       run write_file output_path;
       ret (mkImageResult lat lon heading pitch true (Some output_path) None))
    is_request_exception
    (fun e => ret (mkImageResult lat lon heading pitch false None (Some (str_exn e)))).

(** [download_location_images] *)
Definition download_location_images (client : StreetViewClient) (lat lon : Q)
    (location_id output_dir : string) (headings : option (list Z)) (pitch : Z)
    : M (list ImageResult) :=
  let headings := headings_or_default headings in
  for_each
    (fun heading =>
       let filename := image_filename location_id heading pitch in
       let output_path := path_join output_dir filename in
       do result <- download_image client lat lon heading output_path pitch 90 "640x640";
       ret [result])
    headings [].

(** ** The hi-res path: [download_location_hires] *)

Definition find_panorama (pano_id : string) : M (option Panorama) :=
  fun w =>
    (mkWorld (files w) (trace w ++ [FindPanorama pano_id]),
     find_panorama_by_id env (trace w) pano_id).

Definition fetch_panorama (pano : Panorama) (zoom : Z) : M (option PIL.Image) :=
  fun w =>
    (mkWorld (files w) (trace w ++ [GetPanorama pano zoom]),
     get_panorama env (trace w) pano zoom).

(** A call of [_crop_panorama], recorded in the trace. *)
Definition crop_call (img : PIL.Image) (heading pitch fov : Z) : M PIL.Image :=
  run log (CropCall heading pitch fov);
  lift (crop_panorama img heading pitch fov).

(** The failure results of the first stage: one per heading, one message. *)
Definition fail_all (lat lon : Q) (headings : list Z) (pitch : Z) (msg : string)
    : list ImageResult :=
  map (fun heading => mkImageResult lat lon heading pitch false None (Some msg)) headings.

(** The body of the second loop, lines 486-514. *)
Definition hires_heading (pano : Panorama) (pano_img : PIL.Image)
    (location_id output_dir : string) (pitch fov : Z) (heading : Z)
    : M (list ImageResult) :=
  let filename := image_filename location_id heading pitch in
  let output_path := path_join output_dir filename in
  try_except
    (do cropped <- crop_call pano_img heading pitch fov;
     run save_jpeg cropped output_path;
     ret [mkImageResult (pano_lat pano) (pano_lon pano) heading pitch true
            (Some output_path) None])
    any_exception
    (fun e => ret [mkImageResult (pano_lat pano) (pano_lon pano) heading pitch false
                     None (Some (str_exn e))]).

(** The first stage, lines 440-483: either the results to return at once,
    or the panorama and its bitmap. *)
Definition resolve_panorama (pano_id : string) (headings : list Z) (pitch zoom : Z)
    : M (list ImageResult + Panorama * PIL.Image) :=
  try_except
    (do pano <- find_panorama pano_id;
     match pano with
     | None =>
         ret (inl (fail_all 0 0 headings pitch ("Panorama not found: " +:+ pano_id)))
     | Some pano =>
         do pano_img <- fetch_panorama pano zoom;
         match pano_img with
         | None =>
             ret (inl (fail_all (pano_lat pano) (pano_lon pano) headings pitch
                         "Failed to download panorama"))
         | Some pano_img => ret (inr (pano, pano_img))
         end
     end)
    any_exception
    (fun e => ret (inl (fail_all 0 0 headings pitch (str_exn e)))).

Definition download_location_hires (pano_id location_id output_dir : string)
    (headings : option (list Z)) (pitch fov zoom : Z) : M (list ImageResult) :=
  let headings := headings_or_default headings in
  do stage1 <- resolve_panorama pano_id headings pitch zoom;
  match stage1 with
  | inl results => ret results
  | inr (pano, pano_img) =>
      for_each (hires_heading pano pano_img location_id output_dir pitch fov) headings []
  end.

(** ** The batch layer: [downloader.py] *)

Definition coverage_record (row : Location) (result : CoverageResult) : CoverageRecord :=
  mkCoverageRecord (location_id row) (city row) (lat row) (lon row)
    (has_coverage result) (cr_pano_id result) (capture_date result) (status result).

(** The body of the loop of [check_coverage_batch]. *)
Definition check_coverage_row (client : StreetViewClient) (row : Location)
    : M (list CoverageRecord) :=
  do result <- check_coverage client (lat row) (lon row);
  ret [coverage_record row result].

Definition check_coverage_batch (locations : list Location) (output_path : option string)
    (api_key : option string) (rate_limit : Q) : M (list CoverageRecord) :=
  do client <- lift (StreetViewClient_init api_key rate_limit);
  do results <- for_each (check_coverage_row client) locations [];
  run (if truthy output_path then write_file (default EmptyString output_path) else ret tt);
  ret results.

Definition expected_files (output_dir location_id : string) (headings : list Z) (pitch : Z)
    : list string :=
  map (fun h => path_join output_dir (image_filename location_id h pitch)) headings.

(** The records of a location all of whose files exist. *)
Definition skip_records (row : Location) (headings : list Z) (pitch : Z)
    (expected : list string) : list DownloadRecord :=
  map (fun '(h, f) =>
         mkDownloadRecord (location_id row) (city row) (lat row) (lon row)
           h pitch (Some f) true None)
      (zip headings expected).

Definition download_record (row : Location) (result : ImageResult) : DownloadRecord :=
  mkDownloadRecord (location_id row) (city row) (lat row) (lon row)
    (heading result) (pitch result) (image_path result) (success result) (error result).

(** The skip-existing test, lines 114-119 and 231-236. *)
Definition skip_check (skip_existing : bool) (expected : list string) : M bool :=
  if skip_existing then all_exist expected else ret false.

(** The body of the loop of [download_images_batch]. *)
Definition download_images_row (client : StreetViewClient) (output_dir : string)
    (headings : list Z) (pitch : Z) (skip_existing : bool) (row : Location)
    : M (list DownloadRecord) :=
  let expected := expected_files output_dir (location_id row) headings pitch in
  do skip <- skip_check skip_existing expected;
  if skip then ret (skip_records row headings pitch expected)
  else
    do results <- download_location_images client (lat row) (lon row) (location_id row)
                    output_dir (Some headings) pitch;
    ret (map (download_record row) results).

Definition download_images_batch (locations : list Location) (output_dir : string)
    (headings : option (list Z)) (pitch : Z) (api_key : option string)
    (rate_limit : Q) (skip_existing : bool) : M (list DownloadRecord) :=
  do client <- lift (StreetViewClient_init api_key rate_limit);
  let headings := headings_or_default headings in
  for_each (download_images_row client output_dir headings pitch skip_existing)
    locations [].

(** [pd.isna(pano_id) or not pano_id] *)
Definition pano_id_missing (pano_id : option string) : bool := negb (truthy pano_id).

(** The body of the loop of [download_images_hires_batch]. *)
Definition download_images_hires_row (output_dir : string) (headings : list Z)
    (pitch fov zoom : Z) (skip_existing : bool) (row : Location)
    : M (list DownloadRecord) :=
  if pano_id_missing (pano_id row) then
    ret (map (fun h =>
                mkDownloadRecord (location_id row) (city row) (lat row) (lon row)
                  h pitch None false (Some "No pano_id available"))
             headings)
  else
    let expected := expected_files output_dir (location_id row) headings pitch in
    do skip <- skip_check skip_existing expected;
    if skip then ret (skip_records row headings pitch expected)
    else
      do results <- download_location_hires (default EmptyString (pano_id row))
                      (location_id row) output_dir (Some headings) pitch fov zoom;
      ret (map (download_record row) results).

Definition download_images_hires_batch (locations : list Location) (output_dir : string)
    (headings : option (list Z)) (pitch fov zoom : Z) (skip_existing : bool)
    : M (list DownloadRecord) :=
  let headings := headings_or_default headings in
  for_each (download_images_hires_row output_dir headings pitch fov zoom skip_existing)
    locations [].

End WithEnvironment.

(** ** Observations and predicates used in the statements *)

(** The two float expressions of the crop, [(a / b) * w] and
    [h / 2 - (p / 180.0) * h], once in the rounding model above and once
    with the Standard Library's binary64 ([SpecFloat] at precision 53). *)
Definition model_scale (a b w : Z) : Q :=
  Float64.fmul (Float64.fdiv (Float64.of_int a) (Float64.of_int b)) (Float64.of_int w).
Definition stdlib_scale (a b w : Z) : Q :=
  SF2Q (SpecFloat.SFmul 53 1024
          (SpecFloat.SFdiv 53 1024 (sf_of_int a) (sf_of_int b)) (sf_of_int w)).
Definition model_center (p h : Z) : Q :=
  Float64.fsub (Float64.int_truediv h 2)
    (Float64.fmul (Float64.fdiv (Float64.of_int p) (Float64.of_int 180)) (Float64.of_int h)).
Definition stdlib_center (p h : Z) : Q :=
  SF2Q (SpecFloat.SFsub 53 1024
          (SpecFloat.SFdiv 53 1024 (sf_of_int h) (sf_of_int 2))
          (SpecFloat.SFmul 53 1024
             (SpecFloat.SFdiv 53 1024 (sf_of_int p) (sf_of_int 180)) (sf_of_int h))).

(** A metadata service that answers every request with a JSON object and
    a status code outside 400..599. *)
Definition metadata_service_up (env : environment) : Prop :=
  forall t lat lon key, exists response data,
    requests_get env t (MetadataRequest lat lon key) = Replied response
    /\ ~ (400 <= status_code response < 600)
    /\ content response = JsonObject data.


(** The headings of the crop calls of a trace, oldest first. *)
Definition crop_calls (t : list event) : list Z :=
  flat_map (fun e => match e with CropCall h _ _ => [h] | _ => [] end) t.

(** The paths written by a trace, oldest first. *)
Definition file_writes (t : list event) : list string :=
  flat_map (fun e => match e with FileWrite path => [path] | _ => [] end) t.

(** The ways the first stage of [download_location_hires] fails from
    world [w]: the message and coordinates of the failure results, and
    the events the stage adds to the trace. *)
Inductive stage1_failure (env : environment) (w : world) (pano_id : string) (zoom : Z)
    : string -> Q -> Q -> list event -> Prop :=
  | panorama_not_found :
      find_panorama_by_id env (trace w) pano_id = Ok None ->
      stage1_failure env w pano_id zoom ("Panorama not found: " +:+ pano_id) 0 0
        [FindPanorama pano_id]
  | panorama_lookup_raises e :
      find_panorama_by_id env (trace w) pano_id = Raise e ->
      stage1_failure env w pano_id zoom (str_exn e) 0 0 [FindPanorama pano_id]
  | panorama_bitmap_missing pano :
      find_panorama_by_id env (trace w) pano_id = Ok (Some pano) ->
      get_panorama env (trace w ++ [FindPanorama pano_id]) pano zoom = Ok None ->
      stage1_failure env w pano_id zoom "Failed to download panorama"
        (pano_lat pano) (pano_lon pano) [FindPanorama pano_id; GetPanorama pano zoom]
  | panorama_bitmap_raises pano e :
      find_panorama_by_id env (trace w) pano_id = Ok (Some pano) ->
      get_panorama env (trace w ++ [FindPanorama pano_id]) pano zoom = Raise e ->
      stage1_failure env w pano_id zoom (str_exn e) 0 0
        [FindPanorama pano_id; GetPanorama pano zoom].

(** What the result of one heading may be, given the bitmap: a failure
    carrying the exception of its own crop, or of its own save, or a
    success carrying its own path. *)
Definition heading_outcome (env : environment) (pano : Panorama) (pano_img : PIL.Image)
    (location_id output_dir : string) (p fov : Z) (r : ImageResult) : Prop :=
  let output_path := path_join output_dir (image_filename location_id (heading r) p) in
  ir_lat r = pano_lat pano /\ ir_lon r = pano_lon pano /\ pitch r = p /\
  match crop_panorama pano_img (heading r) p fov with
  | Raise e => success r = false /\ image_path r = None /\ error r = Some (str_exn e)
  | Ok cropped =>
      (success r = true /\ image_path r = Some output_path /\ error r = None)
      \/ (exists t e, image_save env t cropped output_path = Some e
                      /\ success r = false /\ image_path r = None
                      /\ error r = Some (str_exn e))
  end.

(** The requests of a trace, oldest first. *)
Definition http_requests (t : list event) : list request :=
  flat_map (fun e => match e with HttpGet r => [r] | _ => [] end) t.

(** The record the batch writes for a heading whose file is in place. *)
Definition present_record (output_dir : string) (p : Z) (row : Location) (h : Z)
    : DownloadRecord :=
  mkDownloadRecord (location_id row) (city row) (lat row) (lon row) h p
    (Some (path_join output_dir (image_filename (location_id row) h p))) true None.

(** Every path of the list exists. *)
Definition all_present (fs : gset string) (paths : list string) : Prop :=
  forall f, In f paths -> f ∈ fs.

(** A fetched result in a world whose files are [fs]: it carries the
    pitch of the batch and, when successful, the path of its heading,
    which exists. *)
Definition fetched_ok (output_dir lid : string) (p : Z) (fs : gset string)
    (r : ImageResult) : Prop :=
  pitch r = p
  /\ (success r = true ->
      image_path r = Some (path_join output_dir (image_filename lid (heading r) p))
      /\ error r = None
      /\ path_join output_dir (image_filename lid (heading r) p) ∈ fs).

(** ** Sample data for the examples *)

(** Sample panorama: 16 columns, 8 rows, each pixel carrying its own
    coordinates. *)
Definition pano16 : PIL.Image := PIL.build 16 8 (fun x y => (x, y, 0)).

Definition empty_world : world := mkWorld ∅ [].

Definition metadata_ok : gmap string pyval :=
  list_to_map [("status", PyStr "OK"); ("pano_id", PyStr "CAoSLEFGMVFpcE1f");
               ("date", PyStr "2021-03")].

Definition metadata_zero_results : gmap string pyval :=
  list_to_map [("status", PyStr "ZERO_RESULTS")].

Definition json_response (data : gmap string pyval) : Response :=
  mkResponse 200 "OK" "https://maps.googleapis.com/maps/api/streetview/metadata"
    (Some "application/json; charset=UTF-8") (JsonObject data).

(** A service that has imagery north of latitude 10 only, and times out
    on every request at latitude 2. *)
Definition flaky_service : environment :=
  mkEnvironment None
    (fun _ r =>
       match r with
       | MetadataRequest lat _ _ =>
           if Qeq_bool lat 2 then Failed "Read timed out."
           else if Qle_bool 10 lat then Replied (json_response metadata_ok)
           else Replied (json_response metadata_zero_results)
       | ImageRequest _ _ _ _ _ _ _ => Failed "Connection refused"
       end)
    (fun _ _ => Ok None)
    (fun _ _ _ => Ok None)
    (fun _ _ => None)
    (fun _ _ => false)
    (fun _ _ _ => None).

Definition three_locations : list Location :=
  [mkLocation "loc_00000" "delhi" 28 77 None;
   mkLocation "loc_00001" "delhi" 2 77 None;
   mkLocation "loc_00002" "mumbai" 19 72 None].

Definition sample_client : StreetViewClient := mkClient "key" (1 # 10).

Definition sample_pano : Panorama := mkPanorama (28 # 1) (77 # 1) "good".

(** A panorama service that knows one panorama, "good", whose bitmap is
    the sample panorama; it answers "gone" with no panorama and raises on
    any other id.  Saving fails for the file of heading 90. *)
Definition hires_service : environment :=
  mkEnvironment None
    (fun _ _ => Failed "Connection refused")
    (fun _ id =>
       if String.eqb id "good" then Ok (Some sample_pano)
       else if String.eqb id "gone" then Ok None
       else Raise (Exn OtherError "invalid panorama id"))
    (fun _ _ _ => Ok (Some pano16))
    (fun _ _ => None)
    (fun _ _ => false)
    (fun _ _ path =>
       if contains "_h090_" path then Some (Exn OSError "No space left on device")
       else None).

Definition good_location : Location :=
  mkLocation "loc_00003" "delhi" (28 # 1) (77 # 1) (Some "good").

Definition location_without_pano : Location :=
  mkLocation "loc_00004" "delhi" (28 # 1) (77 # 1) None.

(** A world where the two files of the location without panorama id are
    already in place. *)
Definition world_with_files : world :=
  mkWorld (list_to_set (expected_files "img" "loc_00004" [0; 90] 0)) [].

(** An image service that answers every image request with a JPEG. *)
Definition image_service : environment :=
  mkEnvironment None
    (fun _ r =>
       match r with
       | ImageRequest _ _ _ _ _ _ _ =>
           Replied (mkResponse 200 "OK" "https://maps.googleapis.com/maps/api/streetview"
                      (Some "image/jpeg")
                      (NotJson "Expecting value: line 1 column 1 (char 0)"))
       | MetadataRequest _ _ _ => Replied (json_response metadata_ok)
       end)
    (fun _ _ => Ok None)
    (fun _ _ _ => Ok None)
    (fun _ _ => None)
    (fun _ _ => false)
    (fun _ _ _ => None).

(** An image service that times out for heading 0 and answers every other
    image request with a JPEG, over a disk that refuses the file of
    heading 90 after opening it. *)
Definition full_disk_service : environment :=
  mkEnvironment None
    (fun _ r =>
       match r with
       | ImageRequest _ _ h _ _ _ _ =>
           if h =? 0 then Failed "Read timed out."
           else Replied (mkResponse 200 "OK" "https://maps.googleapis.com/maps/api/streetview"
                           (Some "image/jpeg")
                           (NotJson "Expecting value: line 1 column 1 (char 0)"))
       | MetadataRequest _ _ _ => Replied (json_response metadata_ok)
       end)
    (fun _ _ => Ok None)
    (fun _ _ _ => Ok None)
    (fun _ path => if contains "_h090_" path then Some "No space left on device" else None)
    (fun _ _ => true)
    (fun _ _ _ => None).


Definition two_locations : list Location :=
  [mkLocation "loc_00000" "delhi" 28 77 None;
   mkLocation "loc_00002" "mumbai" 19 72 None].

(** ** The rate limiter: [_wait_for_rate_limit] *)

(** [x < y] on floats. *)
Definition float_lt (x y : Q) : bool := negb (Qle_bool y x).

(** Rounding away from zero to an integer, CPython's [_PyTime_ROUND_UP]. *)
Definition round_up (x : Q) : Z := if Qle_bool 0 x then Qceiling x else Qfloor x.

(** [time.sleep(secs)] for a float, as CPython 3.11 does it: the length is
    converted to a number of nanoseconds, rounded away from zero, which
    must fit a signed 64-bit integer; a negative length is refused.  At
    exactly 2^63 ns the conversion wraps to a negative number (on
    x86-64), which is refused as a negative length. *)
Definition sleep (secs : Q) : result unit :=
  let ns := round_up (Float64.fmul secs 1000000000) in
  if (ns <? - 2 ^ 63) || (2 ^ 63 <? ns)
  then Raise (Exn OverflowError "timestamp too large to convert to C _PyTime_t")
  else if (ns <? 0) || (ns =? 2 ^ 63)
  then Raise (Exn ValueError "sleep length must be non-negative")
  else Ok tt.

(** [_wait_for_rate_limit].  The method reads the clock twice:
    [time_before] is what the first [time.time()] returns, [time_after]
    what the second returns (after the sleep, if there is one).  The
    result is the length of the sleep asked for, if any, and the new
    value of [_last_request_time]. *)
Definition wait_for_rate_limit (client : StreetViewClient) (last_request_time : Q)
    (time_before time_after : Q) : result (option Q * Q) :=
  let elapsed := Float64.fsub time_before last_request_time in
  if float_lt elapsed (rate_limit client) then
    let secs := Float64.fsub (rate_limit client) elapsed in
    rbind (sleep secs) (fun _ => Ok (Some secs, time_after))
  else Ok (None, time_after).

(** ** One hi-res image: [download_panorama_hires] *)

Section SingleImage.
Variable env : environment.


End SingleImage.

(** The panorama ids looked up by a trace, oldest first. *)
Definition panorama_lookups (t : list event) : list string :=
  flat_map (fun e => match e with FindPanorama id => [id] | _ => [] end) t.

(** The bitmaps fetched by a trace, oldest first. *)
Definition panorama_fetches (t : list event) : list (Panorama * Z) :=
  flat_map (fun e => match e with GetPanorama pano zoom => [(pano, zoom)] | _ => [] end) t.

(** What a run may do to the files and to the trace between two worlds:
    files are only added, no request is sent, and every file written is
    one of [allowed]. *)
Definition offline_step (allowed : list string) (w w' : world) : Prop :=
  files w ⊆ files w'
  /\ http_requests (trace w') = http_requests (trace w)
  /\ exists written,
       file_writes (trace w') = file_writes (trace w) ++ written
       /\ Forall (fun f => In f allowed) written.

(** The fields of a download record that come from the row and from the
    arguments of the batch. *)
Definition record_key (d : DownloadRecord) : string * string * Q * Q * Z * Z :=
  (dl_location_id d, dl_city d, dl_lat d, dl_lon d, dl_heading d, dl_pitch d).

(** The keys of the records of a row: one per heading, in order. *)
Definition row_keys (headings : list Z) (p : Z) (row : Location)
    : list (string * string * Q * Q * Z * Z) :=
  map (fun h => (location_id row, city row, lat row, lon row, h, p)) headings.

(** A success record names a file that exists. *)
Definition success_on_disk (fs : gset string) (d : DownloadRecord) : Prop :=
  dl_success d = true -> exists f, dl_image_path d = Some f /\ f ∈ fs.

(** ** Reading formatted numbers back *)

(** The number written by a non-empty string of decimal digits. *)
Definition digits_value (s : string) : option N :=
  option_map N.of_uint (NilZero.uint_of_string s).

(** The integer written by an optional sign followed by decimal digits:
    what [int(s)] returns on such a string. *)
Definition int_value (s : string) : option Z :=
  match s with
  | EmptyString => None
  | String c rest =>
      if Ascii.eqb c (Ascii.ascii_of_nat 45)
      then option_map (fun n => - Z.of_N n) (digits_value rest)
      else if Ascii.eqb c (Ascii.ascii_of_nat 43)
      then option_map Z.of_N (digits_value rest)
      else option_map Z.of_N (digits_value s)
  end.

(** [s.count(c)] for a character [c]. *)
Fixpoint occurrences (c : Ascii.ascii) (s : string) : nat :=
  match s with
  | EmptyString => O
  | String x rest => ((if Ascii.eqb x c then 1 else 0) + occurrences c rest)%nat
  end.

(** ** Tables, the annotation file and the statistics *)

(** A pandas table whose rows are records of [A].  [NoColumns] is
    [pd.DataFrame([])], the table built from an empty list of rows: it
    has no column at all.  [Table rows] has the columns of [A] and any
    number of rows. *)
Inductive DataFrame (A : Type) :=
  | NoColumns
  | Table (rows : list A).
Arguments NoColumns {A}.
Arguments Table {A} rows.

(** [pd.DataFrame(records)] for a list of dicts that all have the keys of
    [A]. *)
Definition DataFrame_of {A} (records : list A) : DataFrame A :=
  match records with
  | [] => NoColumns
  | _ => Table records
  end.

(** [df[column]] on a table without that column raises
    [KeyError(column)], whose [str] is the quoted column name. *)
Definition KeyError (column : string) : exn :=
  Exn OtherError ("'" +:+ column +:+ "'").

(** A row of the annotation table. *)
Record AnnotationRecord := mkAnnotationRecord {
  annotation_id : string;
  an_location_id : string;
  an_city : string;
  an_lat : Q;
  an_lon : Q;
  an_heading : Z;
  an_pitch : Z;
  an_image_path : option string
}.

(** [[f"ann_{i:06d}" for i in range(n)]] *)
Definition annotation_ids (n : nat) : list string :=
  map (fun i => "ann_" +:+ format_d false 6 (Z.of_nat i)) (seq 0 n).

Definition annotation_record (id : string) (d : DownloadRecord) : AnnotationRecord :=
  mkAnnotationRecord id (dl_location_id d) (dl_city d) (dl_lat d) (dl_lon d)
    (dl_heading d) (dl_pitch d) (dl_image_path d).

Section Annotation.
Variable env : environment.

(** [generate_annotation_csv] *)
Definition generate_annotation_csv (download_results : DataFrame DownloadRecord)
    (output_path : string) : M (DataFrame AnnotationRecord) :=
  match download_results with
  | NoColumns => raise (KeyError "success")
  | Table rows =>
      let successful := List.filter (fun d => dl_success d) rows in
      let ids := annotation_ids (length successful) in
      let annotation_df := map (fun '(id, d) => annotation_record id d) (zip ids successful) in
      run write_file env output_path;
      ret (Table annotation_df)
  end.

End Annotation.

(** [series.unique()]: the distinct values in order of first appearance. *)
Fixpoint unique (xs : list string) : list string :=
  match xs with
  | [] => []
  | x :: rest => x :: List.filter (fun y => negb (String.eqb y x)) (unique rest)
  end.

(** [(with_coverage / total) * 100 if total > 0 else 0] *)
Definition percentage (with_coverage total : nat) : Q :=
  if (0 <? total)%nat then
    Float64.fmul (Float64.fdiv (Float64.of_int (Z.of_nat with_coverage))
                               (Float64.of_int (Z.of_nat total))) 100
  else 0.

(** [f"{x:.1f}"] for a float [x >= 0]: the nearest number of tenths, ties
    to even, written with one decimal. *)
Definition format_1f (x : Q) : string :=
  let tenths := Float64.round_half_even (x * 10) in
  decimal (Z.to_N (tenths / 10)) +:+ "." +:+ decimal (Z.to_N (tenths mod 10)).

(** [f"{label}: {with_coverage}/{total} ({pct:.1f}%)"] *)
Definition stats_line (label : string) (with_coverage total : nat) : string :=
  label +:+ ": " +:+ decimal (N.of_nat with_coverage) +:+ "/" +:+ decimal (N.of_nat total)
        +:+ " (" +:+ format_1f (percentage with_coverage total) +:+ "%)".

(** [coverage_df[coverage_df["city"] == city]] *)
Definition city_data (rows : list CoverageRecord) (c : string) : list CoverageRecord :=
  List.filter (fun r => String.eqb (cov_city r) c) rows.

(** [df["has_coverage"].sum()] *)
Definition coverage_sum (rows : list CoverageRecord) : nat :=
  length (List.filter (fun r => cov_has_coverage r) rows).

(** The figures of the loop of [print_coverage_stats]: for each city, in
    order of first appearance, the number of its rows with coverage and
    the number of its rows. *)
Definition city_stats (rows : list CoverageRecord) : list (string * nat * nat) :=
  map (fun c => (c, coverage_sum (city_data rows c), length (city_data rows c)))
      (unique (map cov_city rows)).

(** [s * n] on a string. *)
Fixpoint str_mul (s : string) (n : nat) : string :=
  match n with
  | O => EmptyString
  | S k => s +:+ str_mul s k
  end.

(** ["-" * 50] *)
Definition dashes : string := str_mul "-" 50.

(** [print_coverage_stats]: the lines printed, and the outcome. *)
Definition print_coverage_stats (coverage_df : DataFrame CoverageRecord)
    : list string * result unit :=
  let header := [EmptyString; "Coverage Statistics:"; dashes] in
  match coverage_df with
  | NoColumns => (header, Raise (KeyError "city"))
  | Table rows =>
      (header
         ++ map (fun '(c, with_coverage, total) => stats_line c with_coverage total)
                (city_stats rows)
         ++ [dashes; stats_line "Total" (coverage_sum rows) (length rows)],
       Ok tt)
  end.

(* ================================================================== *)
(** * Part II: lemmas                                                  *)
(* ================================================================== *)

(** ** Rounding *)

Module Float64Facts.
Import Float64.
Local Open Scope Q_scope.

Lemma inject_Z_pos (z : Z) : (0 < z)%Z -> 0 < inject_Z z.
Proof. intros H. change 0 with (inject_Z 0). now rewrite <- Zlt_Qlt. Qed.

Lemma pow2_pos (e : Z) : 0 < pow2 e.
Proof.
  unfold pow2. destruct (0 <=? e)%Z eqn:He.
  - apply inject_Z_pos. apply Z.pow_pos_nonneg; lia.
  - apply Qlt_shift_div_l.
    + apply inject_Z_pos. apply Z.pow_pos_nonneg; lia.
    + rewrite Qmult_0_l. lra.
Qed.

Lemma pow2_neg (e : Z) : (e < 0)%Z -> pow2 e * inject_Z (2 ^ (- e)) == 1.
Proof.
  intros He. unfold pow2. destruct (Z.leb_spec 0 e); [lia|].
  assert (0 < inject_Z (2 ^ (- e))) by (apply inject_Z_pos, Z.pow_pos_nonneg; lia).
  field. lra.
Qed.

Lemma ilog2_lower (x : Q) : 0 < x -> pow2 (ilog2 x) <= x.
Proof.
  intros Hx. unfold ilog2. destruct x as [n d]. cbn [Qnum Qden].
  assert (Hn : (0 < n)%Z) by (unfold Qlt in Hx; simpl in Hx; lia).
  destruct (Z.log2_spec n Hn) as [Ha _].
  destruct (Z.log2_spec (Zpos d) ltac:(lia)) as [_ Hd].
  assert (Ha0 : (0 <= Z.log2 n)%Z) by apply Z.log2_nonneg.
  assert (Hb0 : (0 <= Z.log2 (Zpos d))%Z) by apply Z.log2_nonneg.
  revert Ha Hd Ha0 Hb0.
  generalize (Z.log2 n) (Z.log2 (Zpos d)). intros a b Ha Hd Ha0 Hb0.
  destruct (Qle_bool (pow2 (a - b)) (n # d)) eqn:Hb.
  - now apply Qle_bool_iff.
  - clear Hb.
    unfold pow2. destruct (Z.leb_spec 0 (a - b - 1)).
    + unfold Qle; simpl. rewrite Z.mul_1_r.
      assert (2 ^ a = 2 ^ (a - b - 1) * 2 ^ Z.succ b)%Z
        by (rewrite <- Z.pow_add_r by lia; f_equal; lia).
      assert (0 < 2 ^ (a - b - 1))%Z by (apply Z.pow_pos_nonneg; lia).
      nia.
    + assert (Hp : (0 < 2 ^ (- (a - b - 1)))%Z) by (apply Z.pow_pos_nonneg; lia).
      apply Qle_shift_div_r; [now apply inject_Z_pos|].
      unfold Qle; simpl. rewrite !Z.mul_1_r.
      assert (2 ^ Z.succ b = 2 ^ a * 2 ^ (- (a - b - 1)))%Z
        by (rewrite <- Z.pow_add_r by lia; f_equal; lia).
      nia.
Qed.

Lemma Qdiv_by_inverse (c d x : Q) : c * d == 1 -> x / c == x * d.
Proof.
  intros H. assert (Hc : ~ c == 0).
  { intros E. rewrite E, Qmult_0_l in H. discriminate H. }
  rewrite <- (Qmult_1_r (x / c)), <- H. field. exact Hc.
Qed.

Lemma round_half_even_ge (q : Q) (n : Z) : inject_Z n <= q -> (n <= round_half_even q)%Z.
Proof.
  intros H. apply Qfloor_resp_le in H. rewrite Qfloor_Z in H.
  unfold round_half_even.
  destruct (Qcompare _ _); [destruct (Z.even _)| |]; lia.
Qed.

Lemma round_half_even_le (q : Q) (n : Z) : q <= inject_Z n -> (round_half_even q <= n)%Z.
Proof.
  intros H. pose proof (Qfloor_le q) as Hf.
  assert (Hfn : (Qfloor q <= n)%Z) by (rewrite Zle_Qle; lra).
  unfold round_half_even.
  destruct (Qcompare (q - inject_Z (Qfloor q)) (1 # 2)) eqn:Hc.
  - apply Qeq_alt in Hc.
    assert (Hlt : inject_Z (Qfloor q) < inject_Z n) by lra.
    rewrite <- Zlt_Qlt in Hlt. destruct (Z.even _); lia.
  - exact Hfn.
  - apply Qgt_alt in Hc.
    assert (Hlt : inject_Z (Qfloor q) < inject_Z n) by lra.
    rewrite <- Zlt_Qlt in Hlt. lia.
Qed.

Lemma round_half_even_nonneg (q : Q) : 0 <= q -> (0 <= round_half_even q)%Z.
Proof. intros H. apply round_half_even_ge. exact H. Qed.

Lemma round_pos_nonneg (x : Q) : 0 < x -> 0 <= round_pos x.
Proof.
  intros Hx. unfold round_pos.
  set (e := Z.max _ _). pose proof (pow2_pos e) as Hp.
  apply Qmult_le_0_compat; [|lra].
  change 0 with (inject_Z 0). rewrite <- Zle_Qle.
  apply round_half_even_nonneg.
  apply Qle_shift_div_l; [exact Hp|]. lra.
Qed.

Lemma round_pos_bounds (x : Q) (a b : Z) :
  0 < x -> x < inject_Z (2 ^ 52) ->
  inject_Z a <= 2 * x -> 2 * x <= inject_Z b ->
  inject_Z a <= 2 * round_pos x /\ 2 * round_pos x <= inject_Z b.
Proof.
  intros Hx Hlt Ha Hb. unfold round_pos.
  pose proof (ilog2_lower x Hx) as Hl.
  assert (Hl51 : (ilog2 x <= 51)%Z).
  { destruct (Z.le_gt_cases (ilog2 x) 51) as [|Hgt]; [assumption|exfalso].
    unfold pow2 in Hl. destruct (Z.leb_spec 0 (ilog2 x)); [|lia].
    assert (2 ^ 52 <= 2 ^ ilog2 x)%Z by (apply Z.pow_le_mono_r; lia).
    assert (inject_Z (2 ^ 52) <= inject_Z (2 ^ ilog2 x)) by now rewrite <- Zle_Qle.
    lra. }
  set (e := Z.max (ilog2 x - 52) (-1074)).
  assert (He : (e < 0)%Z) by lia.
  pose proof (pow2_neg e He) as Hpn. pose proof (pow2_pos e) as Hpp.
  set (P' := (2 ^ (- e - 1))%Z).
  assert (HP : (2 ^ (- e) = 2 * P')%Z).
  { unfold P'. replace (- e)%Z with (1 + (- e - 1))%Z at 1 by lia.
    rewrite Z.pow_add_r by lia. reflexivity. }
  rewrite HP, inject_Z_mult in Hpn.
  assert (HP' : 0 < inject_Z P') by (apply inject_Z_pos, Z.pow_pos_nonneg; lia).
  change (inject_Z 2) with 2 in Hpn.
  assert (Hm : x / pow2 e == x * (2 * inject_Z P')) by (apply Qdiv_by_inverse; exact Hpn).
  assert (Hlo : (a * P' <= round_half_even (x / pow2 e))%Z).
  { apply round_half_even_ge. rewrite Hm, inject_Z_mult. nra. }
  assert (Hhi : (round_half_even (x / pow2 e) <= b * P')%Z).
  { apply round_half_even_le. rewrite Hm, inject_Z_mult. nra. }
  generalize dependent (round_half_even (x / pow2 e)). intros r Hlo Hhi.
  rewrite Zle_Qle, inject_Z_mult in Hlo, Hhi.
  clear Hm. revert Hpn Hpp HP' Hlo Hhi.
  generalize (pow2 e) (inject_Z P'). intros q P Hpn Hpp HP' Hlo Hhi.
  assert (inject_Z a * (q * (2 * P)) == inject_Z a) by (rewrite Hpn; ring).
  assert (inject_Z b * (q * (2 * P)) == inject_Z b) by (rewrite Hpn; ring).
  split; nra.
Qed.

Lemma RN_nonneg (x : Q) : 0 <= x -> 0 <= RN x.
Proof.
  intros Hx. unfold RN. destruct (Qcompare x 0) eqn:Hc.
  - lra.
  - apply Qlt_alt in Hc. lra.
  - apply Qgt_alt in Hc. now apply round_pos_nonneg.
Qed.

Lemma RN_bounds (x : Q) (a b : Z) :
  (- 2 ^ 53 < a)%Z -> (b < 2 ^ 53)%Z ->
  inject_Z a <= 2 * x -> 2 * x <= inject_Z b ->
  inject_Z a <= 2 * RN x /\ 2 * RN x <= inject_Z b.
Proof.
  intros Ha Hb Hax Hxb.
  assert (Ha' : - inject_Z (2 ^ 53) < inject_Z a)
    by (rewrite <- inject_Z_opp, <- Zlt_Qlt; exact Ha).
  assert (Hb' : inject_Z b < inject_Z (2 ^ 53)) by (rewrite <- Zlt_Qlt; exact Hb).
  assert (H53 : inject_Z (2 ^ 53) == 2 * inject_Z (2 ^ 52)) by reflexivity.
  unfold RN. destruct (Qcompare x 0) eqn:Hc.
  - apply Qeq_alt in Hc. lra.
  - apply Qlt_alt in Hc.
    destruct (round_pos_bounds (- x) (- b) (- a)) as [H1 H2];
      rewrite ?inject_Z_opp; try lra.
    rewrite !inject_Z_opp in H1, H2. lra.
  - apply Qgt_alt in Hc.
    apply round_pos_bounds; lra.
Qed.

Lemma RN_exact (x : Q) (z : Z) :
  (- 2 ^ 52 < z < 2 ^ 52)%Z -> x == inject_Z z -> RN x == inject_Z z.
Proof.
  intros Hz Hx.
  destruct (RN_bounds x (2 * z) (2 * z)) as [H1 H2];
    rewrite ?inject_Z_mult; change (inject_Z 2) with 2; try lra; try lia.
  rewrite inject_Z_mult in H1, H2. change (inject_Z 2) with 2 in H1, H2. lra.
Qed.

Lemma to_int_bounds (x : Q) (a b : Z) :
  inject_Z a <= x -> x <= inject_Z b -> (a <= to_int x <= b)%Z.
Proof.
  intros Ha Hb. unfold to_int.
  pose proof (Qfloor_resp_le _ _ Ha) as F1. pose proof (Qfloor_resp_le _ _ Hb) as F2.
  pose proof (Qceiling_resp_le _ _ Ha) as C1. pose proof (Qceiling_resp_le _ _ Hb) as C2.
  rewrite Qfloor_Z in F1, F2. rewrite Qceiling_Z in C1, C2.
  destruct (Qle_bool 0 x); lia.
Qed.

Lemma to_int_exact (x : Q) (z : Z) : x == inject_Z z -> to_int x = z.
Proof.
  intros Hx.
  assert (z <= to_int x <= z)%Z by (apply to_int_bounds; lra). lia.
Qed.

Lemma of_int_exact (z : Z) : (- 2 ^ 52 < z < 2 ^ 52)%Z -> of_int z == inject_Z z.
Proof. intros Hz. apply RN_exact; [exact Hz|reflexivity]. Qed.

Lemma to_int_nonneg (x : Q) : 0 <= x -> (0 <= to_int x)%Z.
Proof.
  intros Hx. unfold to_int. apply Qle_bool_iff in Hx. rewrite Hx.
  apply Qle_bool_iff in Hx. apply Qfloor_resp_le in Hx. exact Hx.
Qed.

Lemma inject_Z_le (a b : Z) : (a <= b)%Z -> inject_Z a <= inject_Z b.
Proof. intros H. now rewrite <- Zle_Qle. Qed.
Lemma pow2_Qpower (e : Z) : pow2 e == Qpower 2 e.
Proof.
  unfold pow2. destruct (Z.leb_spec 0 e).
  - now rewrite Zpower_Qpower.
  - rewrite Zpower_Qpower by lia.
    rewrite <- (Z.opp_involutive e) at 2. rewrite (Qpower_opp 2 (- e)).
    change (inject_Z 2) with 2. unfold Qdiv. now rewrite Qmult_1_l.
Qed.

Lemma pow2_add (a b : Z) : pow2 (a + b) == pow2 a * pow2 b.
Proof. rewrite !pow2_Qpower. apply Qpower_plus. discriminate. Qed.

Lemma round_half_even_error (q : Q) :
  - (1 # 2) <= inject_Z (round_half_even q) - q /\ inject_Z (round_half_even q) - q <= 1 # 2.
Proof.
  pose proof (Qfloor_le q) as Hlo. pose proof (Qlt_floor q) as Hhi.
  rewrite inject_Z_plus in Hhi. change (inject_Z 1) with 1 in Hhi.
  unfold round_half_even.
  destruct (Qcompare (q - inject_Z (Qfloor q)) (1 # 2)) eqn:Hc.
  - apply Qeq_alt in Hc. destruct (Z.even _).
    + split; lra.
    + rewrite inject_Z_plus. change (inject_Z 1) with 1. split; lra.
  - apply Qlt_alt in Hc. split; lra.
  - apply Qgt_alt in Hc. rewrite inject_Z_plus. change (inject_Z 1) with 1. split; lra.
Qed.

Lemma round_pos_error (x : Q) :
  0 < x ->
  - ((x + 1) * eps) <= round_pos x - x /\ round_pos x - x <= (x + 1) * eps.
Proof.
  intros Hx. unfold round_pos.
  set (e := Z.max (ilog2 x - 52) (-1074)).
  pose proof (pow2_pos e) as Hp.
  destruct (round_half_even_error (x / pow2 e)) as [E1 E2].
  assert (Hx' : x == x / pow2 e * pow2 e) by (field; lra).
  assert (Hulp : pow2 e <= 2 * ((x + 1) * eps)).
  { destruct (Z.max_spec (ilog2 x - 52) (-1074)) as [[_ He]|[_ He]]; fold e in He; rewrite He.
    - assert (pow2 (-1074) <= 2 * eps) by (vm_compute; discriminate). 
      assert (0 <= x * eps) by (apply Qmult_le_0_compat; [lra|vm_compute; discriminate]).
      lra.
    - pose proof (ilog2_lower x Hx) as Hl.
      replace (ilog2 x - 52)%Z with (ilog2 x + -52)%Z by lia. rewrite pow2_add.
      assert (H52 : pow2 (-52) == 2 * eps) by (vm_compute; reflexivity).
      rewrite H52.
      assert (0 < eps) by (vm_compute; reflexivity).
      nra. }
  revert E1 E2 Hx' Hulp. generalize (round_half_even (x / pow2 e)). intros r.
  generalize (x / pow2 e). intros m E1 E2 Hx' Hulp.
  assert (H1 : 0 <= (inject_Z r - m + (1 # 2)) * pow2 e) by (apply Qmult_le_0_compat; lra).
  assert (H2 : 0 <= ((1 # 2) - (inject_Z r - m)) * pow2 e) by (apply Qmult_le_0_compat; lra).
  split; nra.
Qed.

Lemma RN_error (x B : Q) :
  - B <= x -> x <= B ->
  - ((B + 1) * eps) <= RN x - x /\ RN x - x <= (B + 1) * eps.
Proof.
  intros HB1 HB2.
  assert (Heps : 0 < eps) by (vm_compute; reflexivity).
  unfold RN. destruct (Qcompare x 0) eqn:Hc.
  - apply Qeq_alt in Hc. split; nra.
  - apply Qlt_alt in Hc. destruct (round_pos_error (- x)) as [E1 E2]; [lra|].
    split; nra.
  - apply Qgt_alt in Hc. destruct (round_pos_error x) as [E1 E2]; [lra|].
    split; nra.
Qed.

Lemma to_int_floor (x : Q) (n : Z) :
  (0 <= n)%Z -> inject_Z n <= x -> x < inject_Z n + 1 -> to_int x = n.
Proof.
  intros Hn H1 H2. unfold to_int.
  assert (Hx : 0 <= x).
  { assert (0 <= inject_Z n) by (change 0 with (inject_Z 0); now rewrite <- Zle_Qle). lra. }
  apply Qle_bool_iff in Hx. rewrite Hx.
  pose proof (Qfloor_le x) as F1. pose proof (Qlt_floor x) as F2.
  rewrite inject_Z_plus in F2. change (inject_Z 1) with 1 in F2.
  assert (L1 : inject_Z (Qfloor x) < inject_Z (n + 1)).
  { rewrite inject_Z_plus. change (inject_Z 1) with 1. lra. }
  assert (L2 : inject_Z n < inject_Z (Qfloor x + 1)).
  { rewrite inject_Z_plus. change (inject_Z 1) with 1. lra. }
  rewrite <- Zlt_Qlt in L1, L2. lia.
Qed.
(** Rounding never crosses a point of the grid of step 2^-j, as long as
    the value stays below 2^(53-j): there the binary64 grid is at least
    as fine. *)
Lemma round_pos_grid (j : Z) (x : Q) (a b : Z) :
  (0 <= j <= 52)%Z ->
  0 < x -> x < inject_Z (2 ^ (53 - j)) ->
  inject_Z a <= inject_Z (2 ^ j) * x -> inject_Z (2 ^ j) * x <= inject_Z b ->
  inject_Z a <= inject_Z (2 ^ j) * round_pos x
  /\ inject_Z (2 ^ j) * round_pos x <= inject_Z b.
Proof.
  intros Hj Hx Hlt Ha Hb. unfold round_pos.
  pose proof (ilog2_lower x Hx) as Hl.
  assert (Hlog : (ilog2 x <= 52 - j)%Z).
  { destruct (Z.le_gt_cases (ilog2 x) (52 - j)) as [|Hgt]; [assumption|exfalso].
    unfold pow2 in Hl. destruct (Z.leb_spec 0 (ilog2 x)); [|lia].
    assert (2 ^ (53 - j) <= 2 ^ ilog2 x)%Z by (apply Z.pow_le_mono_r; lia).
    assert (inject_Z (2 ^ (53 - j)) <= inject_Z (2 ^ ilog2 x)) by now rewrite <- Zle_Qle.
    lra. }
  set (e := Z.max (ilog2 x - 52) (-1074)).
  assert (He : (e <= - j)%Z) by lia.
  pose proof (pow2_pos e) as Hpp.
  assert (Hsplit : pow2 e * (inject_Z (2 ^ j) * inject_Z (2 ^ (- e - j))) == 1).
  { rewrite <- inject_Z_mult, <- Z.pow_add_r by lia.
    replace (j + (- e - j))%Z with (- e)%Z by lia.
    destruct (Z.eq_dec e 0%Z) as [E0|Hne]; [rewrite E0; reflexivity|]. apply pow2_neg. lia. }
  assert (HJ : 0 < inject_Z (2 ^ j)) by (apply inject_Z_pos, Z.pow_pos_nonneg; lia).
  assert (HP' : 0 < inject_Z (2 ^ (- e - j))) by (apply inject_Z_pos, Z.pow_pos_nonneg; lia).
  assert (Hm : x / pow2 e == x * (inject_Z (2 ^ j) * inject_Z (2 ^ (- e - j))))
    by (apply Qdiv_by_inverse; exact Hsplit).
  assert (Hlo : (a * 2 ^ (- e - j) <= round_half_even (x / pow2 e))%Z).
  { apply round_half_even_ge. rewrite Hm, inject_Z_mult.
    assert (0 <= (inject_Z (2 ^ j) * x - inject_Z a) * inject_Z (2 ^ (- e - j)))
      by (apply Qmult_le_0_compat; lra).
    lra. }
  assert (Hhi : (round_half_even (x / pow2 e) <= b * 2 ^ (- e - j))%Z).
  { apply round_half_even_le. rewrite Hm, inject_Z_mult.
    assert (0 <= (inject_Z b - inject_Z (2 ^ j) * x) * inject_Z (2 ^ (- e - j)))
      by (apply Qmult_le_0_compat; lra).
    lra. }
  generalize dependent (round_half_even (x / pow2 e)). intros r Hlo Hhi.
  rewrite Zle_Qle, inject_Z_mult in Hlo, Hhi.
  clear Hm. revert Hsplit Hpp HJ HP' Hlo Hhi.
  generalize (pow2 e) (inject_Z (2 ^ j)) (inject_Z (2 ^ (- e - j))).
  intros q J P Hsplit Hpp HJ HP' Hlo Hhi.
  assert (H1 : 0 <= (inject_Z r - inject_Z a * P) * (q * J))
    by (apply Qmult_le_0_compat; [lra|apply Qmult_le_0_compat; lra]).
  assert (H2 : 0 <= (inject_Z b * P - inject_Z r) * (q * J))
    by (apply Qmult_le_0_compat; [lra|apply Qmult_le_0_compat; lra]).
  assert (H3 : inject_Z a * (q * (J * P)) == inject_Z a) by (rewrite Hsplit; ring).
  assert (H4 : inject_Z b * (q * (J * P)) == inject_Z b) by (rewrite Hsplit; ring).
  split; lra.
Qed.

Lemma RN_grid (j : Z) (x : Q) (a b : Z) :
  (0 <= j <= 52)%Z ->
  (- 2 ^ 53 < a)%Z -> (b < 2 ^ 53)%Z ->
  inject_Z a <= inject_Z (2 ^ j) * x -> inject_Z (2 ^ j) * x <= inject_Z b ->
  inject_Z a <= inject_Z (2 ^ j) * RN x /\ inject_Z (2 ^ j) * RN x <= inject_Z b.
Proof.
  intros Hj Ha Hb Hax Hxb.
  assert (HJ : 0 < inject_Z (2 ^ j)) by (apply inject_Z_pos, Z.pow_pos_nonneg; lia).
  assert (Ha' : - inject_Z (2 ^ 53) < inject_Z a)
    by (rewrite <- inject_Z_opp, <- Zlt_Qlt; exact Ha).
  assert (Hb' : inject_Z b < inject_Z (2 ^ 53)) by (rewrite <- Zlt_Qlt; exact Hb).
  assert (H53 : inject_Z (2 ^ 53) == inject_Z (2 ^ j) * inject_Z (2 ^ (53 - j))).
  { rewrite <- inject_Z_mult, <- Z.pow_add_r by lia. now replace (j + (53 - j))%Z with 53%Z by lia. }
  assert (Hsmall : forall y, inject_Z (2 ^ j) * y < inject_Z (2 ^ 53) -> y < inject_Z (2 ^ (53 - j))).
  { intros y Hy. rewrite H53 in Hy.
    apply (Qmult_lt_l _ _ (inject_Z (2 ^ j))); [exact HJ|exact Hy]. }
  unfold RN. destruct (Qcompare x 0) eqn:Hc.
  - apply Qeq_alt in Hc. rewrite Hc in Hax, Hxb. rewrite Qmult_0_r in *. split; assumption.
  - apply Qlt_alt in Hc.
    destruct (round_pos_grid j (- x) (- b) (- a) Hj) as [H1 H2];
      rewrite ?inject_Z_opp; try lra.
    { apply Hsmall. lra. }
    rewrite !inject_Z_opp in H1, H2. lra.
  - apply Qgt_alt in Hc.
    apply round_pos_grid; try assumption. apply Hsmall. lra.
Qed.

End Float64Facts.

(** The rounding model agrees with the Standard Library's binary64 on
    the expressions of the crop, at headings, pitches and sizes in use. *)
Example rounding_model_agrees_with_stdlib :
  forallb (fun a =>
    forallb (fun w =>
      Qeq_bool (model_scale a 360 w) (stdlib_scale a 360 w)
      && Qeq_bool (model_center a w) (stdlib_center a w))
      [1; 49; 360; 512; 4096; 6656; 13312; 16384])
    [-90; -45; -7; -1; 1; 2; 10; 49; 70; 89; 90; 100; 120; 180; 270; 315; 359; 360; 361]
  = true.
Proof. vm_compute. reflexivity. Qed.

(** A product the exact quotient would make 1: binary64 gives the float
    just below, and [int] truncates it to 0. *)
Example float_truncation_below_one :
  Float64.to_int (model_scale 1 49 49) = 0.
Proof. vm_compute. reflexivity. Qed.

(** ** Images *)

Module PILFacts.
Import PIL.

Lemma zrange_length (n : Z) : length (zrange n) = Z.to_nat n.
Proof. unfold zrange. now rewrite length_map, length_seq. Qed.

Lemma zrange_nth (n i : Z) (d : Z) :
  0 <= i < n -> nth (Z.to_nat i) (zrange n) d = i.
Proof.
  intros Hi. unfold zrange.
  rewrite (nth_indep _ d (Z.of_nat 0)) by (rewrite length_map, length_seq; lia).
  rewrite map_nth, seq_nth by lia. lia.
Qed.

Lemma zrange_elem (n i : Z) : In i (zrange n) <-> 0 <= i < n.
Proof.
  unfold zrange. rewrite in_map_iff. split.
  - intros (k & <- & Hk). apply in_seq in Hk. lia.
  - intros Hi. exists (Z.to_nat i). split; [lia|]. apply in_seq. lia.
Qed.

Lemma nth_map_zrange {A} (f : Z -> A) (n i : Z) (d : A) :
  0 <= i < n -> nth (Z.to_nat i) (map f (zrange n)) d = f i.
Proof.
  intros Hi.
  rewrite (nth_indep _ d (f 0)) by (rewrite length_map, zrange_length; lia).
  rewrite map_nth. f_equal. now apply zrange_nth.
Qed.

Lemma getpixel_build (w h : Z) (f : Z -> Z -> pixel) (x y : Z) :
  0 <= x < w -> 0 <= y < h -> getpixel (build w h f) x y = f x y.
Proof.
  intros Hx Hy. unfold getpixel, build. cbn [width height rows].
  destruct (Z.leb_spec 0 x), (Z.ltb_spec x w), (Z.leb_spec 0 y), (Z.ltb_spec y h);
    try lia. cbn [andb].
  rewrite (nth_map_zrange (fun y => map (fun x => f x y) (zrange w))) by lia.
  now rewrite (nth_map_zrange (fun x => f x y)) by lia.
Qed.

Lemma getpixel_outside (img : Image) (x y : Z) :
  ~ (0 <= x < width img /\ 0 <= y < height img) -> getpixel img x y = black.
Proof.
  intros H. unfold getpixel.
  destruct (Z.leb_spec 0 x), (Z.ltb_spec x (width img)),
    (Z.leb_spec 0 y), (Z.ltb_spec y (height img)); cbn [andb]; try reflexivity.
  exfalso. apply H. lia.
Qed.

Lemma build_ext (w h : Z) (f g : Z -> Z -> pixel) :
  (forall x y, 0 <= x < w -> 0 <= y < h -> f x y = g x y) ->
  build w h f = build w h g.
Proof.
  intros H. unfold build. f_equal.
  apply map_ext_in. intros y Hy. apply zrange_elem in Hy.
  apply map_ext_in. intros x Hx. apply zrange_elem in Hx.
  now apply H.
Qed.

Lemma crop_ok (img : Image) (x0 y0 x1 y1 : Z) :
  x0 <= x1 -> y0 <= y1 ->
  crop img (x0, y0, x1, y1)
  = Ok (build (x1 - x0) (y1 - y0) (fun x y => getpixel img (x0 + x) (y0 + y))).
Proof.
  intros Hx Hy. unfold crop.
  destruct (Z.ltb_spec x1 x0); [lia|]. destruct (Z.ltb_spec y1 y0); [lia|]. reflexivity.
Qed.

Lemma crop_inverted (img : Image) (x0 y0 x1 y1 : Z) :
  x1 < x0 \/ y1 < y0 -> exists e, crop img (x0, y0, x1, y1) = Raise e.
Proof.
  intros H. unfold crop.
  destruct (Z.ltb_spec x1 x0); [eauto|]. destruct (Z.ltb_spec y1 y0); [eauto|]. lia.
Qed.

Lemma new_ok (w h : Z) :
  0 <= w -> 0 <= h -> new (w, h) = Ok (build w h (fun _ _ => black)).
Proof.
  intros Hw Hh. unfold new.
  destruct (Z.ltb_spec w 0); [lia|]. destruct (Z.ltb_spec h 0); [lia|]. reflexivity.
Qed.

End PILFacts.

(** ** The crop geometry *)

(** *** The float expressions against exact arithmetic *)

Section ScaleFacts.
Import Float64 Float64Facts.
Local Open Scope Q_scope.

(** The fractional part of a quotient that is not an integer stays at
    least 1/b away from the integers below and above. *)
Lemma quotient_gap (m b : Z) :
  (0 < b)%Z -> (m mod b <> 0)%Z ->
  inject_Z (m / b) * inject_Z b + 1 <= inject_Z m
  /\ inject_Z m <= (inject_Z (m / b) + 1) * inject_Z b - 1.
Proof.
  intros Hb Hr.
  pose proof (Z.div_mod m b ltac:(lia)) as Hdm.
  pose proof (Z.mod_pos_bound m b Hb) as Hbound.
  rewrite <- !inject_Z_mult. change 1 with (inject_Z 1).
  rewrite <- !inject_Z_plus, <- inject_Z_mult. unfold Qminus.
  rewrite <- inject_Z_opp, <- inject_Z_plus, <- !Zle_Qle. lia.
Qed.

(** [int((a / b) * w)] is the floor of the exact quotient a*w/b when that
    quotient is not an integer (a below 2^16, b between 180 and 360, w
    below 2^31). *)
Lemma scale_floor (a b w : Z) :
  (0 <= a < 2 ^ 16)%Z -> (180 <= b <= 360)%Z -> (0 <= w < 2 ^ 31)%Z ->
  ((a * w) mod b <> 0)%Z ->
  to_int (fmul (fdiv (of_int a) (inject_Z b)) (of_int w)) = (a * w / b)%Z.
Proof.
  intros Ha Hb Hw Hr.
  pose proof (of_int_exact a ltac:(lia)) as Ea.
  pose proof (of_int_exact w ltac:(lia)) as Ew.
  assert (HA : 0 <= inject_Z a /\ inject_Z a <= 65536).
  { split; [apply (inject_Z_le 0)|apply (inject_Z_le a 65536)]; lia. }
  assert (HW : 0 <= inject_Z w /\ inject_Z w <= 2147483648).
  { split; [apply (inject_Z_le 0)|apply (inject_Z_le w 2147483648)]; lia. }
  assert (HC : 180 <= inject_Z b /\ inject_Z b <= 360).
  { split; [apply (inject_Z_le 180)|apply (inject_Z_le b 360)]; lia. }
  destruct HA as [HA0 HA1]. destruct HW as [HW0 HW1]. destruct HC as [HC0 HC1].
  assert (Heps : eps == 1 # 9007199254740992) by reflexivity.
  unfold fmul, fdiv.
  (* the quotient a / b *)
  assert (Hx1 : of_int a / inject_Z b * inject_Z b == inject_Z a).
  { rewrite Ea. field. lra. }
  remember (of_int a / inject_Z b) as x1 eqn:Dx1. clear Dx1.
  assert (Hx1b : 0 <= x1 /\ x1 <= 365) by (split; nra).
  destruct (RN_error x1 365) as [Q1 Q2]; [lra|lra|].
  remember (RN x1) as q eqn:Dq. clear Dq.
  rewrite Heps in Q1, Q2.
  (* the product by w *)
  assert (Hx2 : q * of_int w == q * inject_Z w) by now rewrite Ew.
  remember (q * of_int w) as x2 eqn:Dx2. clear Dx2.
  assert (P1 : 0 <= (q - (x1 - (1 # 1024))) * inject_Z w)
    by (apply Qmult_le_0_compat; lra).
  assert (P2 : 0 <= (x1 + (1 # 1024) - q) * inject_Z w)
    by (apply Qmult_le_0_compat; lra).
  assert (P3 : 0 <= x1 * inject_Z w) by (apply Qmult_le_0_compat; lra).
  assert (P4 : 0 <= (365 - x1) * inject_Z w) by (apply Qmult_le_0_compat; lra).
  assert (Hx2b : - (1099511627776) <= x2 /\ x2 <= 1099511627776).
  { rewrite Hx2. split; lra. }
  destruct (RN_error x2 1099511627776) as [V1 V2]; [lra|lra|].
  remember (RN x2) as v eqn:Dv. clear Dv.
  rewrite Heps in V1, V2.
  (* the exact quotient *)
  destruct (quotient_gap (a * w) b ltac:(lia) Hr) as [G1 G2].
  rewrite inject_Z_mult in G1, G2.
  assert (Hn : (0 <= a * w / b)%Z) by (apply Z.div_pos; nia).
  remember (a * w / b)%Z as n eqn:Dn. clear Dn.
  assert (Hn0 : 0 <= inject_Z n) by (apply (inject_Z_le 0); exact Hn).
  (* x2 against the exact quotient, scaled by b *)
  assert (HWC : 0 <= inject_Z w * inject_Z b /\ inject_Z w * inject_Z b <= 773094113280).
  { split; nra. }
  assert (R1 : 0 <= (q - x1 + (366 # 9007199254740992)) * (inject_Z w * inject_Z b))
    by (apply Qmult_le_0_compat; lra).
  assert (R2 : 0 <= (x1 + (366 # 9007199254740992) - q) * (inject_Z w * inject_Z b))
    by (apply Qmult_le_0_compat; lra).
  assert (Hexact : x1 * (inject_Z w * inject_Z b) == inject_Z a * inject_Z w).
  { rewrite <- Hx1. ring. }
  assert (S1 : inject_Z a * inject_Z w - (1 # 16) <= x2 * inject_Z b).
  { rewrite Hx2. lra. }
  assert (S2 : x2 * inject_Z b <= inject_Z a * inject_Z w + (1 # 16)).
  { rewrite Hx2. lra. }
  assert (T1 : 0 <= (v - x2 + (1 # 4096)) * inject_Z b) by (apply Qmult_le_0_compat; lra).
  assert (T2 : 0 <= (x2 + (1 # 4096) - v) * inject_Z b) by (apply Qmult_le_0_compat; lra).
  assert (U1 : inject_Z n * inject_Z b < v * inject_Z b) by lra.
  assert (U2 : v * inject_Z b < (inject_Z n + 1) * inject_Z b) by lra.
  apply to_int_floor; [exact Hn| |].
  - apply Qlt_le_weak. apply (Qmult_lt_r _ _ (inject_Z b)); [lra|exact U1].
  - apply (Qmult_lt_r _ _ (inject_Z b)); [lra|exact U2].
Qed.

End ScaleFacts.

Section CenterFloor.
Import Float64 Float64Facts.
Local Open Scope Q_scope.

(** [int(h / 2 - (pitch / 180.0) * h)] is the floor of the exact value
    h*(90 - pitch)/180 when that value is not an integer. *)
Lemma center_y_floor (h pitch : Z) :
  (0 <= h < 2 ^ 31)%Z -> (-90 <= pitch <= 90)%Z ->
  ((h * (90 - pitch)) mod 180 <> 0)%Z ->
  center_y h pitch = (h * (90 - pitch) / 180)%Z.
Proof.
  intros Hh Hp Hr.
  pose proof (of_int_exact pitch ltac:(lia)) as Ep.
  pose proof (of_int_exact h ltac:(lia)) as Eh.
  assert (HP1 : - (90) <= inject_Z pitch) by (apply (inject_Z_le (-90)); lia).
  assert (HP2 : inject_Z pitch <= 90) by (apply (inject_Z_le pitch 90); lia).
  assert (HH1 : 0 <= inject_Z h) by (apply (inject_Z_le 0); lia).
  assert (HH2 : inject_Z h <= 2147483648) by (apply (inject_Z_le h 2147483648); lia).
  assert (Heps : eps == 1 # 9007199254740992) by reflexivity.
  unfold center_y, fsub, fmul, fdiv, int_truediv.
  (* h / 2 is exact *)
  destruct (RN_bounds (inject_Z h / inject_Z 2) h h) as [Hh1 Hh2]; try lia.
  { change (inject_Z 2) with 2. unfold Qdiv. change (/ 2) with (1 # 2). lra. }
  { change (inject_Z 2) with 2. unfold Qdiv. change (/ 2) with (1 # 2). lra. }
  remember (RN (inject_Z h / inject_Z 2)) as hh eqn:Dhh. clear Dhh.
  (* pitch / 180 *)
  assert (Hx1 : of_int pitch / 180 * 180 == inject_Z pitch) by (rewrite Ep; field).
  remember (of_int pitch / 180) as x1 eqn:Dx1. clear Dx1.
  destruct (RN_error x1 1) as [Q1 Q2]; [lra|lra|].
  remember (RN x1) as q eqn:Dq. clear Dq. rewrite Heps in Q1, Q2.
  (* its product by h *)
  assert (Hx2 : q * of_int h == q * inject_Z h) by now rewrite Eh.
  remember (q * of_int h) as x2 eqn:Dx2. clear Dx2.
  assert (P1 : 0 <= (q - x1 + (2 # 9007199254740992)) * inject_Z h)
    by (apply Qmult_le_0_compat; lra).
  assert (P2 : 0 <= (x1 + (2 # 9007199254740992) - q) * inject_Z h)
    by (apply Qmult_le_0_compat; lra).
  assert (P3 : 0 <= (x1 + (1 # 2)) * inject_Z h) by (apply Qmult_le_0_compat; lra).
  assert (P4 : 0 <= ((1 # 2) - x1) * inject_Z h) by (apply Qmult_le_0_compat; lra).
  assert (Hx2b : - (2147483648) <= x2 /\ x2 <= 2147483648) by (rewrite Hx2; split; lra).
  destruct (RN_error x2 2147483648) as [M1 M2]; [lra|lra|].
  remember (RN x2) as m eqn:Dm. clear Dm. rewrite Heps in M1, M2.
  (* the difference *)
  destruct (RN_error (hh - m) 4294967296) as [S1 S2]; [lra|lra|].
  remember (RN (hh - m)) as s eqn:Ds. clear Ds. rewrite Heps in S1, S2.
  (* the exact value, scaled by 180 *)
  destruct (quotient_gap (h * (90 - pitch)) 180 ltac:(lia) Hr) as [G1 G2].
  assert (Hn : (0 <= h * (90 - pitch) / 180)%Z) by (apply Z.div_pos; nia).
  remember (h * (90 - pitch) / 180)%Z as n eqn:Dn. clear Dn.
  rewrite inject_Z_mult in G1, G2. unfold Z.sub in G1, G2.
  rewrite inject_Z_plus, inject_Z_opp in G1, G2.
  change (inject_Z 180) with 180 in G1, G2. change (inject_Z 90) with 90 in G1, G2.
  assert (Hexact : x1 * inject_Z h * 180 == inject_Z pitch * inject_Z h).
  { rewrite <- Hx1. ring. }
  apply to_int_floor; [exact Hn| |]; lra.
Qed.

End CenterFloor.

Section QuarterTurns.
Import Float64 Float64Facts.
Local Open Scope Q_scope.

(** At a multiple of 90 degrees the quotient by 360 is a number of
    quarters, every operation is exact, and [int] takes the floor of the
    exact value. *)
Lemma scale_quarters (c w : Z) :
  (0 <= c < 2 ^ 16)%Z -> (0 <= w < 2 ^ 31)%Z ->
  to_int (fmul (fdiv (of_int (90 * c)) 360) (of_int w)) = (90 * c * w / 360)%Z.
Proof.
  intros Hc Hw.
  pose proof (of_int_exact (90 * c) ltac:(lia)) as Ea.
  pose proof (of_int_exact w ltac:(lia)) as Ew.
  assert (HW : 0 <= inject_Z w) by (apply (inject_Z_le 0); lia).
  assert (HC : 0 <= inject_Z c) by (apply (inject_Z_le 0); lia).
  unfold fmul, fdiv.
  assert (Hx1 : inject_Z (2 ^ 2) * (of_int (90 * c) / 360) == inject_Z c).
  { rewrite Ea, inject_Z_mult. change (inject_Z (2 ^ 2)) with 4.
    change (inject_Z 90) with 90. field. }
  destruct (RN_grid 2 (of_int (90 * c) / 360) c c) as [Q1 Q2]; try lia; try lra.
  remember (RN (of_int (90 * c) / 360)) as q eqn:Dq. clear Dq Hx1.
  assert (Hx2 : inject_Z (2 ^ 2) * (q * of_int w) == inject_Z (c * w)).
  { rewrite Ew, inject_Z_mult, Qmult_assoc.
    assert (E : inject_Z (2 ^ 2) * q == inject_Z c) by lra. now rewrite E. }
  destruct (RN_grid 2 (q * of_int w) (c * w) (c * w)) as [V1 V2]; try nia; try lra.
  remember (RN (q * of_int w)) as v eqn:Dv. clear Dv Hx2.
  change (inject_Z (2 ^ 2)) with 4 in V1, V2.
  replace (90 * c * w)%Z with (90 * (c * w))%Z by ring.
  change 360%Z with (90 * 4)%Z. rewrite Z.div_mul_cancel_l by lia.
  assert (Hcw : (0 <= c * w)%Z) by nia.
  remember (c * w)%Z as cw eqn:Dcw. clear Dcw.
  pose proof (Z.mul_div_le cw 4 ltac:(lia)) as D1.
  pose proof (Z.mul_succ_div_gt cw 4 ltac:(lia)) as D2.
  assert (Hn : (0 <= cw / 4)%Z) by (apply Z.div_pos; lia).
  remember (cw / 4)%Z as n eqn:Dn. clear Dn.
  unfold Z.succ in D2. rewrite Zle_Qle in D1. rewrite Zlt_Qlt in D2.
  rewrite inject_Z_mult in D1, D2. rewrite inject_Z_plus in D2.
  change (inject_Z 4) with 4 in D1, D2. change (inject_Z 1) with 1 in D2.
  apply to_int_floor; [exact Hn| |]; lra.
Qed.

(** At pitch 0 the centre row is the floor of h/2. *)
Lemma center_y_level (h : Z) : (0 <= h < 2 ^ 31)%Z -> center_y h 0 = (h / 2)%Z.
Proof.
  intros Hh. unfold center_y, fsub, fmul, int_truediv.
  change (fdiv (of_int 0) 180) with 0.
  destruct (RN_bounds (inject_Z h / inject_Z 2) h h) as [H1 H2]; try lia.
  { change (inject_Z 2) with 2. unfold Qdiv. change (/ 2) with (1 # 2). lra. }
  { change (inject_Z 2) with 2. unfold Qdiv. change (/ 2) with (1 # 2). lra. }
  remember (RN (inject_Z h / inject_Z 2)) as hh eqn:Dhh. clear Dhh.
  assert (M : RN (0 * of_int h) == 0).
  { apply (RN_exact _ 0); [lia|]. change (inject_Z 0) with 0. ring. }
  remember (RN (0 * of_int h)) as m eqn:Dm. clear Dm.
  destruct (RN_bounds (hh - m) h h) as [S1 S2]; try lia; try lra.
  remember (RN (hh - m)) as s eqn:Ds. clear Ds.
  pose proof (Z.mul_div_le h 2 ltac:(lia)) as D1.
  pose proof (Z.mul_succ_div_gt h 2 ltac:(lia)) as D2.
  assert (Hn : (0 <= h / 2)%Z) by (apply Z.div_pos; lia).
  remember (h / 2)%Z as n eqn:Dn. clear Dn.
  unfold Z.succ in D2. rewrite Zle_Qle in D1. rewrite Zlt_Qlt in D2.
  rewrite inject_Z_mult in D1, D2. rewrite inject_Z_plus in D2.
  change (inject_Z 2) with 2 in D1, D2. change (inject_Z 1) with 1 in D2.
  apply to_int_floor; [exact Hn| |]; lra.
Qed.

End QuarterTurns.

(** *** Bounds and branches *)

(** Rational constants in the form [lra] reads: a division by a literal
    becomes a product, an injected literal becomes the literal. *)
Ltac q_consts :=
  unfold Qdiv in *;
  change (inject_Z 2) with 2%Q in *;
  change (inject_Z 1) with 1%Q in *;
  change (inject_Z 0) with 0%Q in *;
  change (inject_Z (-1)) with (- (1))%Q in *;
  change (/ 2)%Q with (1 # 2)%Q in *;
  change (/ 180)%Q with (1 # 180)%Q in *;
  change (/ 360)%Q with (1 # 360)%Q in *.

(** Case analysis on the next integer comparison of the goal. *)
Ltac zcase :=
  match goal with
  | |- context [Z.leb ?a ?b] => destruct (Z.leb_spec a b); cbn [andb orb]; try lia
  | |- context [Z.ltb ?a ?b] => destruct (Z.ltb_spec a b); cbn [andb orb]; try lia
  end.

Section CropFacts.
Import Float64 Float64Facts PIL PILFacts.

Lemma center_x_range (w heading : Z) : 0 < w -> 0 <= center_x w heading < w.
Proof. intros Hw. unfold center_x. apply Z.mod_pos_bound. exact Hw. Qed.

Lemma center_x_0 (w : Z) : center_x w 0 = 0.
Proof.
  unfold center_x.
  rewrite (to_int_exact _ 0); [apply Zmod_0_l|].
  unfold fmul. apply RN_exact; [lia|].
  change (fdiv (of_int 0) 360) with 0%Q. ring.
Qed.

Lemma center_x_360 (w : Z) : 0 <= w < 2 ^ 52 -> center_x w 360 = 0.
Proof.
  intros Hw. unfold center_x.
  rewrite (to_int_exact _ w); [apply Z_mod_same_full|].
  unfold fmul. apply RN_exact; [lia|].
  assert (H1 : (fdiv (of_int 360) 360 == 1)%Q) by (vm_compute; reflexivity).
  rewrite H1, (of_int_exact w) by lia. ring.
Qed.

Lemma crop_w_nonneg (w fov : Z) : 0 <= w -> 0 <= fov -> 0 <= crop_w w fov.
Proof.
  intros Hw Hf. unfold crop_w. apply to_int_nonneg.
  unfold fmul. apply RN_nonneg.
  assert (Hfov : (0 <= of_int fov)%Q).
  { apply RN_nonneg. change 0%Q with (inject_Z 0). now rewrite <- Zle_Qle. }
  assert (Hwf : (0 <= of_int w)%Q).
  { apply RN_nonneg. change 0%Q with (inject_Z 0). now rewrite <- Zle_Qle. }
  assert (Hd : (0 <= fdiv (of_int fov) 360)%Q).
  { apply RN_nonneg. q_consts. lra. }
  apply Qmult_le_0_compat; assumption.
Qed.

(** The value under [int] in [center_y] stays within [0, h]. *)
Lemma center_y_range (h pitch : Z) :
  0 <= h < 2 ^ 31 -> -90 <= pitch <= 90 -> 0 <= center_y h pitch <= h.
Proof.
  intros Hh Hp. unfold center_y.
  assert (Hp1 : (- (90) <= inject_Z pitch)%Q).
  { change 90%Q with (inject_Z 90). rewrite <- inject_Z_opp, <- Zle_Qle. lia. }
  assert (Hp2 : (inject_Z pitch <= 90)%Q).
  { change 90%Q with (inject_Z 90). rewrite <- Zle_Qle. lia. }
  assert (Hhq : (0 <= inject_Z h)%Q)
    by (change 0%Q with (inject_Z 0); rewrite <- Zle_Qle; lia).
  pose proof (of_int_exact pitch ltac:(lia)) as Ep.
  pose proof (of_int_exact h ltac:(lia)) as Eh.
  destruct (RN_bounds (of_int pitch / 180) (-1) 1) as [Q1 Q2]; try lia.
  { rewrite Ep. q_consts. lra. }
  { rewrite Ep. q_consts. lra. }
  fold (fdiv (of_int pitch) 180) in Q1, Q2.
  set (q := fdiv (of_int pitch) 180) in *.
  destruct (RN_bounds (q * of_int h) (- h) h) as [M1 M2]; try lia.
  { rewrite Eh, inject_Z_opp. q_consts. nra. }
  { rewrite Eh. q_consts. nra. }
  fold (fmul q (of_int h)) in M1, M2. rewrite inject_Z_opp in M1.
  set (m := fmul q (of_int h)) in *.
  destruct (RN_bounds (inject_Z h / inject_Z 2) h h) as [H1 H2]; try lia.
  { q_consts. lra. }
  { q_consts. lra. }
  fold (int_truediv h 2) in H1, H2.
  set (hh := int_truediv h 2) in *.
  destruct (RN_bounds (hh - m) 0 (2 * h)) as [S1 S2]; try lia.
  { q_consts. lra. }
  { rewrite inject_Z_mult. q_consts. lra. }
  fold (fsub hh m) in S1, S2.
  rewrite inject_Z_mult in S2. q_consts.
  apply to_int_bounds; q_consts; lra.
Qed.

Lemma center_y_poles (h : Z) :
  0 <= h < 2 ^ 31 -> center_y h 90 = 0 /\ center_y h (-90) = h.
Proof.
  intros Hh. pose proof (of_int_exact h ltac:(lia)) as Eh.
  assert (Hhalf : (int_truediv h 2 == inject_Z h * (1 # 2))%Q).
  { destruct (RN_bounds (inject_Z h / inject_Z 2) h h) as [H1 H2]; try lia.
    - q_consts. lra.
    - q_consts. lra.
    - fold (int_truediv h 2) in H1, H2. lra. }
  assert (Hup : (fdiv (of_int 90) 180 == 1 # 2)%Q) by (vm_compute; reflexivity).
  assert (Hdn : (fdiv (of_int (-90)) 180 == - (1 # 2))%Q) by (vm_compute; reflexivity).
  assert (Mup : (fmul (fdiv (of_int 90) 180) (of_int h) == inject_Z h * (1 # 2))%Q).
  { destruct (RN_bounds (fdiv (of_int 90) 180 * of_int h) h h) as [H1 H2]; try lia.
    - rewrite Hup, Eh. lra.
    - rewrite Hup, Eh. lra.
    - fold (fmul (fdiv (of_int 90) 180) (of_int h)) in H1, H2. lra. }
  assert (Mdn : (fmul (fdiv (of_int (-90)) 180) (of_int h) == - (inject_Z h * (1 # 2)))%Q).
  { destruct (RN_bounds (fdiv (of_int (-90)) 180 * of_int h) (- h) (- h)) as [H1 H2];
      try lia.
    - rewrite Hdn, Eh, inject_Z_opp. lra.
    - rewrite Hdn, Eh, inject_Z_opp. lra.
    - fold (fmul (fdiv (of_int (-90)) 180) (of_int h)) in H1, H2.
      rewrite inject_Z_opp in H1, H2. lra. }
  unfold center_y. split.
  - apply to_int_exact. unfold fsub. apply RN_exact; [lia|].
    rewrite Hhalf, Mup. q_consts. ring.
  - apply to_int_exact. unfold fsub. apply RN_exact; [lia|].
    rewrite Hhalf, Mdn. ring.
Qed.

(** [_crop_panorama] returns an image whenever the panorama has a column,
    the crop width is not negative and the clamped rows are in order. *)
Lemma crop_panorama_ok (img : Image) (heading pitch fov : Z) :
  let w := width img in
  let h := height img in
  let left := crop_left w heading fov in
  let right := crop_right w heading fov in
  let top := crop_top w h pitch fov in
  let bottom := crop_bottom w h pitch fov in
  0 < w -> 0 <= crop_w w fov -> top <= bottom ->
  exists out,
    crop_panorama img heading pitch fov = Ok out
    /\ height out = bottom - top
    /\ width out = if (left <? 0) || (w <? right) then crop_w w fov else right - left.
Proof.
  intros w h left right top bottom Hw Hcw Htb.
  pose proof (center_x_range w heading Hw) as Hcx.
  assert (Hk : 0 <= crop_w w fov / 2) by (apply Z.div_pos; lia).
  assert (Hl : left = center_x w heading - crop_w w fov / 2) by reflexivity.
  assert (Hr : right = center_x w heading + crop_w w fov / 2) by reflexivity.
  unfold crop_panorama. fold w h. destruct (Z.eqb_spec w 0); [lia|].
  fold left right top bottom.
  destruct ((left <? 0) || (w <? right)) eqn:Hwrap.
  - unfold wraparound_compose, wraparound_parts. fold w.
    destruct (Z.ltb_spec left 0).
    + rewrite !crop_ok by lia. cbn [rbind]. rewrite new_ok by lia. cbn [rbind].
      eexists. split; [reflexivity|]. split; reflexivity.
    + rewrite !crop_ok by (destruct (Z.ltb_spec w right); [lia|discriminate]).
      cbn [rbind]. rewrite new_ok by lia. cbn [rbind].
      eexists. split; [reflexivity|]. split; reflexivity.
  - unfold direct_crop. rewrite crop_ok by lia.
    eexists. split; [reflexivity|]. split; reflexivity.
Qed.

(** Pixels of the composed image when the crop starts left of the seam:
    first the columns up to the right edge of the panorama, then the
    columns from its left edge, then black. *)
Lemma wraparound_left_pixels (img : Image) (left right top bottom cw : Z) (out : Image) :
  left < 0 -> 0 <= right ->
  wraparound_compose img left right top bottom cw = Ok out ->
  forall i j, 0 <= i < cw -> 0 <= j < bottom - top ->
    getpixel out i j =
      if i <? - left then getpixel img (width img + left + i) (top + j)
      else if i <? - left + right then getpixel img (i + left) (top + j)
      else black.
Proof.
  intros Hl Hr. unfold wraparound_compose, wraparound_parts.
  destruct (Z.ltb_spec left 0); [|lia].
  unfold crop at 1.
  destruct (Z.ltb_spec (width img) (width img + left)); [lia|].
  destruct (Z.ltb_spec bottom top); [discriminate|].
  rewrite crop_ok by lia. cbn [rbind].
  unfold new. destruct ((cw <? 0) || (bottom - top <? 0)); [discriminate|].
  cbn [rbind]. intros [= <-] i j Hi Hj.
  rewrite getpixel_build by lia. repeat zcase.
  all: rewrite ?getpixel_build by lia; repeat zcase.
  all: rewrite ?getpixel_build by lia; repeat zcase.
  all: try reflexivity; f_equal; lia.
Qed.

(** On a box that ends exactly at the right edge, the composed image is
    the direct crop when the canvas has the width of the box. *)
Lemma wraparound_at_seam (img : Image) (left top bottom : Z) :
  0 <= left <= width img ->
  wraparound_compose img left (width img) top bottom (width img - left)
  = direct_crop img left (width img) top bottom.
Proof.
  intros Hl. unfold wraparound_compose, wraparound_parts, direct_crop.
  destruct (Z.ltb_spec left 0); [lia|].
  destruct (Z.lt_ge_cases bottom top) as [Hbt|Hbt].
  - unfold crop. destruct (Z.ltb_spec (width img) left); [lia|].
    destruct (Z.ltb_spec bottom top); [reflexivity|lia].
  - rewrite Z.sub_diag, !crop_ok by lia. cbn [rbind].
    rewrite new_ok by lia. cbn [rbind]. f_equal.
    unfold paste. cbn [width height build].
    apply build_ext. intros x y Hx Hy. repeat zcase.
    all: rewrite ?getpixel_build by lia; repeat zcase.
    all: rewrite ?getpixel_build by lia; repeat zcase.
    all: try reflexivity; f_equal; lia.
Qed.

End CropFacts.

(* ================================================================== *)
(** * Part III: the properties of the crop                             *)
(* ================================================================== *)

Section CropProperties.
Import Float64 Float64Facts PIL PILFacts.

Lemma to_int_truncates (x : Q) :
  ((0 <= x -> inject_Z (to_int x) <= x /\ x < inject_Z (to_int x) + 1)
   /\ (x <= 0 -> x <= inject_Z (to_int x) /\ inject_Z (to_int x) - 1 < x))%Q.
Proof.
  unfold to_int. split; intros Hx.
  - apply Qle_bool_iff in Hx. rewrite Hx. split; [apply Qfloor_le|].
    pose proof (Qlt_floor x) as H. rewrite inject_Z_plus in H. exact H.
  - destruct (Qle_bool 0 x) eqn:Hb.
    + apply Qle_bool_iff in Hb. assert (Hx0 : (x == 0)%Q) by lra.
      rewrite (Qfloor_comp _ _ Hx0). change (Qfloor 0) with 0%Z.
      change (inject_Z 0) with 0%Q. lra.
    + split; [apply Qle_ceiling|].
      pose proof (Qceiling_lt x) as H.
      unfold Z.sub in H. rewrite inject_Z_plus in H. exact H.
Qed.

(** C3, counterexample: on a 4096 x 2048 panorama, heading 2, pitch 1 and
    fov 100 give center_x = 22, center_y = 1012 and crop_w = 1137, while
    the formulas with [round] give 23, 1013 and 1138. *)
Lemma crop_geometry_is_not_rounded :
  center_x 4096 2 <> spec_center_x 4096 2
  /\ center_y 2048 1 <> spec_center_y 2048 1
  /\ crop_w 4096 100 <> spec_crop_w 4096 100.
Proof. vm_compute. repeat split; discriminate. Qed.

(** C3, amended: for every image of width w > 0 and height h (sides
    below 2^31) and every heading, pitch and fov, center_x is
    int((heading/360.0)*w) mod w and lies in [0, w), center_y is
    int(h/2 - (pitch/180.0)*h), and crop_w = crop_h is
    int((fov/360.0)*w), where int drops the fractional part of the
    binary64 value (truncation toward zero) instead of rounding it.  In
    exact arithmetic: for 0 <= heading < 2^16, center_x is
    floor(heading*w/360) mod w whenever heading*w/360 is not an integer
    or heading is a multiple of 90; likewise crop_w is floor(fov*w/360),
    and for pitch in [-90, 90] center_y is floor(h*(90-pitch)/180)
    whenever that quotient is not an integer or pitch is -90, 0 or 90. *)
Theorem crop_geometry_truncates (w h heading pitch fov : Z) :
  0 < w < 2 ^ 31 -> 0 <= h < 2 ^ 31 ->
  let vx := fmul (fdiv (of_int heading) 360) (of_int w) in
  let vy := fsub (int_truediv h 2) (fmul (fdiv (of_int pitch) 180) (of_int h)) in
  let vw := fmul (fdiv (of_int fov) 360) (of_int w) in
  center_x w heading = to_int vx mod w
  /\ 0 <= center_x w heading < w
  /\ center_y h pitch = to_int vy
  /\ crop_w w fov = to_int vw
  /\ crop_h w fov = crop_w w fov
  /\ (forall v : Q,
        ((0 <= v -> inject_Z (to_int v) <= v /\ v < inject_Z (to_int v) + 1)
         /\ (v <= 0 -> v <= inject_Z (to_int v) /\ inject_Z (to_int v) - 1 < v))%Q)
  /\ (0 <= heading < 2 ^ 16 -> (heading * w) mod 360 <> 0 \/ heading mod 90 = 0 ->
      center_x w heading = (heading * w / 360) mod w)
  /\ (-90 <= pitch <= 90 -> (h * (90 - pitch)) mod 180 <> 0 \/ pitch mod 90 = 0 ->
      center_y h pitch = h * (90 - pitch) / 180)
  /\ (0 <= fov < 2 ^ 16 -> (fov * w) mod 360 <> 0 \/ fov mod 90 = 0 ->
      crop_w w fov = fov * w / 360).
Proof.
  intros Hw Hh vx vy vw.
  assert (Hscale : forall a, 0 <= a < 2 ^ 16 -> (a * w) mod 360 <> 0 \/ a mod 90 = 0 ->
            to_int (fmul (fdiv (of_int a) 360) (of_int w)) = a * w / 360).
  { intros a Ha [Hr|Hq].
    - apply (scale_floor a 360 w); lia.
    - pose proof (Z.div_mod a 90 ltac:(lia)) as Hdm. rewrite Hq, Z.add_0_r in Hdm.
      rewrite Hdm. apply scale_quarters; [|lia].
      split; [apply Z.div_pos; lia|apply Z.div_lt_upper_bound; lia]. }
  split; [reflexivity|]. split; [apply center_x_range; lia|].
  split; [reflexivity|]. split; [reflexivity|]. split; [reflexivity|].
  split; [exact to_int_truncates|]. split; [|split].
  - intros Ha Hcase. unfold center_x. now rewrite Hscale.
  - intros Hp [Hr|Hq]; [now apply center_y_floor|].
    assert (Hcases : pitch = -90 \/ pitch = 0 \/ pitch = 90).
    { pose proof (Z.div_mod pitch 90 ltac:(lia)) as Hdm. rewrite Hq, Z.add_0_r in Hdm.
      assert (-1 <= pitch / 90 <= 1) by lia. lia. }
    destruct (center_y_poles h Hh) as [Hup Hdown].
    destruct Hcases as [-> | [-> | ->]].
    + rewrite Hdown. change (90 - -90) with 180. now rewrite Z.div_mul.
    + rewrite center_y_level by exact Hh. change (90 - 0) with (90 * 1).
      rewrite (Z.mul_comm 90 1), Z.mul_assoc. change 180 with (2 * 90).
      rewrite Z.div_mul_cancel_r by lia. now rewrite Z.mul_1_r.
    + rewrite Hup. change (90 - 90) with 0. now rewrite Z.mul_0_r.
  - intros Ha Hcase. unfold crop_w. now apply Hscale.
Qed.

Lemma crop_geometry_truncates_witness :
  center_x 4096 2 = 22 /\ center_y 2048 1 = 1012 /\ crop_w 4096 100 = 1137
  /\ crop_h 4096 100 = 1137 /\ center_x 4096 270 = 3072.
Proof.
  destruct (crop_geometry_truncates 4096 2048 2 1 100 ltac:(lia) ltac:(lia))
    as (_ & _ & _ & _ & Hch & _ & Hx & Hy & Hcw).
  destruct (crop_geometry_truncates 4096 2048 270 0 90 ltac:(lia) ltac:(lia))
    as (_ & _ & _ & _ & _ & _ & Hx' & _).
  rewrite Hch, Hcw by (try lia; left; discriminate).
  rewrite Hx by (try lia; left; discriminate).
  rewrite Hy by (try lia; left; discriminate).
  rewrite Hx' by (try lia; right; reflexivity).
  repeat split; reflexivity.
Defined.

(** Why the floor form needs its side condition: 49 * 360 / 360 is
    exactly 49, but [49 / 360.0] is rounded down and the product with 360
    stays below 49, so [int] gives 48 (and 97 instead of 98 at width
    720). *)
Example exact_quotient_truncates_below :
  crop_w 360 49 = 48 /\ center_x 360 49 = 48 /\ crop_w 720 49 = 97.
Proof. vm_compute. repeat split; reflexivity. Qed.

(** C4, counterexample: on the 16 x 8 sample panorama, fov 60 gives
    round((60/360)*16) = 3, yet the crop at heading 180 (direct branch)
    is 2 columns wide and at heading 0 (wraparound branch) the two
    sub-crops are 1 + 1 = 2 columns wide; fov 70 gives crop_w = 3 with
    either formula, and the crop at heading 180 is again 2 columns
    wide. *)
Lemma crop_width_is_not_the_rounded_width :
  (spec_crop_w 16 60 = 3
   /\ (exists out, crop_panorama pano16 180 0 60 = Ok out /\ width out = 2)
   /\ (exists left_part right_part,
         wraparound_parts pano16 (crop_left 16 0 60) (crop_right 16 0 60)
           (crop_top 16 8 0 60) (crop_bottom 16 8 0 60) = Ok (left_part, right_part)
         /\ width left_part + width right_part = 2))
  /\ (spec_crop_w 16 70 = 3 /\ crop_w 16 70 = 3
      /\ exists out, crop_panorama pano16 180 0 70 = Ok out /\ width out = 2).
Proof.
  split; [split; [|split]|split; [|split]]; try (vm_compute; reflexivity).
  - eexists. split; vm_compute; reflexivity.
  - eexists. eexists. split; vm_compute; reflexivity.
  - eexists. split; vm_compute; reflexivity.
Qed.

(** The crop at an odd crop width, evaluated: on the 16 x 8 sample
    panorama with fov 70 the crop width is 3.  At heading 180 (direct
    branch) the output is 2 columns wide; at heading 0 (wraparound
    branch) the output is 3 wide, the two sub-crops cover 2 columns and
    the third stays black.  The height is bottom - top = 2 in both. *)
Example odd_crop_width_loses_a_column :
  crop_w 16 70 = 3
  /\ crop_bottom 16 8 0 70 - crop_top 16 8 0 70 = 2
  /\ crop_panorama pano16 180 0 70
     = Ok (mkImage 2 2 [[(7, 3, 0); (8, 3, 0)]; [(7, 4, 0); (8, 4, 0)]])
  /\ crop_panorama pano16 0 0 70
     = Ok (mkImage 3 2 [[(15, 3, 0); (0, 3, 0); black]; [(15, 4, 0); (0, 4, 0); black]]).
Proof. vm_compute. repeat split; reflexivity. Qed.

(** C4, amended: every crop the algorithm produces has height exactly
    bottom - top; when crop_w = int((fov/360.0)*w) is even, the output
    has width exactly crop_w in the wraparound branch as in the direct
    branch, and in the wraparound branch the widths of the two sub-crops
    add up to crop_w. *)
Theorem crop_output_size (img : Image) (heading pitch fov : Z) (out : Image) :
  crop_panorama img heading pitch fov = Ok out ->
  let w := width img in
  let h := height img in
  let left := crop_left w heading fov in
  let right := crop_right w heading fov in
  let top := crop_top w h pitch fov in
  let bottom := crop_bottom w h pitch fov in
  height out = bottom - top
  /\ (Z.even (crop_w w fov) = true ->
      width out = crop_w w fov
      /\ ((left <? 0) || (w <? right) = true ->
          exists left_part right_part,
            wraparound_parts img left right top bottom = Ok (left_part, right_part)
            /\ width left_part + width right_part = crop_w w fov)).
Proof.
  intros Hout w h left right top bottom.
  assert (Hspan : Z.even (crop_w w fov) = true -> right - left = crop_w w fov).
  { intros Heven. apply Z.even_spec in Heven. destruct Heven as [c Hc].
    assert (Hk : crop_w w fov / 2 = c) by (rewrite Hc, Z.mul_comm; apply Z.div_mul; lia).
    unfold left, right, crop_left, crop_right. lia. }
  unfold crop_panorama in Hout. fold w h left right top bottom in Hout.
  destruct (Z.eqb_spec w 0); [discriminate|].
  destruct ((left <? 0) || (w <? right)) eqn:Hwrap.
  - unfold wraparound_compose in Hout.
    destruct (wraparound_parts img left right top bottom) as [[lp rp]|e] eqn:Hparts;
      [|discriminate]. cbn [rbind] in Hout.
    unfold new in Hout.
    destruct ((crop_w w fov <? 0) || (bottom - top <? 0)); [discriminate|].
    cbn [rbind] in Hout. injection Hout as <-. split; [reflexivity|].
    intros Heven. split; [reflexivity|]. intros _. exists lp, rp. split; [reflexivity|].
    rewrite <- (Hspan Heven). revert Hparts. unfold wraparound_parts, crop. fold w.
    destruct (left <? 0).
    + destruct (w <? w + left); [discriminate|]. destruct (bottom <? top); [discriminate|].
      cbn [rbind]. destruct (right <? 0); [discriminate|].
      cbn [rbind]. intros [= <- <-]. cbn [width build]. lia.
    + destruct (w <? left); [discriminate|]. destruct (bottom <? top); [discriminate|].
      cbn [rbind]. destruct (right - w <? 0); [discriminate|].
      cbn [rbind]. intros [= <- <-]. cbn [width build]. lia.
  - unfold direct_crop, crop in Hout.
    destruct (right <? left); [discriminate|]. destruct (bottom <? top); [discriminate|].
    injection Hout as <-. split; [reflexivity|].
    intros Heven. split; [exact (Hspan Heven)|]. discriminate.
Qed.

Lemma crop_output_size_witness :
  exists out,
    crop_panorama pano16 0 0 90 = Ok out /\ width out = 4 /\ height out = 4
    /\ exists left_part right_part,
         wraparound_parts pano16 (-2) 2 2 6 = Ok (left_part, right_part)
         /\ width left_part + width right_part = 4.
Proof.
  destruct (crop_panorama pano16 0 0 90) as [out|e] eqn:Hout;
    [|vm_compute in Hout; discriminate Hout].
  destruct (crop_output_size pano16 0 0 90 out Hout) as (Hh & Hw).
  destruct (Hw ltac:(vm_compute; reflexivity)) as (Hwidth & Hparts).
  destruct (Hparts ltac:(vm_compute; reflexivity)) as (lp & rp & Hlr & Hsum).
  exists out. split; [reflexivity|]. split; [rewrite Hwidth; vm_compute; reflexivity|].
  split; [rewrite Hh; vm_compute; reflexivity|].
  exists lp, rp. split; [exact Hlr|]. rewrite Hsum. vm_compute. reflexivity.
Defined.

(** C5: for every panorama, pitch and fov, heading 0 and heading 360 have
    the same center x-coordinate 0 and give the same output; when the
    crop is at least 2 columns wide both run the wraparound procedure on
    the box from -crop_w//2 to crop_w//2, whose output shows first the
    columns at the right edge of the panorama and then the columns at its
    left edge. *)
Theorem heading_0_and_360_agree (img : Image) (pitch fov : Z) :
  panorama_size img ->
  let w := width img in
  let k := crop_w w fov / 2 in
  let top := crop_top w (height img) pitch fov in
  let bottom := crop_bottom w (height img) pitch fov in
  center_x w 0 = 0 /\ center_x w 360 = 0
  /\ crop_panorama img 0 pitch fov = crop_panorama img 360 pitch fov
  /\ (2 <= crop_w w fov ->
      crop_panorama img 0 pitch fov
      = wraparound_compose img (- k) k top bottom (crop_w w fov)
      /\ crop_panorama img 360 pitch fov
         = wraparound_compose img (- k) k top bottom (crop_w w fov)
      /\ forall out, crop_panorama img 0 pitch fov = Ok out ->
           forall i j, 0 <= i < 2 * k -> 0 <= j < bottom - top ->
             getpixel out i j =
               if i <? k then getpixel img (w - k + i) (top + j)
               else getpixel img (i - k) (top + j)).
Proof.
  intros [Hw Hh] w k top bottom.
  pose proof (center_x_0 w) as H0.
  pose proof (center_x_360 w ltac:(unfold w; lia)) as H360.
  assert (Hsame : crop_panorama img 0 pitch fov = crop_panorama img 360 pitch fov).
  { unfold crop_panorama, crop_left, crop_right. fold w. now rewrite H0, H360. }
  split; [exact H0|]. split; [exact H360|]. split; [exact Hsame|].
  intros Hcw.
  assert (Hk : 1 <= k) by (unfold k; apply Z.div_le_lower_bound; lia).
  assert (Hwrap : crop_panorama img 0 pitch fov
                  = wraparound_compose img (- k) k top bottom (crop_w w fov)).
  { unfold crop_panorama, crop_left, crop_right. fold w. rewrite H0.
    destruct (Z.eqb_spec w 0); [unfold w in *; lia|].
    fold k. replace (0 - k) with (- k) by lia. rewrite Z.add_0_l.
    destruct (Z.ltb_spec (- k) 0); [reflexivity|lia]. }
  split; [exact Hwrap|]. split; [now rewrite <- Hsame|].
  intros out Hout i j Hi Hj. rewrite Hwrap in Hout.
  assert (Hi' : 0 <= i < crop_w w fov).
  { pose proof (Z.mul_div_le (crop_w w fov) 2 ltac:(lia)). fold k in H. lia. }
  rewrite (wraparound_left_pixels img (- k) k top bottom _ out ltac:(lia) ltac:(lia)
             Hout i j Hi' Hj).
  rewrite Z.opp_involutive. fold w.
  destruct (Z.ltb_spec i k).
  - f_equal; lia.
  - destruct (Z.ltb_spec i (k + k)); [f_equal; lia|lia].
Qed.

Lemma heading_0_and_360_agree_witness :
  crop_panorama pano16 0 0 90 = crop_panorama pano16 360 0 90
  /\ crop_panorama pano16 0 0 90
     = Ok (mkImage 4 4 [[(14, 2, 0); (15, 2, 0); (0, 2, 0); (1, 2, 0)];
                        [(14, 3, 0); (15, 3, 0); (0, 3, 0); (1, 3, 0)];
                        [(14, 4, 0); (15, 4, 0); (0, 4, 0); (1, 4, 0)];
                        [(14, 5, 0); (15, 5, 0); (0, 5, 0); (1, 5, 0)]])
  /\ forall out, crop_panorama pano16 0 0 90 = Ok out ->
       getpixel out 1 0 = (15, 2, 0) /\ getpixel out 2 0 = (0, 2, 0).
Proof.
  assert (Hsize : panorama_size pano16) by (unfold panorama_size; cbn; lia).
  destruct (heading_0_and_360_agree pano16 0 90 Hsize) as (_ & _ & Hsame & Hwrap).
  split; [exact Hsame|]. split; [vm_compute; reflexivity|].
  destruct (Hwrap ltac:(vm_compute; discriminate)) as (_ & _ & Hpixels).
  intros out Hout. split.
  - rewrite (Hpixels out Hout 1 0) by (vm_compute; split; congruence).
    vm_compute. reflexivity.
  - rewrite (Hpixels out Hout 2 0) by (vm_compute; split; congruence).
    vm_compute. reflexivity.
Defined.

(** The conditions of the claim with exact halves imply those of the
    code, whose halves are floors. *)
Lemma exact_halves_inside (cx cw w : Z) :
  0 <= 2 * cx - cw -> 2 * cx + cw <= 2 * w -> 0 <= cx - cw / 2 /\ cx + cw / 2 <= w.
Proof.
  intros H1 H2. pose proof (Z.mul_div_le cw 2 ltac:(lia)) as Hk. lia.
Qed.

(** C6: for every heading and fov whose box lies inside the image, left >= 0
    and right <= w (which center_x - crop_w/2 >= 0 and
    center_x + crop_w/2 <= w imply, read with exact halves as with the
    floor halves of the code), the crop algorithm, with its wraparound
    code path, gives what the direct single crop of
    (left, top, right, bottom) gives: the same image, or the same
    exception.  When it is an image, it is right - left wide and
    bottom - top high and its pixel (i, j) is pixel (left + i, top + j)
    of the panorama. *)
Theorem no_wrap_crop_is_direct (img : Image) (heading pitch fov : Z) :
  let w := width img in
  let h := height img in
  let left := crop_left w heading fov in
  let right := crop_right w heading fov in
  let top := crop_top w h pitch fov in
  let bottom := crop_bottom w h pitch fov in
  0 < w ->
  (0 <= 2 * center_x w heading - crop_w w fov ->
   2 * center_x w heading + crop_w w fov <= 2 * w ->
   0 <= left /\ right <= w)
  /\ (0 <= left -> right <= w ->
      crop_panorama img heading pitch fov = direct_crop img left right top bottom
      /\ forall out, crop_panorama img heading pitch fov = Ok out ->
           width out = right - left /\ height out = bottom - top
           /\ forall i j, 0 <= i < right - left -> 0 <= j < bottom - top ->
                getpixel out i j = getpixel img (left + i) (top + j)).
Proof.
  intros w h left right top bottom Hw. split.
  - intros H1 H2. unfold left, right, crop_left, crop_right.
    now apply exact_halves_inside.
  - intros Hl Hr.
    assert (Hdirect : crop_panorama img heading pitch fov
                      = direct_crop img left right top bottom).
    { unfold crop_panorama. fold w h left right top bottom.
      destruct (Z.eqb_spec w 0); [lia|].
      destruct (Z.ltb_spec left 0); [lia|]. destruct (Z.ltb_spec w right); [lia|].
      reflexivity. }
    split; [exact Hdirect|]. intros out. rewrite Hdirect. unfold direct_crop, crop.
    destruct (Z.ltb_spec right left); [discriminate|].
    destruct (Z.ltb_spec bottom top); [discriminate|].
    intros [= <-]. cbn [width height build].
    split; [reflexivity|]. split; [reflexivity|].
    intros i j Hi Hj. now rewrite getpixel_build.
Qed.

Lemma no_wrap_crop_is_direct_witness :
  crop_panorama pano16 180 0 90 = direct_crop pano16 6 10 2 6
  /\ crop_panorama pano16 180 0 90
     = Ok (mkImage 4 4 [[(6, 2, 0); (7, 2, 0); (8, 2, 0); (9, 2, 0)];
                        [(6, 3, 0); (7, 3, 0); (8, 3, 0); (9, 3, 0)];
                        [(6, 4, 0); (7, 4, 0); (8, 4, 0); (9, 4, 0)];
                        [(6, 5, 0); (7, 5, 0); (8, 5, 0); (9, 5, 0)]])
  /\ forall out, crop_panorama pano16 180 0 90 = Ok out -> getpixel out 3 0 = (9, 2, 0).
Proof.
  destruct (no_wrap_crop_is_direct pano16 180 0 90 ltac:(vm_compute; reflexivity))
    as [Hinside Hcrop].
  destruct (Hinside ltac:(vm_compute; discriminate) ltac:(vm_compute; discriminate))
    as [Hl Hr].
  destruct (Hcrop Hl Hr) as [Hd Hpix].
  split; [exact Hd|]. split; [vm_compute; reflexivity|].
  intros out Hout. destruct (Hpix out Hout) as (_ & _ & Hp).
  rewrite (Hp 3 0) by (vm_compute; split; congruence). vm_compute. reflexivity.
Defined.

(** C7: for every panorama, heading, fov >= 0 and pitch in [-90, 90], the
    rows of the crop satisfy 0 <= top <= bottom <= h, the crop returns an
    image, and its height is bottom - top; at the poles (pitch 90 or -90)
    that height is at most crop_w // 2, so it is smaller than crop_w as
    soon as crop_w is positive. *)
Theorem crop_rows_are_clamped (img : Image) (heading pitch fov : Z) :
  panorama_size img -> -90 <= pitch <= 90 -> 0 <= fov ->
  let w := width img in
  let h := height img in
  let top := crop_top w h pitch fov in
  let bottom := crop_bottom w h pitch fov in
  0 <= top <= bottom /\ bottom <= h
  /\ (exists out, crop_panorama img heading pitch fov = Ok out
                  /\ height out = bottom - top)
  /\ (pitch = 90 \/ pitch = -90 -> bottom - top <= crop_w w fov / 2).
Proof.
  intros [Hw Hh] Hp Hfov w h top bottom.
  pose proof (crop_w_nonneg w fov ltac:(unfold w; lia) Hfov) as Hcw.
  assert (Hk : 0 <= crop_w w fov / 2) by (apply Z.div_pos; lia).
  pose proof (center_y_range h pitch Hh Hp) as Hcy.
  assert (Htop : top = Z.max 0 (center_y h pitch - crop_w w fov / 2)) by reflexivity.
  assert (Hbot : bottom = Z.min h (center_y h pitch + crop_w w fov / 2)) by reflexivity.
  assert (Hrows : 0 <= top <= bottom /\ bottom <= h) by (fold h in Hh; lia).
  split; [apply Hrows|]. split; [apply Hrows|]. split.
  - destruct (crop_panorama_ok img heading pitch fov) as (out & Hout & Hheight & _);
      [unfold w in *; lia | exact Hcw | apply Hrows |].
    exists out. split; [exact Hout|exact Hheight].
  - destruct (center_y_poles h Hh) as [Hup Hdown].
    intros [-> | ->]; [rewrite Hup in *|rewrite Hdown in *]; fold h in Hh; lia.
Qed.

Lemma crop_rows_are_clamped_witness :
  crop_top 16 8 90 90 = 0 /\ crop_bottom 16 8 90 90 = 2 /\ crop_w 16 90 = 4
  /\ (exists out, crop_panorama pano16 0 90 90 = Ok out /\ height out = 2)
  /\ crop_bottom 16 8 90 90 - crop_top 16 8 90 90 <= 2.
Proof.
  assert (Hsize : panorama_size pano16) by (unfold panorama_size; cbn; lia).
  destruct (crop_rows_are_clamped pano16 0 90 90 Hsize ltac:(lia) ltac:(lia))
    as (_ & _ & (out & Hout & Hheight) & Hpole).
  split; [vm_compute; reflexivity|]. split; [vm_compute; reflexivity|].
  split; [vm_compute; reflexivity|]. split.
  - exists out. split; [exact Hout|]. rewrite Hheight. vm_compute. reflexivity.
  - exact (Hpole (or_introl eq_refl)).
Defined.

End CropProperties.

(* ================================================================== *)
(** * Part IV: loops, the client and the batch layer                   *)
(* ================================================================== *)

(** ** Loops *)

Section LoopFacts.
Context {A B : Type}.
Variable body : A -> M (list B).

(** The accumulator only collects: a loop started on [acc] is the loop
    started on the empty list, with [acc] in front. *)
Lemma for_each_acc (items : list A) (acc : list B) (w : world) :
  for_each body items acc w =
    match for_each body items [] w with
    | (w', Ok rs) => (w', Ok (acc ++ rs))
    | (w', Raise e) => (w', Raise e)
    end.
Proof.
  revert acc w. induction items as [|item rest IH]; intros acc w.
  - cbn. now rewrite app_nil_r.
  - cbn [for_each]. unfold bind.
    destruct (body item w) as [w1 [rs|e]]; [|reflexivity].
    rewrite (IH (acc ++ rs)), (IH ([] ++ rs)).
    destruct (for_each body rest [] w1) as [w2 [rs'|e]]; [|reflexivity].
    now rewrite app_nil_l, app_assoc.
Qed.

Lemma for_each_cons (item : A) (rest : list A) (w : world) :
  for_each body (item :: rest) [] w =
    match body item w with
    | (w1, Ok rs) =>
        match for_each body rest [] w1 with
        | (w2, Ok rs') => (w2, Ok (rs ++ rs'))
        | (w2, Raise e) => (w2, Raise e)
        end
    | (w1, Raise e) => (w1, Raise e)
    end.
Proof.
  cbn [for_each]. unfold bind.
  destruct (body item w) as [w1 [rs|e]]; [|reflexivity].
  rewrite for_each_acc. now rewrite app_nil_l.
Qed.

Lemma for_each_app (xs ys : list A) (w : world) :
  for_each body (xs ++ ys) [] w =
    match for_each body xs [] w with
    | (w1, Ok rs) =>
        match for_each body ys [] w1 with
        | (w2, Ok rs') => (w2, Ok (rs ++ rs'))
        | (w2, Raise e) => (w2, Raise e)
        end
    | (w1, Raise e) => (w1, Raise e)
    end.
Proof.
  revert w. induction xs as [|x xs IH]; intros w.
  - cbn [app for_each ret]. destruct (for_each body ys [] w) as [w2 [rs|e]]; reflexivity.
  - rewrite <- app_comm_cons, !for_each_cons.
    destruct (body x w) as [w1 [rs|e]]; [|reflexivity].
    rewrite IH. destruct (for_each body xs [] w1) as [w2 [rs1|e]]; [|reflexivity].
    destruct (for_each body ys [] w2) as [w3 [rs2|e]]; [|reflexivity].
    now rewrite app_assoc.
Qed.

(** A loop whose body never raises returns. *)
Lemma for_each_total (items : list A) (w : world) :
  (forall item w0, exists w1 rs, body item w0 = (w1, Ok rs)) ->
  exists w' rs, for_each body items [] w = (w', Ok rs).
Proof.
  intros Hbody. revert w. induction items as [|item rest IH]; intros w.
  - cbn. eauto.
  - rewrite for_each_cons. destruct (Hbody item w) as (w1 & rs & ->).
    destruct (IH w1) as (w2 & rs' & ->). eauto.
Qed.

End LoopFacts.

(** ** The coverage client and the coverage batch *)

Section CoverageFacts.
Variable env : environment.

Lemma check_coverage_reply (client : StreetViewClient) (lat lon : Q) (w : world) :
  check_coverage env client lat lon w =
    (mkWorld (files w) (trace w ++ [HttpGet (MetadataRequest lat lon (api_key client))]),
     match requests_get env (trace w) (MetadataRequest lat lon (api_key client)) with
     | Failed msg => Raise (Exn RequestException msg)
     | Replied response =>
         rbind (raise_for_status response) (fun _ =>
         rbind (json response) (fun data =>
         rbind (get_method data) (fun data =>
         let status := dict_get_default data "status" (PyStr "UNKNOWN") in
         Ok (mkCoverageResult lat lon (py_eq_str status "OK")
               (dict_get data "pano_id") (dict_get data "date") status))))
     end).
Proof.
  unfold check_coverage, bind, http_get, lift, ret.
  destruct (requests_get env (trace w) _) as [msg|response]; [reflexivity|].
  destruct (raise_for_status response); [|reflexivity].
  destruct (json response) as [data|e]; [|reflexivity].
  cbn [rbind]. destruct (get_method data); reflexivity.
Qed.

(** A status outside 400..599 passes [raise_for_status]. *)
Lemma raise_for_status_ok (response : Response) :
  ~ 400 <= status_code response < 600 -> raise_for_status response = Ok tt.
Proof.
  intros Hcode. unfold raise_for_status.
  destruct (Z.leb_spec 400 (status_code response)), (Z.ltb_spec (status_code response) 500),
    (Z.leb_spec 500 (status_code response)), (Z.ltb_spec (status_code response) 600);
    cbn [andb]; try reflexivity; lia.
Qed.

(** A status in 400..599 makes it raise a [RequestException]. *)
Lemma raise_for_status_raises (response : Response) :
  400 <= status_code response < 600 ->
  exists msg, raise_for_status response = Raise (Exn RequestException msg).
Proof.
  intros Hcode. unfold raise_for_status.
  destruct (Z.leb_spec 400 (status_code response)), (Z.ltb_spec (status_code response) 500),
    (Z.leb_spec 500 (status_code response)), (Z.ltb_spec (status_code response) 600);
    cbn [andb]; eauto; lia.
Qed.

Lemma py_eq_str_true (v : pyval) (s : string) : py_eq_str v s = true <-> v = PyStr s.
Proof.
  destruct v; cbn; try (split; [discriminate|discriminate]).
  rewrite bool_decide_eq_true. split; [now intros ->|now intros [= ->]].
Qed.

(** C8: on a 2xx metadata response whose body is a JSON object,
    [check_coverage] returns a result and raises nothing; [has_coverage]
    is true if and only if the status is the string OK; the status of the
    result is the status field of the body (UNKNOWN when absent), so any
    other status, such as ZERO_RESULTS, is kept and gives
    [has_coverage = false]. *)
Theorem check_coverage_reads_status (client : StreetViewClient) (lat lon : Q)
    (w : world) (response : Response) (data : gmap string pyval) :
  requests_get env (trace w) (MetadataRequest lat lon (api_key client)) = Replied response ->
  200 <= status_code response < 300 ->
  content response = JsonObject data ->
  exists r,
    snd (check_coverage env client lat lon w) = Ok r
    /\ status r = dict_get_default data "status" (PyStr "UNKNOWN")
    /\ (has_coverage r = true <-> status r = PyStr "OK")
    /\ (forall s, data !! "status" = Some (PyStr s) -> s <> "OK" ->
        has_coverage r = false /\ status r = PyStr s)
    /\ cr_lat r = lat /\ cr_lon r = lon.
Proof.
  intros Hreply Hcode Hbody. rewrite check_coverage_reply, Hreply. cbn [snd].
  rewrite raise_for_status_ok by lia.
  cbn [rbind]. unfold json. rewrite Hbody. cbn [rbind get_method].
  eexists. split; [reflexivity|]. cbn [status has_coverage cr_lat cr_lon].
  split; [reflexivity|]. split; [apply py_eq_str_true|].
  split; [|split; reflexivity].
  intros s Hs Hne. unfold dict_get_default. rewrite Hs. cbn [default py_eq_str].
  split; [|reflexivity]. now apply bool_decide_eq_false.
Qed.

End CoverageFacts.

Lemma check_coverage_reads_status_witness :
  (exists r,
     snd (check_coverage flaky_service sample_client 19 72 empty_world) = Ok r
     /\ has_coverage r = true /\ status r = PyStr "OK")
  /\ (exists r,
        snd (check_coverage flaky_service sample_client 5 72 empty_world) = Ok r
        /\ has_coverage r = false /\ status r = PyStr "ZERO_RESULTS").
Proof.
  split.
  - destruct (check_coverage_reads_status flaky_service sample_client 19 72 empty_world
                (json_response metadata_ok) metadata_ok)
      as (r & Hr & Hs & Hc & _); [reflexivity | cbn; lia | reflexivity |].
    exists r. split; [exact Hr|].
    assert (Hst : status r = PyStr "OK") by (rewrite Hs; vm_compute; reflexivity).
    split; [now apply Hc|exact Hst].
  - destruct (check_coverage_reads_status flaky_service sample_client 5 72 empty_world
                (json_response metadata_zero_results) metadata_zero_results)
      as (r & Hr & _ & _ & Hother & _); [reflexivity | cbn; lia | reflexivity |].
    exists r. split; [exact Hr|].
    apply (Hother "ZERO_RESULTS"); [vm_compute; reflexivity|discriminate].
Defined.

Example zero_results_is_not_an_error :
  snd (check_coverage flaky_service sample_client 5 72 empty_world)
  = Ok (mkCoverageResult 5 72 false PyNone PyNone (PyStr "ZERO_RESULTS")).
Proof. vm_compute. reflexivity. Qed.

(** C1, counterexample: a batch of three locations whose second check
    times out.  The batch returns no records at all: the exception leaves
    [check_coverage_batch], and the third location is never requested. *)
Lemma coverage_batch_aborts_on_timeout :
  check_coverage_batch flaky_service three_locations None (Some "key") (1 # 10) empty_world
  = (mkWorld ∅ [HttpGet (MetadataRequest 28 77 "key"); HttpGet (MetadataRequest 2 77 "key")],
     Raise (Exn RequestException "Read timed out."))
  /\ ~ exists records,
         snd (check_coverage_batch flaky_service three_locations None (Some "key") (1 # 10)
                empty_world) = Ok records
         /\ length records = 3%nat.
Proof.
  assert (H : check_coverage_batch flaky_service three_locations None (Some "key") (1 # 10)
                empty_world
              = (mkWorld ∅ [HttpGet (MetadataRequest 28 77 "key");
                            HttpGet (MetadataRequest 2 77 "key")],
                 Raise (Exn RequestException "Read timed out.")))
    by (vm_compute; reflexivity).
  split; [exact H|]. rewrite H. intros (records & Hr & _). discriminate Hr.
Qed.

Section CoverageBatchFacts.
Variable env : environment.

Lemma check_coverage_row_up (client : StreetViewClient) (row : Location) (w : world) :
  metadata_service_up env ->
  exists w1 r, check_coverage_row env client row w = (w1, Ok [coverage_record row r]).
Proof.
  intros Hup. unfold check_coverage_row, bind. rewrite check_coverage_reply.
  destruct (Hup (trace w) (lat row) (lon row) (api_key client))
    as (response & data & -> & Hcode & Hbody).
  rewrite (raise_for_status_ok response Hcode). cbn [rbind]. unfold json. rewrite Hbody.
  cbn [rbind get_method ret]. eauto.
Qed.

Lemma check_coverage_rows_length (client : StreetViewClient) (rows : list Location)
    (w w' : world) (records : list CoverageRecord) :
  for_each (check_coverage_row env client) rows [] w = (w', Ok records) ->
  map cov_location_id records = map location_id rows.
Proof.
  revert w w' records. induction rows as [|row rest IH]; intros w w' records.
  - cbn. now intros [= _ <-].
  - rewrite for_each_cons. unfold check_coverage_row at 1, bind.
    destruct (check_coverage env client (lat row) (lon row) w) as [w1 [r|e]];
      [|discriminate]. cbn [ret].
    destruct (for_each _ rest [] w1) as [w2 [rs|e]] eqn:Hrest; [|discriminate].
    intros [= _ <-]. cbn. f_equal. exact (IH _ _ _ Hrest).
Qed.

(** C1, amended: in a batch given to [check_coverage_batch], when the
    coverage check of a location raises (a transport error or any other
    exception), the batch raises that same exception: it returns no
    records, and the locations after the failing one are not checked
    (the world is the one the failing check left).  When no check can
    fail (the service answers every request with a JSON object and no
    4xx/5xx status) and the result file, if one is asked for, can be
    written, the batch returns one record per location, in input
    order. *)
Theorem coverage_batch_propagates_errors
    (before after : list Location) (row : Location) (output_path key : option string)
    (rate_limit : Q) (client : StreetViewClient)
    (w w1 w2 : world) (records : list CoverageRecord) (e : exn) :
  StreetViewClient_init env key rate_limit = Ok client ->
  (for_each (check_coverage_row env client) before [] w = (w1, Ok records) ->
   check_coverage env client (lat row) (lon row) w1 = (w2, Raise e) ->
   check_coverage_batch env (before ++ row :: after) output_path key rate_limit w
   = (w2, Raise e))
  /\ (metadata_service_up env -> (forall t path, file_write env t path = None) ->
      exists w' all_records,
        check_coverage_batch env (before ++ row :: after) output_path key rate_limit w
        = (w', Ok all_records)
        /\ length all_records = length (before ++ row :: after)
        /\ map cov_location_id all_records = map location_id (before ++ row :: after)).
Proof.
  intros Hinit. split.
  - intros Hbefore Hrow. unfold check_coverage_batch, bind at 1, lift. rewrite Hinit.
    unfold bind at 1. rewrite for_each_app, Hbefore, for_each_cons.
    unfold check_coverage_row at 1, bind at 1. rewrite Hrow. reflexivity.
  - intros Hup Hwrite. unfold check_coverage_batch, bind at 1, lift. rewrite Hinit.
    unfold bind at 1.
    destruct (for_each_total (check_coverage_row env client) (before ++ row :: after) w)
      as (w' & rs & Hrs).
    { intros item w0. destruct (check_coverage_row_up client item w0 Hup) as (w3 & r & ->).
      eauto. }
    rewrite Hrs. pose proof (check_coverage_rows_length _ _ _ _ _ Hrs) as Hids.
    assert (Hlen : length rs = length (before ++ row :: after)).
    { rewrite <- (length_map cov_location_id), Hids. apply length_map. }
    destruct (truthy output_path).
    + unfold bind, write_file, ret. rewrite Hwrite. eauto.
    + unfold bind, ret. eauto.
Qed.

End CoverageBatchFacts.

Lemma coverage_batch_propagates_errors_witness :
  check_coverage_batch flaky_service three_locations None (Some "key") (1 # 10) empty_world
  = (mkWorld ∅ [HttpGet (MetadataRequest 28 77 "key"); HttpGet (MetadataRequest 2 77 "key")],
     Raise (Exn RequestException "Read timed out."))
  /\ exists w' records,
       check_coverage_batch image_service three_locations None (Some "key") (1 # 10)
         empty_world = (w', Ok records)
       /\ length records = 3%nat.
Proof.
  split.
  - apply (proj1 (coverage_batch_propagates_errors flaky_service
                    [mkLocation "loc_00000" "delhi" 28 77 None]
                    [mkLocation "loc_00002" "mumbai" 19 72 None]
                    (mkLocation "loc_00001" "delhi" 2 77 None)
                    None (Some "key") (1 # 10) sample_client empty_world
                    (mkWorld ∅ [HttpGet (MetadataRequest 28 77 "key")])
                    (mkWorld ∅ [HttpGet (MetadataRequest 28 77 "key");
                                HttpGet (MetadataRequest 2 77 "key")])
                    [mkCoverageRecord "loc_00000" "delhi" 28 77 true
                       (PyStr "CAoSLEFGMVFpcE1f") (PyStr "2021-03") (PyStr "OK")]
                    (Exn RequestException "Read timed out.")
                    ltac:(reflexivity)));
      vm_compute; reflexivity.
  - destruct (proj2 (coverage_batch_propagates_errors image_service
                       [mkLocation "loc_00000" "delhi" 28 77 None]
                       [mkLocation "loc_00002" "mumbai" 19 72 None]
                       (mkLocation "loc_00001" "delhi" 2 77 None)
                       None (Some "key") (1 # 10) sample_client empty_world
                       empty_world empty_world [] (Exn OtherError "unused")
                       ltac:(reflexivity)))
      as (w' & records & Hrun & Hlen & _).
    + intros t la lo key. exists (json_response metadata_ok), metadata_ok.
      split; [reflexivity|]. split; [cbn; lia|reflexivity].
    + reflexivity.
    + exists w', records. split; [exact Hrun|exact Hlen].
Defined.

(** ** The fetchers *)

Section FetcherFacts.
Variable env : environment.

Lemma for_each_Forall {A B} (body : A -> M (list B)) (P : B -> Prop)
    (items : list A) (w w' : world) (rs : list B) :
  (forall item w0 w1 rs0, In item items -> body item w0 = (w1, Ok rs0) -> Forall P rs0) ->
  for_each body items [] w = (w', Ok rs) -> Forall P rs.
Proof.
  revert w w' rs. induction items as [|item rest IH]; intros w w' rs Hbody.
  - cbn. intros [= _ <-]. constructor.
  - rewrite for_each_cons.
    destruct (body item w) as [w1 [rs0|e]] eqn:Hitem; [|discriminate].
    destruct (for_each body rest [] w1) as [w2 [rs1|e]] eqn:Hrest; [|discriminate].
    intros [= _ <-]. apply Forall_app. split.
    + eapply Hbody; [left; reflexivity|exact Hitem].
    + eapply IH; [|exact Hrest]. intros i w0 w3 rs2 Hin. apply Hbody. now right.
Qed.

(** [download_image], case by case. *)
Lemma download_image_cases (client : StreetViewClient) (lat lon : Q) (heading : Z)
    (output_path : string) (pitch fov : Z) (size : string) (w : world) :
  let req := ImageRequest lat lon heading pitch fov size (api_key client) in
  let w1 := mkWorld (files w) (trace w ++ [HttpGet req]) in
  let failure msg := mkImageResult lat lon heading pitch false None (Some msg) in
  download_image env client lat lon heading output_path pitch fov size w =
    match requests_get env (trace w) req with
    | Failed msg => (w1, Ok (failure msg))
    | Replied response =>
        match raise_for_status response with
        | Raise e => (w1, Ok (failure (str_exn e)))
        | Ok _ =>
          let ct := default EmptyString (content_type response) in
          if negb (contains "image" ct)
          then (w1, Ok (failure ("Unexpected content type: " +:+ ct)))
          else
            match file_write env (trace w1) output_path with
            | None =>
                (mkWorld ({[output_path]} ∪ files w) (trace w1 ++ [FileWrite output_path]),
                 Ok (mkImageResult lat lon heading pitch true (Some output_path) None))
            | Some msg =>
                (mkWorld (if write_creates env (trace w1) output_path
                          then {[output_path]} ∪ files w else files w)
                         (trace w1 ++ [FileWrite output_path]),
                 Raise (Exn OSError msg))
            end
        end
    end.
Proof.
  intros req w1 failure.
  unfold download_image, try_except, bind, http_get, lift, raise_for_status. fold req.
  destruct (requests_get env (trace w) req) as [msg|response]; [reflexivity|].
  destruct ((400 <=? status_code response) && (status_code response <? 500));
    [reflexivity|].
  destruct ((500 <=? status_code response) && (status_code response <? 600));
    [reflexivity|].
  destruct (negb (contains "image" _)); [reflexivity|].
  unfold write_file. cbn [trace files]. fold w1.
  destruct (file_write env _ output_path); reflexivity.
Qed.

(** What a result of [download_image] looks like. *)
Lemma download_image_result (client : StreetViewClient) (lat lon : Q) (h : Z)
    (output_path : string) (p fov : Z) (size : string) (w w' : world) (r : ImageResult) :
  download_image env client lat lon h output_path p fov size w = (w', Ok r) ->
  heading r = h /\ pitch r = p /\ files w ⊆ files w'
  /\ (success r = true ->
      image_path r = Some output_path /\ error r = None /\ output_path ∈ files w').
Proof.
  rewrite download_image_cases.
  destruct (requests_get env _ _) as [msg|response].
  { intros [= <- <-]. cbn. repeat split; try done. }
  destruct (raise_for_status response) as [[]|e].
  2: { intros [= <- <-]. cbn. repeat split; try done. }
  cbn zeta. destruct (negb _).
  { intros [= <- <-]. cbn. repeat split; try done. }
  destruct (file_write env _ output_path); [discriminate|].
  intros [= <- <-]. cbn. repeat split; try done.
  - intros f Hf. apply elem_of_union. now right.
  - apply elem_of_union. left. now apply elem_of_singleton.
Qed.

Lemma download_location_images_results (client : StreetViewClient) (lat lon : Q)
    (location_id output_dir : string) (headings : option (list Z)) (p : Z)
    (w w' : world) (results : list ImageResult) :
  download_location_images env client lat lon location_id output_dir headings p w
  = (w', Ok results) ->
  Forall (fun r =>
            In (heading r) (headings_or_default headings)
            /\ (success r = true ->
                image_path r
                = Some (path_join output_dir (image_filename location_id (heading r) p))))
         results.
Proof.
  unfold download_location_images. apply for_each_Forall.
  intros h w0 w1 rs Hin. unfold bind.
  destruct (download_image _ _ _ _ _ _ _ _ _ w0) as [w2 [r|e]] eqn:Hr; [|discriminate].
  intros [= _ <-]. constructor; [|constructor].
  destruct (download_image_result _ _ _ _ _ _ _ _ _ _ _ Hr) as (Hh & _ & _ & Hs).
  rewrite Hh. split; [exact Hin|]. intros Hsucc. now destruct (Hs Hsucc).
Qed.

(** [hires_heading], the body of the second loop, case by case. *)
Lemma hires_heading_cases (pano : Panorama) (pano_img : PIL.Image)
    (location_id output_dir : string) (p fov h : Z) (w : world) :
  let output_path := path_join output_dir (image_filename location_id h p) in
  let w1 := mkWorld (files w) (trace w ++ [CropCall h p fov]) in
  let failure e :=
    [mkImageResult (pano_lat pano) (pano_lon pano) h p false None (Some (str_exn e))] in
  hires_heading env pano pano_img location_id output_dir p fov h w =
    match crop_panorama pano_img h p fov with
    | Raise e => (w1, Ok (failure e))
    | Ok cropped =>
        match image_save env (trace w1) cropped output_path with
        | Some e => (mkWorld (files w) (trace w1 ++ [FileWrite output_path]), Ok (failure e))
        | None =>
            (mkWorld ({[output_path]} ∪ files w) (trace w1 ++ [FileWrite output_path]),
             Ok [mkImageResult (pano_lat pano) (pano_lon pano) h p true
                   (Some output_path) None])
        end
    end.
Proof.
  intros output_path w1 failure.
  unfold hires_heading, crop_call, try_except, bind, log, lift, any_exception.
  fold output_path. cbn [trace files]. fold w1.
  destruct (crop_panorama pano_img h p fov) as [cropped|e]; [|reflexivity].
  unfold save_jpeg. cbn [trace files].
  destruct (image_save env _ cropped output_path); reflexivity.
Qed.

Lemma download_location_hires_results (pano_id location_id output_dir : string)
    (headings : option (list Z)) (p fov zoom : Z)
    (w w' : world) (results : list ImageResult) :
  download_location_hires env pano_id location_id output_dir headings p fov zoom w
  = (w', Ok results) ->
  Forall (fun r =>
            In (heading r) (headings_or_default headings)
            /\ (success r = true ->
                image_path r
                = Some (path_join output_dir (image_filename location_id (heading r) p))))
         results.
Proof.
  unfold download_location_hires, bind.
  destruct (resolve_panorama env pano_id _ p zoom w) as [w1 [[failed|[pano img]]|e]] eqn:Hres;
    [| |discriminate].
  - intros [= _ <-]. revert Hres.
    unfold resolve_panorama, try_except, bind, find_panorama, fetch_panorama, ret.
    assert (Hfail : forall la lo msg,
      Forall (fun r => In (heading r) (headings_or_default headings)
                /\ (success r = true -> image_path r
                    = Some (path_join output_dir (image_filename location_id (heading r) p))))
             (fail_all la lo (headings_or_default headings) p msg)).
    { intros la lo msg. unfold fail_all. apply List.Forall_forall. intros r Hr.
      apply in_map_iff in Hr. destruct Hr as (h & <- & Hh). cbn. split; [exact Hh|discriminate]. }
    destruct (find_panorama_by_id env _ pano_id) as [[pano|]|e]; cbn [any_exception].
    + cbn [trace]. destruct (get_panorama env _ pano zoom) as [[img|]|e];
        cbn [any_exception]; intros [= _ <-] || intros [= _ ?]; try apply Hfail.
    + intros [= _ <-]. apply Hfail.
    + intros [= _ <-]. apply Hfail.
  - apply for_each_Forall. intros h w0 w2 rs Hin. rewrite hires_heading_cases.
    destruct (crop_panorama img h p fov) as [cropped|e].
    + destruct (image_save env _ cropped _).
      * intros [= _ <-]. constructor; [|constructor]. cbn. split; [exact Hin|discriminate].
      * intros [= _ <-]. constructor; [|constructor]. cbn. split; [exact Hin|reflexivity].
    + intros [= _ <-]. constructor; [|constructor]. cbn. split; [exact Hin|discriminate].
Qed.

End FetcherFacts.

(** ** File names *)



Lemma string_app_assoc (a b c : string) : (a +:+ b) +:+ c = a +:+ (b +:+ c).
Proof.
  induction a as [|x a IH]; [reflexivity|].
  change (String x ((a +:+ b) +:+ c) = String x (a +:+ (b +:+ c))). now rewrite IH.
Qed.

(** ** The hi-res path *)

Section HiresFacts.
Variable env : environment.

Lemma crop_calls_app (t1 t2 : list event) :
  crop_calls (t1 ++ t2) = crop_calls t1 ++ crop_calls t2.
Proof. unfold crop_calls. apply flat_map_app. Qed.

Lemma resolve_panorama_failure (pano_id : string) (headings : list Z) (p zoom : Z)
    (w : world) (msg : string) (la lo : Q) (events : list event) :
  stage1_failure env w pano_id zoom msg la lo events ->
  resolve_panorama env pano_id headings p zoom w
  = (mkWorld (files w) (trace w ++ events), Ok (inl (fail_all la lo headings p msg))).
Proof.
  intros Hfail.
  unfold resolve_panorama, try_except, bind, find_panorama, fetch_panorama, ret.
  cbn [trace files].
  destruct Hfail as [Hfind | e Hfind | pano Hfind Hget | pano e Hfind Hget];
    rewrite Hfind; cbn [trace files any_exception]; try reflexivity.
  - rewrite Hget. cbn [trace files any_exception]. now rewrite <- app_assoc.
  - rewrite Hget. cbn [trace files any_exception]. now rewrite <- app_assoc.
Qed.

Lemma resolve_panorama_success (pano_id : string) (headings : list Z) (p zoom : Z)
    (w : world) (pano : Panorama) (pano_img : PIL.Image) :
  find_panorama_by_id env (trace w) pano_id = Ok (Some pano) ->
  get_panorama env (trace w ++ [FindPanorama pano_id]) pano zoom = Ok (Some pano_img) ->
  resolve_panorama env pano_id headings p zoom w
  = (mkWorld (files w) (trace w ++ [FindPanorama pano_id; GetPanorama pano zoom]),
     Ok (inr (pano, pano_img))).
Proof.
  intros Hfind Hget.
  unfold resolve_panorama, try_except, bind, find_panorama, fetch_panorama, ret.
  cbn [trace files]. rewrite Hfind. cbn [trace files]. rewrite Hget.
  cbn [trace files]. now rewrite <- app_assoc.
Qed.

(** The second loop never raises, visits every heading in order and
    gives each heading its own outcome; the file of every successful
    result exists afterwards. *)
Lemma hires_loop_spec (pano : Panorama) (pano_img : PIL.Image)
    (location_id output_dir : string) (p fov : Z) (headings : list Z) (w : world) :
  exists w' results,
    for_each (hires_heading env pano pano_img location_id output_dir p fov) headings [] w
    = (w', Ok results)
    /\ map heading results = headings
    /\ crop_calls (trace w') = crop_calls (trace w) ++ headings
    /\ files w ⊆ files w'
    /\ Forall (heading_outcome env pano pano_img location_id output_dir p fov) results
    /\ Forall (fun r => success r = true ->
                 path_join output_dir (image_filename location_id (heading r) p) ∈ files w')
              results.
Proof.
  revert w. induction headings as [|h rest IH]; intros w.
  - exists w, []. cbn. rewrite app_nil_r. repeat split; try done.
  - rewrite for_each_cons, hires_heading_cases.
    set (w1 := mkWorld (files w) (trace w ++ [CropCall h p fov])).
    set (output_path := path_join output_dir (image_filename location_id h p)).
    assert (Hcalls : forall w2 fs evs,
              crop_calls evs = [] ->
              crop_calls (trace w2) = crop_calls (trace (mkWorld fs (trace w1 ++ evs))) ++ rest ->
              crop_calls (trace w2) = crop_calls (trace w) ++ h :: rest).
    { intros w2 fs evs Hevs ->. cbn [trace]. unfold w1. cbn [trace].
      rewrite !crop_calls_app, Hevs. cbn. now rewrite app_nil_r, <- app_assoc. }
    destruct (crop_panorama pano_img h p fov) as [cropped|e] eqn:Hcrop.
    + destruct (image_save env (trace w1) cropped output_path) as [e|] eqn:Hsave.
      * destruct (IH (mkWorld (files w) (trace w1 ++ [FileWrite output_path])))
          as (w2 & rs & -> & Hmap & Htrace & Hfiles & Hall & Hin).
        exists w2. eexists. split; [reflexivity|]. cbn [app map heading].
        split; [now rewrite Hmap|]. split; [eapply Hcalls; [|exact Htrace]; reflexivity|].
        split; [exact Hfiles|]. split; constructor; try assumption.
        -- unfold heading_outcome. cbn. rewrite Hcrop. repeat split; try done.
           right. exists (trace w1), e. now repeat split.
        -- cbn. discriminate.
      * destruct (IH (mkWorld ({[output_path]} ∪ files w)
                        (trace w1 ++ [FileWrite output_path])))
          as (w2 & rs & -> & Hmap & Htrace & Hfiles & Hall & Hin).
        cbn [files] in Hfiles.
        exists w2. eexists. split; [reflexivity|]. cbn [app map heading].
        split; [now rewrite Hmap|]. split; [eapply Hcalls; [|exact Htrace]; reflexivity|].
        split; [intros f Hf; apply Hfiles, elem_of_union; now right|].
        split; constructor; try assumption.
        -- unfold heading_outcome. cbn. rewrite Hcrop. repeat split; try done.
           left. now repeat split.
        -- cbn. intros _. apply Hfiles, elem_of_union. left. now apply elem_of_singleton.
    + destruct (IH w1) as (w2 & rs & -> & Hmap & Htrace & Hfiles & Hall & Hin).
      exists w2. eexists. split; [reflexivity|]. cbn [app map heading].
      split; [now rewrite Hmap|].
      split; [apply (Hcalls w2 (files w) []); [reflexivity|now rewrite app_nil_r]|].
      split; [exact Hfiles|]. split; constructor; try assumption.
      * unfold heading_outcome. cbn. rewrite Hcrop. repeat split; try done.
      * cbn. discriminate.
Qed.

End HiresFacts.

(** C10: in the hi-res path, (1) a location whose panorama id is missing
    or empty gets, from the batch, one failure record per heading with the
    message "No pano_id available", and the world does not change;
    (2) when the id cannot be resolved or the bitmap cannot be fetched
    (the service answers nothing, or raises), [download_location_hires]
    returns one failure result per heading, all with the one message of
    the cause, and performs no crop and no file write; (3) once the
    bitmap is there, every heading is cropped in turn, the call returns
    one result per heading in order, and a result is a failure only
    through the exception of its own crop or of its own save. *)
Theorem hires_failures_are_scoped (env : environment) (row : Location)
    (pid lid output_dir : string) (headings : option (list Z))
    (p fov zoom : Z) (skip_existing : bool) (w : world) :
  let hs := headings_or_default headings in
  (pano_id_missing (pano_id row) = true ->
   download_images_hires_row env output_dir hs p fov zoom skip_existing row w
   = (w, Ok (map (fun h =>
                    mkDownloadRecord (location_id row) (city row) (lat row) (lon row)
                      h p None false (Some "No pano_id available")) hs)))
  /\ (forall msg la lo events,
        stage1_failure env w pid zoom msg la lo events ->
        download_location_hires env pid lid output_dir headings p fov zoom w
        = (mkWorld (files w) (trace w ++ events), Ok (fail_all la lo hs p msg))
        /\ map heading (fail_all la lo hs p msg) = hs
        /\ Forall (fun r => success r = false /\ image_path r = None /\ error r = Some msg)
                  (fail_all la lo hs p msg)
        /\ crop_calls events = [] /\ file_writes events = [])
  /\ (forall pano pano_img,
        find_panorama_by_id env (trace w) pid = Ok (Some pano) ->
        get_panorama env (trace w ++ [FindPanorama pid]) pano zoom = Ok (Some pano_img) ->
        exists w' results,
          download_location_hires env pid lid output_dir headings p fov zoom w
          = (w', Ok results)
          /\ map heading results = hs
          /\ crop_calls (trace w') = crop_calls (trace w) ++ hs
          /\ Forall (heading_outcome env pano pano_img lid output_dir p fov) results).
Proof.
  intros hs. split; [|split].
  - intros Hmissing. unfold download_images_hires_row. now rewrite Hmissing.
  - intros msg la lo events Hfail.
    split; [|split; [|split; [|split]]].
    + unfold download_location_hires, bind. fold hs.
      now rewrite (resolve_panorama_failure env pid hs p zoom w msg la lo events Hfail).
    + unfold fail_all. rewrite map_map. cbn [heading]. apply map_id.
    + unfold fail_all. apply List.Forall_forall. intros r Hr.
      apply in_map_iff in Hr. destruct Hr as (h & <- & _). now cbn.
    + destruct Hfail; reflexivity.
    + destruct Hfail; reflexivity.
  - intros pano pano_img Hfind Hget.
    unfold download_location_hires, bind. fold hs.
    rewrite (resolve_panorama_success env pid hs p zoom w pano pano_img Hfind Hget).
    destruct (hires_loop_spec env pano pano_img lid output_dir p fov hs
                (mkWorld (files w) (trace w ++ [FindPanorama pid; GetPanorama pano zoom])))
      as (w' & results & Hrun & Hmap & Hcalls & _ & Hall & _).
    exists w', results. split; [exact Hrun|]. split; [exact Hmap|]. split; [|exact Hall].
    rewrite Hcalls. cbn [trace]. rewrite crop_calls_app. cbn. now rewrite app_nil_r.
Qed.

Lemma hires_failures_are_scoped_witness :
  download_images_hires_row hires_service "img" [0; 90] 0 90 3 true location_without_pano
    empty_world
  = (empty_world,
     Ok [mkDownloadRecord "loc_00004" "delhi" (28 # 1) (77 # 1) 0 0 None false
           (Some "No pano_id available");
         mkDownloadRecord "loc_00004" "delhi" (28 # 1) (77 # 1) 90 0 None false
           (Some "No pano_id available")])
  /\ download_location_hires hires_service "gone" "loc_00005" "img" (Some [0; 90]) 0 90 3
       empty_world
     = (mkWorld ∅ [FindPanorama "gone"],
        Ok [mkImageResult 0 0 0 0 false None (Some "Panorama not found: gone");
            mkImageResult 0 0 90 0 false None (Some "Panorama not found: gone")])
  /\ exists w' results,
       download_location_hires hires_service "good" "loc_00003" "img" (Some [0; 90; 180])
         0 90 3 empty_world = (w', Ok results)
       /\ map heading results = [0; 90; 180]
       /\ map success results = [true; false; true]
       /\ crop_calls (trace w') = [0; 90; 180].
Proof.
  split; [|split].
  - apply (proj1 (hires_failures_are_scoped hires_service location_without_pano
                    "none" "loc_00004" "img" (Some [0; 90]) 0 90 3 true empty_world)).
    reflexivity.
  - destruct (proj1 (proj2 (hires_failures_are_scoped hires_service location_without_pano
                              "gone" "loc_00005" "img" (Some [0; 90]) 0 90 3 true
                              empty_world))
                _ _ _ _ (panorama_not_found hires_service empty_world "gone" 3
                           ltac:(reflexivity))) as (Hrun & _).
    exact Hrun.
  - destruct (proj2 (proj2 (hires_failures_are_scoped hires_service good_location
                              "good" "loc_00003" "img" (Some [0; 90; 180]) 0 90 3 true
                              empty_world))
                sample_pano pano16 ltac:(reflexivity) ltac:(reflexivity))
      as (w' & results & Hrun & Hmap & Hcalls & _).
    exists w', results. split; [exact Hrun|]. split; [exact Hmap|].
    split; [|exact Hcalls].
    vm_compute in Hrun. injection Hrun as _ <-. reflexivity.
Defined.

(** ** Skip-existing *)

Section SkipExistingFacts.
Variable env : environment.

Lemma http_requests_app (t1 t2 : list event) :
  http_requests (t1 ++ t2) = http_requests t1 ++ http_requests t2.
Proof. unfold http_requests. apply flat_map_app. Qed.

Lemma all_exist_true (fs : gset string) (paths : list string) :
  forallb (fun f => bool_decide (f ∈ fs)) paths = true <-> all_present fs paths.
Proof.
  unfold all_present. rewrite forallb_forall.
  split; intros H f Hf; specialize (H f Hf).
  - now apply bool_decide_eq_true in H.
  - now apply bool_decide_eq_true.
Qed.

Lemma all_present_mono (fs fs' : gset string) (paths : list string) :
  fs ⊆ fs' -> all_present fs paths -> all_present fs' paths.
Proof. intros Hsub H f Hf. apply Hsub, H, Hf. Qed.

Lemma skip_records_present (output_dir : string) (row : Location) (hs : list Z) (p : Z) :
  skip_records row hs p (expected_files output_dir (location_id row) hs p)
  = map (present_record output_dir p row) hs.
Proof.
  unfold skip_records, expected_files.
  induction hs as [|h hs IH]; [reflexivity|]. cbn. now rewrite <- IH.
Qed.

Lemma skip_check_true (expected : list string) (w : world) :
  all_present (files w) expected -> skip_check true expected w = (w, Ok true).
Proof.
  intros H. unfold skip_check, all_exist. now rewrite (proj2 (all_exist_true _ _) H).
Qed.

Lemma skip_check_false (expected : list string) (w : world) :
  ~ all_present (files w) expected -> skip_check true expected w = (w, Ok false).
Proof.
  intros H. unfold skip_check, all_exist.
  destruct (forallb _ expected) eqn:Hall; [|reflexivity].
  apply all_exist_true in Hall. contradiction.
Qed.

(** The direct batch: the two branches of the loop body. *)
Lemma download_images_row_skip (client : StreetViewClient) (output_dir : string)
    (hs : list Z) (p : Z) (row : Location) (w : world) :
  all_present (files w) (expected_files output_dir (location_id row) hs p) ->
  download_images_row env client output_dir hs p true row w
  = (w, Ok (map (present_record output_dir p row) hs)).
Proof.
  intros H. unfold download_images_row, bind. rewrite (skip_check_true _ _ H).
  unfold ret. now rewrite skip_records_present.
Qed.

Lemma download_images_row_fetch (client : StreetViewClient) (output_dir : string)
    (hs : list Z) (p : Z) (row : Location) (w : world) :
  ~ all_present (files w) (expected_files output_dir (location_id row) hs p) ->
  download_images_row env client output_dir hs p true row w
  = match download_location_images env client (lat row) (lon row) (location_id row)
            output_dir (Some hs) p w with
    | (w', Ok results) => (w', Ok (map (download_record row) results))
    | (w', Raise e) => (w', Raise e)
    end.
Proof.
  intros H. unfold download_images_row, bind at 1. rewrite (skip_check_false _ _ H).
  unfold bind, ret. reflexivity.
Qed.

(** The hi-res batch: the branches of the loop body after the id test. *)
Lemma download_images_hires_row_skip (output_dir : string) (hs : list Z) (p fov zoom : Z)
    (row : Location) (w : world) :
  pano_id_missing (pano_id row) = false ->
  all_present (files w) (expected_files output_dir (location_id row) hs p) ->
  download_images_hires_row env output_dir hs p fov zoom true row w
  = (w, Ok (map (present_record output_dir p row) hs)).
Proof.
  intros Hid H. unfold download_images_hires_row, bind. rewrite Hid, (skip_check_true _ _ H).
  unfold ret. now rewrite skip_records_present.
Qed.

Lemma download_images_hires_row_fetch (output_dir : string) (hs : list Z) (p fov zoom : Z)
    (row : Location) (w : world) :
  pano_id_missing (pano_id row) = false ->
  ~ all_present (files w) (expected_files output_dir (location_id row) hs p) ->
  download_images_hires_row env output_dir hs p fov zoom true row w
  = match download_location_hires env (default EmptyString (pano_id row)) (location_id row)
            output_dir (Some hs) p fov zoom w with
    | (w', Ok results) => (w', Ok (map (download_record row) results))
    | (w', Raise e) => (w', Raise e)
    end.
Proof.
  intros Hid H. unfold download_images_hires_row, bind at 1.
  rewrite Hid, (skip_check_false _ _ H). unfold bind, ret. reflexivity.
Qed.

(** The loop of [download_location_images]: when it returns, it has
    requested every heading in order, and the file of every successful
    result exists afterwards. *)
Lemma images_loop_spec (client : StreetViewClient) (la lo : Q)
    (lid output_dir : string) (p : Z) (hs : list Z) (w w' : world)
    (results : list ImageResult) :
  for_each
    (fun h =>
       do result <- download_image env client la lo h
                      (path_join output_dir (image_filename lid h p)) p 90 "640x640";
       ret [result]) hs [] w = (w', Ok results) ->
  map heading results = hs
  /\ http_requests (trace w')
     = http_requests (trace w)
       ++ map (fun h => ImageRequest la lo h p 90 "640x640" (api_key client)) hs
  /\ files w ⊆ files w'
  /\ Forall (fun r => pitch r = p
               /\ (success r = true ->
                   image_path r = Some (path_join output_dir (image_filename lid (heading r) p))
                   /\ error r = None
                   /\ path_join output_dir (image_filename lid (heading r) p) ∈ files w'))
            results.
Proof.
  revert w w' results. induction hs as [|h rest IH]; intros w w' results.
  - cbn. intros [= <- <-]. cbn. rewrite app_nil_r. repeat split; try done.
  - rewrite for_each_cons. unfold bind at 1.
    destruct (download_image _ _ _ _ _ _ _ _ _ w) as [w1 [r|e]] eqn:Hr; [|discriminate].
    cbn [ret].
    destruct (for_each _ rest [] w1) as [w2 [rs|e]] eqn:Hrest; [|discriminate].
    intros [= <- <-].
    destruct (IH _ _ _ Hrest) as (Hmap & Hreq & Hfiles & Hall).
    pose proof (download_image_result _ _ _ _ _ _ _ _ _ _ _ _ Hr) as (Hh & Hp & Hsub & Hs).
    assert (Hreq1 : http_requests (trace w1)
                    = http_requests (trace w)
                      ++ [ImageRequest la lo h p 90 "640x640" (api_key client)]).
    { revert Hr. rewrite download_image_cases.
      destruct (requests_get env _ _) as [msg|response].
      { intros [= <- _]. cbn [trace]. now rewrite http_requests_app. }
      destruct (raise_for_status response) as [[]|e'].
      2: { intros [= <- _]. cbn [trace]. now rewrite http_requests_app. }
      cbn zeta. destruct (negb _).
      { intros [= <- _]. cbn [trace]. now rewrite http_requests_app. }
      destruct (file_write env _ _); [discriminate|].
      intros [= <- _]. cbn [trace]. rewrite !http_requests_app. cbn. now rewrite app_nil_r. }
    cbn [app map]. split; [now rewrite Hh, Hmap|].
    split; [rewrite Hreq, Hreq1, <- app_assoc; reflexivity|].
    split; [now transitivity (files w1)|]. constructor; [|exact Hall].
    split; [exact Hp|]. intros Hsucc. destruct (Hs Hsucc) as (Hpath & Herr & Hin).
    rewrite Hh. repeat split; try done. apply Hfiles, Hin.
Qed.

End SkipExistingFacts.

(** ** Running a batch again *)

Lemma headings_or_default_idem (headings : option (list Z)) :
  headings_or_default (Some (headings_or_default headings)) = headings_or_default headings.
Proof. destruct headings as [[|h hs]|]; reflexivity. Qed.

Lemma headings_or_default_nonempty (headings : option (list Z)) :
  headings_or_default headings <> [].
Proof. destruct headings as [[|h hs]|]; discriminate. Qed.

Lemma successes_are_present_records (row : Location) (output_dir : string) (p : Z)
    (fs : gset string) (results : list ImageResult) :
  Forall (fetched_ok output_dir (location_id row) p fs) results ->
  Forall (fun d => dl_success d = true) (map (download_record row) results) ->
  map (download_record row) results
  = map (present_record output_dir p row) (map heading results)
  /\ all_present fs (expected_files output_dir (location_id row) (map heading results) p).
Proof.
  induction results as [|r rs IH]; intros Hok Hsucc.
  - split; [reflexivity|]. intros f [].
  - apply Forall_cons in Hok. destruct Hok as [[Hp Hr] Hok].
    cbn [map] in Hsucc. apply Forall_cons in Hsucc. destruct Hsucc as [Hs Hsucc].
    cbn [download_record dl_success] in Hs.
    destruct (Hr Hs) as (Hpath & Herr & Hin).
    destruct (IH Hok Hsucc) as [IHrec IHpres]. split.
    + cbn [map]. rewrite IHrec. f_equal.
      unfold download_record, present_record. now rewrite Hp, Hpath, Herr, Hs.
    + intros f [<- | Hf]; [exact Hin|now apply IHpres].
Qed.

Section Rerun.
Variable body : Location -> M (list DownloadRecord).
Variable ready : Location -> gset string -> Prop.
Variable skipped : Location -> list DownloadRecord.
Hypothesis ready_mono : forall row fs fs', fs ⊆ fs' -> ready row fs -> ready row fs'.
Hypothesis body_skip : forall row w, ready row (files w) -> body row w = (w, Ok (skipped row)).
Hypothesis body_success : forall row w w' rs,
  body row w = (w', Ok rs) -> Forall (fun d => dl_success d = true) rs ->
  rs = skipped row /\ files w ⊆ files w' /\ ready row (files w').

Lemma rerun_all_ready (rows : list Location) (w : world) :
  (forall row, In row rows -> ready row (files w)) ->
  for_each body rows [] w = (w, Ok (flat_map skipped rows)).
Proof.
  induction rows as [|row rest IH]; intros Hready; [reflexivity|].
  rewrite for_each_cons, body_skip by (apply Hready; now left).
  rewrite IH by (intros r Hr; apply Hready; now right). reflexivity.
Qed.

Lemma first_run_makes_ready (rows : list Location) (w w' : world)
    (records : list DownloadRecord) :
  for_each body rows [] w = (w', Ok records) ->
  Forall (fun d => dl_success d = true) records ->
  records = flat_map skipped rows
  /\ files w ⊆ files w'
  /\ (forall row, In row rows -> ready row (files w')).
Proof.
  revert w w' records. induction rows as [|row rest IH]; intros w w' records.
  - cbn. intros [= <- <-] _. repeat split; try done.
  - rewrite for_each_cons.
    destruct (body row w) as [w1 [rs|e]] eqn:Hrow; [|discriminate].
    destruct (for_each body rest [] w1) as [w2 [rs'|e]] eqn:Hrest; [|discriminate].
    intros [= <- <-] Hsucc. apply Forall_app in Hsucc. destruct Hsucc as [Hs1 Hs2].
    destruct (body_success _ _ _ _ Hrow Hs1) as (-> & Hsub1 & Hready1).
    destruct (IH _ _ _ Hrest Hs2) as (-> & Hsub2 & Hready2).
    split; [reflexivity|]. split; [now transitivity (files w1)|].
    intros r [<- | Hr]; [now apply (ready_mono _ (files w1))|now apply Hready2].
Qed.

Lemma rerun_identical (rows : list Location) (w w' : world)
    (records : list DownloadRecord) :
  for_each body rows [] w = (w', Ok records) ->
  Forall (fun d => dl_success d = true) records ->
  for_each body rows [] w' = (w', Ok records).
Proof.
  intros Hrun Hsucc.
  destruct (first_run_makes_ready _ _ _ _ Hrun Hsucc) as (-> & _ & Hready).
  now apply rerun_all_ready.
Qed.

End Rerun.

Section RerunBatches.
Variable env : environment.

Lemma download_images_row_success (client : StreetViewClient) (output_dir : string)
    (hs : list Z) (p : Z) (row : Location) (w w' : world) (rs : list DownloadRecord) :
  headings_or_default (Some hs) = hs ->
  download_images_row env client output_dir hs p true row w = (w', Ok rs) ->
  Forall (fun d => dl_success d = true) rs ->
  rs = map (present_record output_dir p row) hs
  /\ files w ⊆ files w'
  /\ all_present (files w') (expected_files output_dir (location_id row) hs p).
Proof.
  intros Hhs.
  destruct (forallb (fun f => bool_decide (f ∈ files w))
              (expected_files output_dir (location_id row) hs p)) eqn:Hall.
  - apply all_exist_true in Hall. rewrite (download_images_row_skip env _ _ _ _ _ _ Hall).
    intros [= <- <-] _. repeat split; try done.
  - assert (Hnot : ~ all_present (files w)
                       (expected_files output_dir (location_id row) hs p)).
    { intros H. apply all_exist_true in H. congruence. }
    rewrite (download_images_row_fetch env _ _ _ _ _ _ Hnot).
    unfold download_location_images. rewrite Hhs.
    destruct (for_each _ hs [] w) as [w1 [results|e]] eqn:Hloop; [|discriminate].
    intros [= <- <-] Hsucc.
    destruct (images_loop_spec env _ _ _ _ _ _ _ _ _ _ Hloop) as (Hmap & _ & Hsub & Hok).
    destruct (successes_are_present_records row output_dir p (files w1) results Hok Hsucc)
      as [Hrec Hpres].
    rewrite Hmap in Hrec, Hpres. repeat split; assumption.
Qed.

Lemma download_location_hires_cases (pid lid output_dir : string) (hs : list Z)
    (p fov zoom : Z) (w w' : world) (results : list ImageResult) :
  headings_or_default (Some hs) = hs ->
  download_location_hires env pid lid output_dir (Some hs) p fov zoom w = (w', Ok results) ->
  (exists la lo msg, results = fail_all la lo hs p msg)
  \/ (exists pano pano_img w1,
        files w1 = files w
        /\ for_each (hires_heading env pano pano_img lid output_dir p fov) hs [] w1
           = (w', Ok results)).
Proof.
  intros Hhs. unfold download_location_hires, bind. rewrite Hhs.
  destruct (resolve_panorama env pid hs p zoom w) as [w1 [[failed|[pano img]]|e]] eqn:Hres;
    [| |discriminate].
  - intros [= _ <-]. left. revert Hres.
    unfold resolve_panorama, try_except, bind, find_panorama, fetch_panorama, ret.
    destruct (find_panorama_by_id env _ pid) as [[pano|]|e]; cbn [any_exception trace].
    + destruct (get_panorama env _ pano zoom) as [[img|]|e]; cbn [any_exception];
        intros [= _ <-] || intros [= _ ?]; eauto.
    + intros [= _ <-]. eauto.
    + intros [= _ <-]. eauto.
  - intros Hloop. right. exists pano, img, w1. split; [|exact Hloop]. revert Hres.
    unfold resolve_panorama, try_except, bind, find_panorama, fetch_panorama, ret.
    destruct (find_panorama_by_id env _ pid) as [[pano'|]|e]; cbn [any_exception trace];
      [|discriminate|discriminate].
    destruct (get_panorama env _ pano' zoom) as [[img'|]|e]; cbn [any_exception];
      [|discriminate|discriminate].
    now intros [= <- _ _].
Qed.

Lemma download_images_hires_row_success (output_dir : string) (hs : list Z)
    (p fov zoom : Z) (row : Location) (w w' : world) (rs : list DownloadRecord) :
  headings_or_default (Some hs) = hs -> hs <> [] ->
  download_images_hires_row env output_dir hs p fov zoom true row w = (w', Ok rs) ->
  Forall (fun d => dl_success d = true) rs ->
  rs = map (present_record output_dir p row) hs
  /\ files w ⊆ files w'
  /\ (pano_id_missing (pano_id row) = false
      /\ all_present (files w') (expected_files output_dir (location_id row) hs p)).
Proof.
  intros Hhs Hne.
  destruct (pano_id_missing (pano_id row)) eqn:Hid.
  { unfold download_images_hires_row. rewrite Hid. intros [= <- <-] Hsucc.
    destruct hs as [|h hs]; [contradiction|]. cbn [map] in Hsucc.
    apply Forall_cons in Hsucc. destruct Hsucc as [Hs _]. discriminate Hs. }
  destruct (forallb (fun f => bool_decide (f ∈ files w))
              (expected_files output_dir (location_id row) hs p)) eqn:Hall.
  - apply all_exist_true in Hall.
    rewrite (download_images_hires_row_skip env _ _ _ _ _ _ _ Hid Hall).
    intros [= <- <-] _. repeat split; try done.
  - assert (Hnot : ~ all_present (files w)
                       (expected_files output_dir (location_id row) hs p)).
    { intros H. apply all_exist_true in H. congruence. }
    rewrite (download_images_hires_row_fetch env _ _ _ _ _ _ _ Hid Hnot).
    destruct (download_location_hires env _ _ _ _ _ _ _ w) as [w1 [results|e]] eqn:Hfetch;
      [|discriminate].
    intros [= <- <-] Hsucc.
    destruct (download_location_hires_cases _ _ _ _ _ _ _ _ _ _ Hhs Hfetch)
      as [(la & lo & msg & ->) | (pano & img & w0 & Hfiles0 & Hloop)].
    + destruct hs as [|h hs]; [contradiction|]. cbn [map fail_all] in Hsucc.
      apply Forall_cons in Hsucc. destruct Hsucc as [Hs _]. discriminate Hs.
    + destruct (hires_loop_spec env pano img (location_id row) output_dir p fov hs w0)
        as (w2 & results' & Hrun & Hmap & _ & Hsub & Hout & Hin).
      rewrite Hloop in Hrun. injection Hrun as <- <-.
      assert (Hok : Forall (fetched_ok output_dir (location_id row) p (files w1)) results).
      { apply List.Forall_forall. intros r Hr.
        rewrite List.Forall_forall in Hout, Hin.
        specialize (Hout r Hr). specialize (Hin r Hr).
        destruct Hout as (_ & _ & Hp & Hcase). split; [exact Hp|]. intros Hs.
        destruct (crop_panorama img (heading r) p fov).
        - destruct Hcase as [(_ & Hpath & Herr)|(t & e & _ & Hf & _)]; [|congruence].
          repeat split; try assumption. now apply Hin.
        - destruct Hcase as (Hf & _). congruence. }
      destruct (successes_are_present_records row output_dir p (files w1) results Hok Hsucc)
        as [Hrec Hpres].
      rewrite Hmap in Hrec, Hpres. rewrite Hfiles0 in Hsub. repeat split; assumption.
Qed.

End RerunBatches.

(** C2, counterexample: in the hi-res batch with skip-existing enabled, a
    location without panorama id whose two expected files both exist
    still gets failure records (and no success record). *)
Lemma hires_batch_fails_without_pano_id_despite_files :
  all_present (files world_with_files) (expected_files "img" "loc_00004" [0; 90] 0)
  /\ download_images_hires_batch hires_service [location_without_pano] "img"
       (Some [0; 90]) 0 90 3 true world_with_files
     = (world_with_files,
        Ok [mkDownloadRecord "loc_00004" "delhi" (28 # 1) (77 # 1) 0 0 None false
              (Some "No pano_id available");
            mkDownloadRecord "loc_00004" "delhi" (28 # 1) (77 # 1) 90 0 None false
              (Some "No pano_id available")]).
Proof.
  split; [|reflexivity].
  apply all_exist_true. vm_compute. reflexivity.
Qed.

(** C2, amended: with skip-existing enabled, (1) when all expected files
    of a location exist, the direct batch, and the hi-res batch for a
    location that has a panorama id, emit one success record per heading
    carrying the path of the existing file and leave the world unchanged
    (no network call); (2) when an expected file is missing, the direct
    batch calls the fetcher with the full heading list and, when the
    fetcher returns, it has requested every heading; the hi-res batch,
    for a location that has a panorama id, calls the hi-res fetcher with
    the full heading list; (3) a batch run all of whose records are
    successes can be run again from the world it left: the second run
    changes nothing (no network call) and returns the same records. *)
Theorem skip_existing_is_idempotent (env : environment) (client : StreetViewClient)
    (output_dir : string) (headings : option (list Z)) (p fov zoom : Z)
    (row : Location) (w : world) :
  let hs := headings_or_default headings in
  let expected := expected_files output_dir (location_id row) hs p in
  (all_present (files w) expected ->
   download_images_row env client output_dir hs p true row w
   = (w, Ok (map (present_record output_dir p row) hs))
   /\ (pano_id_missing (pano_id row) = false ->
       download_images_hires_row env output_dir hs p fov zoom true row w
       = (w, Ok (map (present_record output_dir p row) hs))))
  /\ ((exists f, In f expected /\ f ∉ files w) ->
      download_images_row env client output_dir hs p true row w
      = match download_location_images env client (lat row) (lon row) (location_id row)
                output_dir (Some hs) p w with
        | (w', Ok results) => (w', Ok (map (download_record row) results))
        | (w', Raise e) => (w', Raise e)
        end
      /\ (forall w' results,
            download_location_images env client (lat row) (lon row) (location_id row)
              output_dir (Some hs) p w = (w', Ok results) ->
            map heading results = hs
            /\ http_requests (trace w')
               = http_requests (trace w)
                 ++ map (fun h => ImageRequest (lat row) (lon row) h p 90 "640x640"
                                    (api_key client)) hs)
      /\ (pano_id_missing (pano_id row) = false ->
          download_images_hires_row env output_dir hs p fov zoom true row w
          = match download_location_hires env (default EmptyString (pano_id row))
                    (location_id row) output_dir (Some hs) p fov zoom w with
            | (w', Ok results) => (w', Ok (map (download_record row) results))
            | (w', Raise e) => (w', Raise e)
            end))
  /\ (forall locations key rate w1 records,
        download_images_batch env locations output_dir headings p key rate true w
        = (w1, Ok records) ->
        Forall (fun d => dl_success d = true) records ->
        download_images_batch env locations output_dir headings p key rate true w1
        = (w1, Ok records))
  /\ (forall locations w1 records,
        download_images_hires_batch env locations output_dir headings p fov zoom true w
        = (w1, Ok records) ->
        Forall (fun d => dl_success d = true) records ->
        download_images_hires_batch env locations output_dir headings p fov zoom true w1
        = (w1, Ok records)).
Proof.
  intros hs expected.
  pose proof (headings_or_default_idem headings) as Hidem. fold hs in Hidem.
  pose proof (headings_or_default_nonempty headings) as Hne. fold hs in Hne.
  split; [|split; [|split]].
  - intros Hall. split.
    + now apply download_images_row_skip.
    + intros Hid. now apply download_images_hires_row_skip.
  - intros (f & Hf & Hmissing).
    assert (Hnot : ~ all_present (files w) expected) by (intros H; apply Hmissing, H, Hf).
    split; [now apply download_images_row_fetch|]. split.
    + intros w' results. unfold download_location_images. rewrite Hidem. intros Hloop.
      destruct (images_loop_spec env _ _ _ _ _ _ _ _ _ _ Hloop) as (Hmap & Hreq & _).
      split; assumption.
    + intros Hid. now apply download_images_hires_row_fetch.
  - intros locations key rate w1 records. unfold download_images_batch, bind, lift.
    destruct (StreetViewClient_init env key rate) as [c|e]; [|discriminate].
    fold hs. intros Hrun Hsucc.
    eapply (rerun_identical
              (download_images_row env c output_dir hs p true)
              (fun r fs => all_present fs (expected_files output_dir (location_id r) hs p))
              (fun r => map (present_record output_dir p r) hs));
      [| | |exact Hrun|exact Hsucc].
    + intros r fs fs'. apply all_present_mono.
    + intros r w0. apply download_images_row_skip.
    + intros r w0 w0' rs. now apply download_images_row_success.
  - intros locations w1 records. unfold download_images_hires_batch. fold hs.
    intros Hrun Hsucc.
    eapply (rerun_identical
              (download_images_hires_row env output_dir hs p fov zoom true)
              (fun r fs => pano_id_missing (pano_id r) = false
                           /\ all_present fs (expected_files output_dir (location_id r) hs p))
              (fun r => map (present_record output_dir p r) hs));
      [| | |exact Hrun|exact Hsucc].
    + intros r fs fs' Hsub [Hid Hall]. split; [exact Hid|].
      now apply (all_present_mono fs fs').
    + intros r w0 [Hid Hall]. now apply download_images_hires_row_skip.
    + intros r w0 w0' rs. now apply download_images_hires_row_success.
Qed.

Lemma skip_existing_is_idempotent_witness :
  (exists w1 records,
     download_images_batch image_service two_locations "img" None 0 (Some "key") (1 # 10)
       true empty_world = (w1, Ok records)
     /\ length records = 8%nat
     /\ length (http_requests (trace w1)) = 8%nat
     /\ download_images_batch image_service two_locations "img" None 0 (Some "key") (1 # 10)
          true w1 = (w1, Ok records))
  /\ download_images_row hires_service sample_client "img" [0; 90] 0 true
       location_without_pano world_with_files
     = (world_with_files,
        Ok [mkDownloadRecord "loc_00004" "delhi" (28 # 1) (77 # 1) 0 0
              (Some "img/loc_00004_h000_p+00.jpg") true None;
            mkDownloadRecord "loc_00004" "delhi" (28 # 1) (77 # 1) 90 0
              (Some "img/loc_00004_h090_p+00.jpg") true None])
  /\ forall w' results,
       download_location_images image_service sample_client (28 # 1) (77 # 1) "loc_00003"
         "img" (Some [0; 90]) 0 empty_world = (w', Ok results) ->
       map heading results = [0; 90]
       /\ http_requests (trace w')
          = [ImageRequest (28 # 1) (77 # 1) 0 0 90 "640x640" "key";
             ImageRequest (28 # 1) (77 # 1) 90 0 90 "640x640" "key"].
Proof.
  split; [|split].
  - destruct (download_images_batch image_service two_locations "img" None 0 (Some "key")
                (1 # 10) true empty_world) as [w1 [records|e]] eqn:Hrun;
      [|vm_compute in Hrun; discriminate Hrun].
    exists w1, records. split; [reflexivity|].
    assert (Hfacts : length records = 8%nat /\ length (http_requests (trace w1)) = 8%nat
                     /\ forallb dl_success records = true).
    { vm_compute in Hrun. injection Hrun as <- <-. vm_compute. repeat split; reflexivity. }
    destruct Hfacts as (Hlen & Hreq & Hall).
    split; [exact Hlen|]. split; [exact Hreq|].
    apply (proj1 (proj2 (proj2 (skip_existing_is_idempotent image_service sample_client
                                  "img" None 0 90 3 good_location empty_world)))
             two_locations (Some "key") (1 # 10) w1 records Hrun).
    apply List.Forall_forall. intros d Hd. rewrite forallb_forall in Hall. now apply Hall.
  - apply (proj1 (skip_existing_is_idempotent hires_service sample_client
                    "img" (Some [0; 90]) 0 90 3 location_without_pano world_with_files)).
    apply all_exist_true. vm_compute. reflexivity.
  - apply (proj1 (proj2 (skip_existing_is_idempotent image_service sample_client
                           "img" (Some [0; 90]) 0 90 3 good_location empty_world))).
    exists "img/loc_00003_h000_p+00.jpg". split; [left; vm_compute; reflexivity|].
    cbn [files empty_world]. apply not_elem_of_empty.
Defined.

(* ================================================================== *)
(** * Part V: further properties of the crop                           *)
(* ================================================================== *)

Section CropWindow.
Import Float64 Float64Facts PIL PILFacts.

(** A column index taken modulo the width, one turn to either side. *)
Lemma mod_one_turn (x w : Z) :
  0 < w ->
  (- w <= x < 0 -> x mod w = x + w)
  /\ (0 <= x < w -> x mod w = x)
  /\ (w <= x < 2 * w -> x mod w = x - w).
Proof.
  intros Hw. repeat split; intros Hx; symmetry.
  - apply (Z.mod_unique_pos _ _ (-1)); lia.
  - apply (Z.mod_unique_pos _ _ 0); lia.
  - apply (Z.mod_unique_pos _ _ 1); lia.
Qed.

(** X1: the crop is a window on the cylinder: whenever the crop is not wider
    than the panorama and [_crop_panorama] returns, column [i] of the
    output is column [(left + i) mod w] of the panorama and row [j] is
    row [top + j], for every column of the box (2 * (crop_w // 2) of
    them), in the direct branch as in the wraparound branch. *)
Theorem crop_is_a_window_on_the_cylinder (img : Image) (heading pitch fov : Z)
    (out : Image) :
  let w := width img in
  let h := height img in
  let left := crop_left w heading fov in
  let top := crop_top w h pitch fov in
  let bottom := crop_bottom w h pitch fov in
  0 < w -> crop_w w fov <= w ->
  crop_panorama img heading pitch fov = Ok out ->
  forall i j, 0 <= i < 2 * (crop_w w fov / 2) -> 0 <= j < bottom - top ->
    getpixel out i j = getpixel img ((left + i) mod w) (top + j).
Proof.
  intros w h left top bottom Hw Hfit Hout i j Hi Hj.
  pose proof (center_x_range w heading Hw) as Hcx.
  pose proof (Z.mul_div_le (crop_w w fov) 2 ltac:(lia)) as Hk.
  destruct (mod_one_turn (left + i) w Hw) as (Mneg & Mmid & Mpos).
  assert (Hl : left = center_x w heading - crop_w w fov / 2) by reflexivity.
  set (right := crop_right w heading fov).
  assert (Hr : right = center_x w heading + crop_w w fov / 2) by reflexivity.
  revert Hout. unfold crop_panorama. fold w h left right top bottom.
  destruct (Z.eqb_spec w 0); [lia|].
  destruct ((left <? 0) || (w <? right)) eqn:Hwrap.
  - unfold wraparound_compose, wraparound_parts. fold w.
    destruct (Z.ltb_spec left 0) as [Hneg|Hnn].
    + rewrite !crop_ok by lia. cbn [rbind]. rewrite new_ok by lia. cbn [rbind].
      intros [= <-]. rewrite getpixel_build by lia. cbn [width height build].
      repeat zcase.
      all: rewrite ?getpixel_build by lia.
      all: repeat zcase.
      all: rewrite ?getpixel_build by lia.
      all: try (rewrite Mneg by lia); try (rewrite Mmid by lia); f_equal; lia.
    + assert (Hover : w < right) by (destruct (Z.ltb_spec w right); [lia|discriminate]).
      rewrite !crop_ok by lia. cbn [rbind]. rewrite new_ok by lia. cbn [rbind].
      intros [= <-]. rewrite getpixel_build by lia. cbn [width height build].
      repeat zcase.
      all: rewrite ?getpixel_build by lia.
      all: repeat zcase.
      all: rewrite ?getpixel_build by lia.
      all: try (rewrite Mpos by lia); try (rewrite Mmid by lia); f_equal; lia.
  - apply orb_false_iff in Hwrap. destruct Hwrap as [H1 H2].
    apply Z.ltb_ge in H1, H2.
    unfold direct_crop. rewrite crop_ok by lia. intros [= <-].
    rewrite getpixel_build by lia. rewrite Mmid by lia. reflexivity.
Qed.

(** Rounding keeps the sign of what is not positive. *)
Lemma RN_nonpos (x : Q) : (x <= 0)%Q -> (RN x <= 0)%Q.
Proof.
  intros Hx. unfold RN. destruct (Qcompare x 0) eqn:Hc.
  - lra.
  - apply Qlt_alt in Hc. pose proof (round_pos_nonneg (- x) ltac:(lra)). lra.
  - apply Qgt_alt in Hc. lra.
Qed.

(** A field of view of at most 360 degrees gives a crop that is not wider
    than the panorama. *)
Lemma crop_w_fits (w fov : Z) : 0 <= w < 2 ^ 31 -> - 2 ^ 31 <= fov <= 360 -> crop_w w fov <= w.
Proof.
  intros Hw Hf. unfold crop_w.
  pose proof (of_int_exact w ltac:(lia)) as Ew.
  pose proof (of_int_exact fov ltac:(lia)) as Ef.
  assert (HW : (0 <= inject_Z w)%Q) by (apply (inject_Z_le 0); lia).
  destruct (Z.lt_ge_cases fov 0) as [Hneg|Hpos].
  - assert (HF : (inject_Z fov <= 0)%Q) by (apply (inject_Z_le fov 0); lia).
    assert (Hq : (fdiv (of_int fov) 360 <= 0)%Q).
    { apply RN_nonpos. rewrite Ef. q_consts. lra. }
    assert (Hp : (fmul (fdiv (of_int fov) 360) (of_int w) <= 0)%Q).
    { apply RN_nonpos. rewrite Ew. remember (fdiv (of_int fov) 360) as q. nra. }
    destruct (to_int_bounds (fmul (fdiv (of_int fov) 360) (of_int w))
                (Qfloor (fmul (fdiv (of_int fov) 360) (of_int w))) 0) as [_ Hb];
      [apply Qfloor_le | exact Hp | lia].
  - assert (HF0 : (0 <= inject_Z fov)%Q) by (apply (inject_Z_le 0); lia).
    assert (HF1 : (inject_Z fov <= 360)%Q) by (apply (inject_Z_le fov 360); lia).
    destruct (RN_bounds (of_int fov / 360) 0 2) as [Q0 Q1];
      [lia | lia | rewrite Ef; q_consts; lra | rewrite Ef; q_consts; lra |].
    change (inject_Z 0) with 0%Q in Q0. change (inject_Z 2) with 2%Q in Q1.
    fold (fdiv (of_int fov) 360) in Q0, Q1.
    remember (fdiv (of_int fov) 360) as q eqn:Dq. clear Dq.
    destruct (RN_bounds (q * of_int w) 0 (2 * w)) as [P0 P1];
      [lia | lia | rewrite Ew; change (inject_Z 0) with 0%Q; nra
       | rewrite Ew, inject_Z_mult; change (inject_Z 2) with 2%Q; nra |].
    rewrite inject_Z_mult in P1. change (inject_Z 2) with 2%Q in P1.
    fold (fmul q (of_int w)) in P0, P1.
    destruct (to_int_bounds (fmul q (of_int w)) 0 w) as [_ Hb]; [|lra|exact Hb].
    change (inject_Z 0) with 0%Q. change (inject_Z 0) with 0%Q in P0. lra.
Qed.

(** A box that is not larger than an image within Pillow's limit is
    within the limit. *)
Lemma box_within_limit (x0 y0 x1 y1 w h : Z) :
  1 <= w -> 1 <= h -> w * h <= 2 * MAX_IMAGE_PIXELS ->
  Z.abs (x1 - x0) <= w -> Z.abs (y1 - y0) <= h ->
  decompression_bomb (x0, y0, x1, y1) = false.
Proof.
  intros Hw Hh Hlimit Hx Hy. unfold decompression_bomb, box_pixels.
  apply Z.ltb_ge. etransitivity; [|exact Hlimit].
  apply Z.mul_le_mono_nonneg; lia.
Qed.

(** X2: on a panorama within Pillow's size limit, with heading and field of
    view in the range of a C int, the field of view at most 360 and the
    pitch between the poles, no box of the crop is refused for its size,
    and [_crop_panorama] raises exactly when the crop width is negative
    (a negative field of view): it raises if and only if [crop_w < 0],
    and what it raises is the [ValueError] of Pillow's [crop] on the
    inverted box.  In the hi-res fetcher that exception is caught heading
    by heading: the heading gets a failure result and no file is
    written. *)
Theorem crop_raises_iff_negative_width (img : Image) (heading pitch fov : Z) :
  panorama_size img -> 0 < height img ->
  width img * height img <= 2 * MAX_IMAGE_PIXELS ->
  - 2 ^ 31 <= heading < 2 ^ 31 -> -90 <= pitch <= 90 -> - 2 ^ 31 <= fov <= 360 ->
  let w := width img in
  let h := height img in
  (0 <= crop_w w fov ->
   Forall (fun box => decompression_bomb box = false) (crop_boxes w h heading pitch fov))
  /\ ((exists e, crop_panorama img heading pitch fov = Raise e) <-> crop_w w fov < 0)
  /\ (forall e, crop_panorama img heading pitch fov = Raise e -> exn_kind e = ValueError)
  /\ (crop_w w fov < 0 ->
      forall env pano location_id output_dir world0,
      exists msg,
        hires_heading env pano img location_id output_dir pitch fov heading world0
        = (mkWorld (files world0) (trace world0 ++ [CropCall heading pitch fov]),
           Ok [mkImageResult (pano_lat pano) (pano_lon pano) heading pitch false None
                 (Some msg)])).
Proof.
  intros [[Hw Hw'] Hh] Hh0 Hlimit Hhd Hp Hfov w h. fold w in Hw, Hw', Hlimit.
  fold h in Hh, Hh0, Hlimit.
  pose proof (center_x_range w heading Hw) as Hcx.
  pose proof (center_y_range h pitch Hh Hp) as Hcy.
  pose proof (crop_w_fits w fov ltac:(lia) Hfov) as Hfit.
  assert (Hneg : crop_w w fov < 0 ->
            exists e, crop_panorama img heading pitch fov = Raise e
                      /\ exn_kind e = ValueError).
  { intros Hcw.
    assert (Hk : crop_w w fov / 2 < 0) by (apply Z.div_lt_upper_bound; lia).
    unfold crop_panorama. fold w. destruct (Z.eqb_spec w 0); [lia|].
    unfold crop_left, crop_right.
    destruct (Z.ltb_spec (center_x w heading - crop_w w fov / 2) 0); [lia|].
    destruct (Z.ltb_spec w (center_x w heading + crop_w w fov / 2)); [lia|].
    cbn [orb]. unfold direct_crop, crop.
    destruct (Z.ltb_spec (center_x w heading + crop_w w fov / 2)
                         (center_x w heading - crop_w w fov / 2)); [|lia].
    eexists. split; reflexivity. }
  assert (Hpos : 0 <= crop_w w fov -> exists out, crop_panorama img heading pitch fov = Ok out).
  { intros Hcw.
    assert (Hk : 0 <= crop_w w fov / 2) by (apply Z.div_pos; lia).
    destruct (crop_panorama_ok img heading pitch fov) as (out & Hout & _);
      [exact Hw | exact Hcw | |eauto].
    unfold crop_top, crop_bottom, crop_h. fold w h. lia. }
  split; [|split; [|split]].
  - intros Hcw.
    assert (Hk : 0 <= crop_w w fov / 2) by (apply Z.div_pos; lia).
    pose proof (Z.mul_div_le (crop_w w fov) 2 ltac:(lia)) as Hk2.
    unfold crop_boxes, crop_left, crop_right, crop_top, crop_bottom, crop_h.
    set (k := crop_w w fov / 2) in *. set (cx := center_x w heading) in *.
    set (cy := center_y h pitch) in *.
    destruct (Z.ltb_spec (cx - k) 0); cbn [orb].
    { repeat constructor; apply (box_within_limit _ _ _ _ w h); lia. }
    destruct (Z.ltb_spec w (cx + k)).
    { repeat constructor; apply (box_within_limit _ _ _ _ w h); lia. }
    repeat constructor; apply (box_within_limit _ _ _ _ w h); lia.
  - split.
    + intros [e He]. destruct (Z.lt_ge_cases (crop_w w fov) 0) as [Hlt|Hge]; [exact Hlt|].
      destruct (Hpos Hge) as [out Hout]. congruence.
    + intros Hcw. destruct (Hneg Hcw) as (e & He & _). eauto.
  - intros e He. destruct (Z.lt_ge_cases (crop_w w fov) 0) as [Hlt|Hge].
    + destruct (Hneg Hlt) as (e' & He' & Hkind). congruence.
    + destruct (Hpos Hge) as [out Hout]. congruence.
  - intros Hcw env pano lid output_dir world0.
    destruct (Hneg Hcw) as (e & He & _).
    exists (str_exn e). rewrite hires_heading_cases, He. reflexivity.
Qed.

(** X3: whole turns do not matter: for a heading whose exact column
    heading*w/360 is not an integer, or which is a multiple of 90 (the
    default headings), adding any number of full turns gives the same
    centre column and the same crop. *)
Theorem heading_is_taken_modulo_360 (img : Image) (heading turns pitch fov : Z) :
  panorama_size img ->
  0 <= heading -> 0 <= turns -> heading + 360 * turns < 2 ^ 16 ->
  (heading * width img) mod 360 <> 0 \/ heading mod 90 = 0 ->
  let w := width img in
  center_x w (heading + 360 * turns) = center_x w heading
  /\ center_x w heading = (heading * w / 360) mod w
  /\ crop_panorama img (heading + 360 * turns) pitch fov
     = crop_panorama img heading pitch fov.
Proof.
  intros [[Hw Hw'] Hh] Hhd Ht Hbound Hside w. fold w in Hw, Hw', Hside.
  assert (Hfloor : forall a, 0 <= a < 2 ^ 16 ->
            (a * w) mod 360 <> 0 \/ a mod 90 = 0 ->
            center_x w a = (a * w / 360) mod w).
  { intros a Ha [Hr|Hq]; unfold center_x.
    - pose proof (scale_floor a 360 w ltac:(lia) ltac:(lia) ltac:(lia) Hr) as E.
      change (inject_Z 360) with 360%Q in E. now rewrite E.
    - pose proof (Z.div_mod a 90 ltac:(lia)) as Hdm. rewrite Hq, Z.add_0_r in Hdm.
      assert (Hc : 0 <= a / 90 < 2 ^ 16).
      { split; [apply Z.div_pos; lia|]. apply Z.div_lt_upper_bound; lia. }
      rewrite Hdm at 1. rewrite (scale_quarters (a / 90) w) by lia.
      now rewrite <- Hdm. }
  assert (Hside' : ((heading + 360 * turns) * w) mod 360 <> 0
                   \/ (heading + 360 * turns) mod 90 = 0).
  { destruct Hside as [Hr|Hq]; [left|right].
    - replace ((heading + 360 * turns) * w) with (heading * w + turns * w * 360) by ring.
      now rewrite Z.mod_add by lia.
    - replace (heading + 360 * turns) with (heading + 4 * turns * 90) by ring.
      now rewrite Z.mod_add by lia. }
  assert (Hsame : center_x w (heading + 360 * turns) = center_x w heading).
  { rewrite (Hfloor (heading + 360 * turns)) by (try lia; exact Hside').
    rewrite (Hfloor heading) by (try lia; exact Hside).
    replace ((heading + 360 * turns) * w) with (heading * w + turns * w * 360) by ring.
    rewrite Z.div_add by lia.
    replace (heading * w / 360 + turns * w) with (heading * w / 360 + turns * w) by ring.
    now rewrite Z.mod_add by lia. }
  split; [exact Hsame|]. split; [apply Hfloor; [lia|exact Hside]|].
  unfold crop_panorama, crop_left, crop_right. fold w. now rewrite Hsame.
Qed.

(** X4: a level crop is square: at pitch 0, when the crop width is even and
    at most the height of the panorama (so at most its width), the window
    touches neither the top nor the bottom edge, and the output is
    [crop_w] wide and [crop_w] high, whatever the heading. *)
Theorem level_crop_is_square (img : Image) (heading fov : Z) :
  panorama_size img -> 0 <= fov ->
  let w := width img in
  let h := height img in
  Z.even (crop_w w fov) = true -> crop_w w fov <= h ->
  crop_top w h 0 fov = h / 2 - crop_w w fov / 2
  /\ crop_bottom w h 0 fov = h / 2 + crop_w w fov / 2
  /\ exists out,
       crop_panorama img heading 0 fov = Ok out
       /\ width out = crop_w w fov /\ height out = crop_w w fov.
Proof.
  intros [[Hw Hw'] Hh] Hfov w h Heven Hfit. fold w in Hw, Hw'. fold h in Hh.
  pose proof (crop_w_nonneg w fov ltac:(lia) Hfov) as Hcw.
  pose proof (center_y_level h Hh) as Hcy.
  apply Z.even_spec in Heven. destruct Heven as [c Hc].
  assert (Hk : crop_w w fov / 2 = c) by (rewrite Hc, Z.mul_comm; apply Z.div_mul; lia).
  pose proof (Z.mul_div_le h 2 ltac:(lia)) as Hh2.
  pose proof (Z.mul_succ_div_gt h 2 ltac:(lia)) as Hh2'.
  assert (Htop : crop_top w h 0 fov = h / 2 - crop_w w fov / 2).
  { unfold crop_top, crop_h. rewrite Hcy. lia. }
  assert (Hbot : crop_bottom w h 0 fov = h / 2 + crop_w w fov / 2).
  { unfold crop_bottom, crop_h. rewrite Hcy. lia. }
  split; [exact Htop|]. split; [exact Hbot|].
  destruct (crop_panorama_ok img heading 0 fov) as (out & Hout & Hheight & Hwidth);
    [exact Hw | exact Hcw | fold w h; lia |].
  fold w h in Hheight, Hwidth. exists out. split; [exact Hout|]. split.
  - rewrite Hwidth. destruct (_ || _); [reflexivity|].
    unfold crop_left, crop_right. lia.
  - rewrite Hheight, Htop, Hbot. lia.
Qed.

End CropWindow.

Lemma crop_is_a_window_on_the_cylinder_witness :
  exists out,
    crop_panorama pano16 0 0 90 = Ok out
    /\ PIL.getpixel out 0 0 = (14, 2, 0) /\ PIL.getpixel out 3 3 = (1, 5, 0).
Proof.
  destruct (crop_panorama pano16 0 0 90) as [out|e] eqn:Hout;
    [|vm_compute in Hout; discriminate Hout].
  exists out. split; [reflexivity|].
  pose proof (crop_is_a_window_on_the_cylinder pano16 0 0 90 out
                ltac:(vm_compute; reflexivity) ltac:(vm_compute; discriminate) Hout) as Hpix.
  split.
  - rewrite (Hpix 0 0) by (vm_compute; split; congruence). vm_compute. reflexivity.
  - rewrite (Hpix 3 3) by (vm_compute; split; congruence). vm_compute. reflexivity.
Defined.

Lemma crop_raises_iff_negative_width_witness :
  crop_w 16 (-90) = -4
  /\ (exists e, crop_panorama pano16 180 0 (-90) = Raise e)
  /\ Forall (fun box => PIL.decompression_bomb box = false) (crop_boxes 16 8 0 0 90)
  /\ exists msg,
       hires_heading hires_service sample_pano pano16 "loc_00003" "img" 0 (-90) 180
         empty_world
       = (mkWorld ∅ [CropCall 180 0 (-90)],
          Ok [mkImageResult (28 # 1) (77 # 1) 180 0 false None (Some msg)]).
Proof.
  assert (Hsize : panorama_size pano16) by (unfold panorama_size; cbn; lia).
  destruct (crop_raises_iff_negative_width pano16 180 0 (-90) Hsize
              ltac:(cbn; lia) ltac:(vm_compute; discriminate) ltac:(lia) ltac:(lia) ltac:(lia))
    as (_ & Hiff & _ & Hfetch).
  destruct (crop_raises_iff_negative_width pano16 0 0 90 Hsize
              ltac:(cbn; lia) ltac:(vm_compute; discriminate) ltac:(lia) ltac:(lia) ltac:(lia))
    as (Hboxes & _).
  assert (Hcw : crop_w (PIL.width pano16) (-90) < 0) by (vm_compute; reflexivity).
  split; [vm_compute; reflexivity|]. split; [apply Hiff, Hcw|].
  split; [apply Hboxes; vm_compute; discriminate|].
  exact (Hfetch Hcw hires_service sample_pano "loc_00003" "img" empty_world).
Defined.

Lemma level_crop_is_square_witness :
  exists out,
    crop_panorama pano16 45 0 90 = Ok out /\ PIL.width out = 4 /\ PIL.height out = 4.
Proof.
  assert (Hsize : panorama_size pano16) by (unfold panorama_size; cbn; lia).
  destruct (level_crop_is_square pano16 45 90 Hsize ltac:(lia)
              ltac:(vm_compute; reflexivity) ltac:(vm_compute; discriminate))
    as (_ & _ & out & Hout & Hwidth & Hheight).
  exists out. split; [exact Hout|]. split.
  - rewrite Hwidth. vm_compute. reflexivity.
  - rewrite Hheight. vm_compute. reflexivity.
Defined.

Lemma heading_is_taken_modulo_360_witness :
  center_x 16 (90 + 360 * 2) = center_x 16 90
  /\ center_x 16 90 = 4
  /\ crop_panorama pano16 (90 + 360 * 2) 0 90 = crop_panorama pano16 90 0 90.
Proof.
  assert (Hsize : panorama_size pano16) by (unfold panorama_size; cbn; lia).
  destruct (heading_is_taken_modulo_360 pano16 90 2 0 90 Hsize
              ltac:(lia) ltac:(lia) ltac:(lia) ltac:(right; reflexivity))
    as (Hc & Hx & Hcrop).
  split; [exact Hc|]. split; [|exact Hcrop].
  change (center_x 16 90) with (center_x (PIL.width pano16) 90). rewrite Hx.
  vm_compute. reflexivity.
Defined.

(* ================================================================== *)
(** * Part VI: further properties of the client                        *)
(* ================================================================== *)

(** ** The rate limiter *)

Section RateLimit.
Import Float64 Float64Facts.
Local Open Scope Q_scope.





End RateLimit.


(** A rate limit of 10^20 seconds makes the wait raise. *)
Example absurd_rate_limit_overflows :
  wait_for_rate_limit (mkClient "key" 100000000000000000000) 0 1700000000 1700000000
  = Raise (Exn OverflowError "timestamp too large to convert to C _PyTime_t").
Proof. vm_compute. reflexivity. Qed.

(** ** The API key *)

Section ClientFacts.
Variable env : environment.

Lemma truthy_spec (s : option string) :
  truthy s = true <-> exists c k, s = Some (String c k).
Proof.
  destruct s as [[|c k]|]; cbn; split; try discriminate; eauto.
  - intros (c & k & [=]).
  - intros (c & k & [=]).
Qed.

(** X6: the client is built from the [api_key] argument when it is a
    non-empty string, otherwise from the environment variable when that
    is a non-empty string (an argument that is the empty string counts as
    absent); with neither, [__init__] raises [ValueError], and so do the
    two batches that build a client, before any request and without
    touching a file, even on an empty table of locations. *)
Theorem client_needs_an_api_key (key : option string) (rate : Q) :
  (forall c k, key = Some (String c k) ->
     StreetViewClient_init env key rate = Ok (mkClient (String c k) rate))
  /\ (truthy key = false -> forall c k, getenv_api_key env = Some (String c k) ->
      StreetViewClient_init env key rate = Ok (mkClient (String c k) rate))
  /\ (truthy key = false -> truthy (getenv_api_key env) = false ->
      exists e,
        StreetViewClient_init env key rate = Raise e /\ exn_kind e = ValueError
        /\ (forall locations output_path w,
              check_coverage_batch env locations output_path key rate w = (w, Raise e))
        /\ (forall locations output_dir headings p skip_existing w,
              download_images_batch env locations output_dir headings p key rate
                skip_existing w = (w, Raise e))).
Proof.
  split; [|split].
  - intros c k ->. reflexivity.
  - intros Hkey c k Henv. unfold StreetViewClient_init. now rewrite Hkey, Henv.
  - intros Hkey Henv.
    assert (Hinit : exists e, StreetViewClient_init env key rate = Raise e
                              /\ exn_kind e = ValueError).
    { unfold StreetViewClient_init. rewrite Hkey.
      destruct (getenv_api_key env) as [[|c k]|]; try discriminate; eauto. }
    destruct Hinit as (e & Hinit & Hkind). exists e.
    split; [exact Hinit|]. split; [exact Hkind|]. split.
    + intros locations output_path w.
      unfold check_coverage_batch, bind, lift. now rewrite Hinit.
    + intros locations output_dir headings p skip_existing w.
      unfold download_images_batch, bind, lift. now rewrite Hinit.
Qed.

End ClientFacts.

Lemma client_needs_an_api_key_witness :
  StreetViewClient_init image_service (Some "key") (1 # 10) = Ok sample_client
  /\ exists e,
       StreetViewClient_init image_service (Some EmptyString) (1 # 10) = Raise e
       /\ exn_kind e = ValueError
       /\ check_coverage_batch image_service three_locations (Some "coverage.csv")
            (Some EmptyString) (1 # 10) empty_world = (empty_world, Raise e).
Proof.
  destruct (client_needs_an_api_key image_service (Some "key") (1 # 10)) as (Harg & _ & _).
  destruct (client_needs_an_api_key image_service (Some EmptyString) (1 # 10))
    as (_ & _ & Hnone).
  split; [exact (Harg _ _ eq_refl)|].
  destruct (Hnone eq_refl eq_refl) as (e & Hinit & Hkind & Hcov & _).
  exists e. split; [exact Hinit|]. split; [exact Hkind|]. apply Hcov.
Defined.

(** ** The two requests of the client *)

Section RequestFacts.
Variable env : environment.

Lemma file_writes_app (t1 t2 : list event) :
  file_writes (t1 ++ t2) = file_writes t1 ++ file_writes t2.
Proof. unfold file_writes. apply flat_map_app. Qed.

(** X7: [check_coverage], once its rate-limit wait has returned, sends
    exactly one metadata request and never touches a file.  It raises
    exactly when the request fails in
    transport, or the answer has a 4xx/5xx status, or its body is not
    JSON, or its body is JSON but not an object.  In the first three
    cases it raises a [RequestException]; in the last one the
    [AttributeError] of [data.get], which is no [RequestException].
    Every other answer (also a 1xx or 3xx status) gives a result, whose
    [pano_id] and [capture_date] are the fields pano_id and date of the
    body, [None] when absent. *)
Theorem check_coverage_sends_one_request (client : StreetViewClient) (lat lon : Q)
    (w : world) :
  let req := MetadataRequest lat lon (api_key client) in
  let outcome := check_coverage env client lat lon w in
  fst outcome = mkWorld (files w) (trace w ++ [HttpGet req])
  /\ ((exists e, snd outcome = Raise e)
      <-> (exists msg, requests_get env (trace w) req = Failed msg)
          \/ (exists response, requests_get env (trace w) req = Replied response
                /\ (400 <= status_code response < 600
                    \/ (exists msg, content response = NotJson msg)
                    \/ (exists type_name, content response = JsonValue type_name))))
  /\ (forall e, snd outcome = Raise e ->
        exn_kind e = RequestException
        \/ (exn_kind e = AttributeError
            /\ exists response type_name,
                 requests_get env (trace w) req = Replied response
                 /\ ~ 400 <= status_code response < 600
                 /\ content response = JsonValue type_name))
  /\ (forall response data,
        requests_get env (trace w) req = Replied response ->
        ~ 400 <= status_code response < 600 ->
        content response = JsonObject data ->
        exists r, snd outcome = Ok r
          /\ cr_pano_id r = default PyNone (data !! "pano_id")
          /\ capture_date r = default PyNone (data !! "date")
          /\ status r = default (PyStr "UNKNOWN") (data !! "status")).
Proof.
  intros req outcome. unfold outcome. rewrite check_coverage_reply. fold req. cbn [fst snd].
  split; [reflexivity|].
  destruct (requests_get env (trace w) req) as [msg|response] eqn:Hreply.
  { split; [|split].
    - split; [intros _; left; eauto|intros _; eauto].
    - intros e [= <-]. now left.
    - intros response data [=]. }
  destruct (decide (400 <= status_code response < 600)) as [Hcode|Hcode].
  { destruct (raise_for_status_raises response Hcode) as [msg ->]. cbn [rbind].
    split; [|split].
    - split; [intros _; right; exists response|eauto].
      split; [reflexivity|now left].
    - intros e [= <-]. now left.
    - intros r data [= <-] Hnot. contradiction. }
  rewrite (raise_for_status_ok response Hcode). cbn [rbind]. unfold json.
  destruct (content response) as [data|type_name|msg] eqn:Hbody; cbn [rbind get_method].
  - split; [|split].
    + split; [intros [e [=]]|].
      intros [[msg [=]]|(r & [= <-] & [Hc|[[msg Hc]|[t Hc]]])];
        [contradiction|congruence|congruence].
    + intros e [=].
    + intros r d [= <-] _ Hd. rewrite Hbody in Hd. injection Hd as <-.
      eexists. split; [reflexivity|]. now cbn.
  - split; [|split].
    + split; [intros _; right; exists response; split; [reflexivity|]|eauto].
      right. right. eauto.
    + intros e [= <-]. right. split; [reflexivity|]. exists response, type_name. now repeat split.
    + intros r d [= <-] _ Hd. congruence.
  - split; [|split].
    + split; [intros _; right; exists response; split; [reflexivity|]|eauto].
      right. left. eauto.
    + intros e [= <-]. now left.
    + intros r d [= <-] _ Hd. congruence.
Qed.


End RequestFacts.

Lemma check_coverage_sends_one_request_witness :
  fst (check_coverage flaky_service sample_client 2 77 empty_world)
  = mkWorld ∅ [HttpGet (MetadataRequest 2 77 "key")]
  /\ (exists e, snd (check_coverage flaky_service sample_client 2 77 empty_world) = Raise e)
  /\ exists r, snd (check_coverage flaky_service sample_client 5 72 empty_world) = Ok r
       /\ cr_pano_id r = PyNone.
Proof.
  destruct (check_coverage_sends_one_request flaky_service sample_client 2 77 empty_world)
    as (Hworld & Hraise & _).
  destruct (check_coverage_sends_one_request flaky_service sample_client 5 72 empty_world)
    as (_ & _ & _ & Hok).
  split; [exact Hworld|]. split.
  - apply Hraise. left. exists "Read timed out.". reflexivity.
  - destruct (Hok (json_response metadata_zero_results) metadata_zero_results
                eq_refl ltac:(cbn; lia) eq_refl) as (r & Hr & Hid & _).
    exists r. split; [exact Hr|]. rewrite Hid. vm_compute. reflexivity.
Defined.


(* ================================================================== *)
(** * Part VII: further properties of the fetchers and of the batches  *)
(* ================================================================== *)

(** ** Loops, once more *)

Section LoopInvariants.
Context {A B : Type}.
Variable body : A -> M (list B).

(** A relation between worlds that every turn of the loop keeps, whether
    the turn returns or raises, holds between the start of the loop and
    its end. *)
Lemma for_each_preserves (I : world -> world -> Prop) (items : list A) :
  (forall w, I w w) -> (forall a b c, I a b -> I b c -> I a c) ->
  (forall item w, In item items -> I w (fst (body item w))) ->
  forall acc w, I w (fst (for_each body items acc w)).
Proof.
  intros Hrefl Htrans. induction items as [|item rest IH]; intros Hbody acc w.
  - apply Hrefl.
  - cbn [for_each]. unfold bind.
    pose proof (Hbody item w ltac:(now left)) as Hstep.
    destruct (body item w) as [w1 [rs|e]]; cbn [fst] in *.
    + apply (Htrans _ w1); [exact Hstep|]. apply IH. intros i w0 Hi. apply Hbody. now right.
    + exact Hstep.
Qed.

(** What the rows of the result are, from what each turn returns. *)
Lemma for_each_records {C : Type} (Q : gset string -> B -> Prop) (proj : B -> C)
    (g : A -> list C) (items : list A) :
  (forall fs fs' b, fs ⊆ fs' -> Q fs b -> Q fs' b) ->
  (forall item w, In item items -> files w ⊆ files (fst (body item w))) ->
  (forall item w w' rs, In item items -> body item w = (w', Ok rs) ->
     Forall (Q (files w')) rs /\ map proj rs = g item) ->
  forall w w' rs, for_each body items [] w = (w', Ok rs) ->
    Forall (Q (files w')) rs /\ map proj rs = flat_map g items.
Proof.
  intros Hmono. induction items as [|item rest IH]; intros Hfiles Hbody w w' rs.
  - cbn. intros [= _ <-]. split; [constructor|reflexivity].
  - rewrite for_each_cons.
    destruct (body item w) as [w1 [rs0|e]] eqn:Hitem; [|discriminate].
    destruct (for_each body rest [] w1) as [w2 [rs1|e]] eqn:Hrest; [|discriminate].
    intros [= <- <-].
    destruct (Hbody item w w1 rs0 ltac:(now left) Hitem) as [HQ0 Hp0].
    destruct (IH ltac:(intros i w0 Hi; apply Hfiles; now right)
                 ltac:(intros i w0 w3 rs2 Hi; apply Hbody; now right)
                 w1 w2 rs1 Hrest) as [HQ1 Hp1].
    assert (Hsub : files w1 ⊆ files w2).
    { pose proof (for_each_preserves (fun a b => files a ⊆ files b) rest) as H.
      cbn beta in H. specialize (H ltac:(intros ?; reflexivity)).
      specialize (H ltac:(intros a b c ? ?; now transitivity (files b))).
      specialize (H ltac:(intros i w0 Hi; apply Hfiles; now right) [] w1).
      now rewrite Hrest in H. }
    split.
    + apply Forall_app. split; [|exact HQ1].
      eapply Forall_impl; [exact HQ0|]. intros b. now apply Hmono.
    + cbn [flat_map]. now rewrite map_app, Hp0, Hp1.
Qed.

(** What the loop adds to an observation of the trace, from what each
    turn adds. *)
Lemma for_each_observed {X : Type} (obs : list event -> list X) (f : A -> list X)
    (items : list A) :
  (forall item w w' rs, In item items -> body item w = (w', Ok rs) ->
     obs (trace w') = obs (trace w) ++ f item) ->
  forall w w' rs, for_each body items [] w = (w', Ok rs) ->
    obs (trace w') = obs (trace w) ++ flat_map f items.
Proof.
  induction items as [|item rest IH]; intros Hbody w w' rs.
  - cbn. intros [= <- _]. now rewrite app_nil_r.
  - rewrite for_each_cons.
    destruct (body item w) as [w1 [rs0|e]] eqn:Hitem; [|discriminate].
    destruct (for_each body rest [] w1) as [w2 [rs1|e]] eqn:Hrest; [|discriminate].
    intros [= <- _].
    rewrite (IH ltac:(intros i w0 w3 rs2 Hi; apply Hbody; now right) w1 w2 rs1 Hrest).
    rewrite (Hbody item w w1 rs0 ltac:(now left) Hitem).
    cbn [flat_map]. now rewrite app_assoc.
Qed.

(** A loop that raises raises in one of its turns. *)
Lemma for_each_raises (items : list A) (acc : list B) (w w' : world) (e : exn) :
  for_each body items acc w = (w', Raise e) ->
  exists item w0, In item items /\ body item w0 = (w', Raise e).
Proof.
  revert acc w. induction items as [|item rest IH]; intros acc w.
  - discriminate.
  - cbn [for_each]. unfold bind.
    destruct (body item w) as [w1 [rs|e']] eqn:Hitem.
    + intros Hrest. destruct (IH _ _ Hrest) as (i & w0 & Hi & Hrun).
      exists i, w0. split; [now right|exact Hrun].
    + intros [= <- <-]. exists item, w. split; [now left|exact Hitem].
Qed.

End LoopInvariants.

Lemma flat_map_constant_length {A B} (f : A -> list B) (n : nat) (items : list A) :
  (forall item, length (f item) = n) ->
  length (flat_map f items) = (length items * n)%nat.
Proof.
  intros Hf. induction items as [|item rest IH]; [reflexivity|].
  cbn [flat_map]. rewrite length_app, Hf, IH. reflexivity.
Qed.

(** ** Steps that send no request *)

Lemma offline_step_refl (allowed : list string) (w : world) : offline_step allowed w w.
Proof.
  split; [done|]. split; [reflexivity|]. exists []. split; [now rewrite app_nil_r|constructor].
Qed.

Lemma offline_step_trans (allowed : list string) (a b c : world) :
  offline_step allowed a b -> offline_step allowed b c -> offline_step allowed a c.
Proof.
  intros (F1 & H1 & wr1 & W1 & A1) (F2 & H2 & wr2 & W2 & A2).
  split; [now transitivity (files b)|]. split; [now rewrite H2|].
  exists (wr1 ++ wr2). split; [now rewrite W2, W1, app_assoc|].
  apply Forall_app. now split.
Qed.

Lemma offline_step_weaken (allowed allowed' : list string) (w w' : world) :
  (forall f, In f allowed -> In f allowed') ->
  offline_step allowed w w' -> offline_step allowed' w w'.
Proof.
  intros Hincl (F & H & wr & W & Hall). split; [exact F|]. split; [exact H|].
  exists wr. split; [exact W|]. eapply Forall_impl; [exact Hall|]. exact Hincl.
Qed.

(** Adding events that are neither requests nor file writes. *)
Lemma offline_step_events (allowed : list string) (w : world) (events : list event) :
  http_requests events = [] -> file_writes events = [] ->
  offline_step allowed w (mkWorld (files w) (trace w ++ events)).
Proof.
  intros Hh Hf. split; [done|]. cbn [trace].
  split; [now rewrite http_requests_app, Hh, app_nil_r|].
  exists []. split; [now rewrite file_writes_app, Hf|constructor].
Qed.

Section HiresFootprint.
Variable env : environment.

Lemma panorama_lookups_app (t1 t2 : list event) :
  panorama_lookups (t1 ++ t2) = panorama_lookups t1 ++ panorama_lookups t2.
Proof. unfold panorama_lookups. apply flat_map_app. Qed.

Lemma panorama_fetches_app (t1 t2 : list event) :
  panorama_fetches (t1 ++ t2) = panorama_fetches t1 ++ panorama_fetches t2.
Proof. unfold panorama_fetches. apply flat_map_app. Qed.

(** One heading of the second loop: no request, no panorama lookup, at
    most the file of the heading written. *)
Lemma hires_heading_footprint (pano : Panorama) (pano_img : PIL.Image)
    (lid output_dir : string) (p fov h : Z) (w : world) :
  let w' := fst (hires_heading env pano pano_img lid output_dir p fov h w) in
  offline_step [path_join output_dir (image_filename lid h p)] w w'
  /\ panorama_lookups (trace w') = panorama_lookups (trace w)
  /\ panorama_fetches (trace w') = panorama_fetches (trace w).
Proof.
  cbn zeta. rewrite hires_heading_cases. cbn zeta.
  destruct (crop_panorama pano_img h p fov) as [cropped|e].
  - destruct (image_save env _ cropped _); cbn [fst].
    + split; [|split].
      * split; [done|]. cbn [trace].
        rewrite !http_requests_app, !file_writes_app. cbn. rewrite !app_nil_r.
        split; [reflexivity|]. eexists. split; [reflexivity|].
        constructor; [now left|constructor].
      * cbn [trace]. rewrite !panorama_lookups_app. cbn. now rewrite !app_nil_r.
      * cbn [trace]. rewrite !panorama_fetches_app. cbn. now rewrite !app_nil_r.
    + split; [|split].
      * split; [cbn [files]; intros f Hf; apply elem_of_union; now right|]. cbn [trace].
        rewrite !http_requests_app, !file_writes_app. cbn. rewrite !app_nil_r.
        split; [reflexivity|]. eexists. split; [reflexivity|].
        constructor; [now left|constructor].
      * cbn [trace]. rewrite !panorama_lookups_app. cbn. now rewrite !app_nil_r.
      * cbn [trace]. rewrite !panorama_fetches_app. cbn. now rewrite !app_nil_r.
  - cbn [fst]. split; [|split].
    + now apply offline_step_events.
    + cbn [trace]. rewrite !panorama_lookups_app. cbn. now rewrite !app_nil_r.
    + cbn [trace]. rewrite !panorama_fetches_app. cbn. now rewrite !app_nil_r.
Qed.

(** The first stage either fails in one of the four ways, or delivers
    the panorama and its bitmap. *)
Lemma stage1_cases (w : world) (pid : string) (zoom : Z) :
  (exists msg la lo events, stage1_failure env w pid zoom msg la lo events)
  \/ (exists pano pano_img,
        find_panorama_by_id env (trace w) pid = Ok (Some pano)
        /\ get_panorama env (trace w ++ [FindPanorama pid]) pano zoom = Ok (Some pano_img)).
Proof.
  destruct (find_panorama_by_id env (trace w) pid) as [[pano|]|e] eqn:Hfind.
  - destruct (get_panorama env (trace w ++ [FindPanorama pid]) pano zoom)
      as [[img|]|e] eqn:Hget.
    + right. eauto.
    + left. do 4 eexists. now apply (panorama_bitmap_missing env w pid zoom pano).
    + left. do 4 eexists. now apply (panorama_bitmap_raises env w pid zoom pano e).
  - left. do 4 eexists. now apply panorama_not_found.
  - left. do 4 eexists. now apply (panorama_lookup_raises env w pid zoom e).
Qed.

(** The second loop as a whole: no request, no panorama lookup, only
    files of the headings written. *)
Lemma hires_loop_footprint (pano : Panorama) (pano_img : PIL.Image)
    (lid output_dir : string) (p fov : Z) (hs : list Z) (w : world) :
  let w' := fst (for_each (hires_heading env pano pano_img lid output_dir p fov) hs [] w) in
  offline_step (expected_files output_dir lid hs p) w w'
  /\ panorama_lookups (trace w') = panorama_lookups (trace w)
  /\ panorama_fetches (trace w') = panorama_fetches (trace w).
Proof.
  cbn zeta.
  pose proof (for_each_preserves (hires_heading env pano pano_img lid output_dir p fov)
                (fun a b => offline_step (expected_files output_dir lid hs p) a b
                            /\ panorama_lookups (trace b) = panorama_lookups (trace a)
                            /\ panorama_fetches (trace b) = panorama_fetches (trace a))
                hs) as H.
  cbn beta in H. apply H; clear H.
  - intros w0. split; [apply offline_step_refl|]. split; reflexivity.
  - intros a b c (S1 & L1 & F1) (S2 & L2 & F2).
    split; [now apply (offline_step_trans _ a b c)|]. split; congruence.
  - intros h w0 Hh.
    destruct (hires_heading_footprint pano pano_img lid output_dir p fov h w0)
      as (Hstep & Hl & Hf).
    split; [|split; assumption].
    eapply offline_step_weaken; [|exact Hstep].
    intros f [<-|[]]. unfold expected_files. apply in_map_iff. eauto.
Qed.

(** The hi-res fetcher returns, one result per heading in order; a
    success carries the path of its heading, which then exists; the call
    sends no request and writes nothing but expected files. *)
Lemma download_location_hires_returns (pid lid output_dir : string)
    (headings : option (list Z)) (p fov zoom : Z) (w : world) :
  let hs := headings_or_default headings in
  exists w' results,
    download_location_hires env pid lid output_dir headings p fov zoom w = (w', Ok results)
    /\ map heading results = hs
    /\ Forall (fun r => pitch r = p
                 /\ if success r
                    then image_path r
                         = Some (path_join output_dir (image_filename lid (heading r) p))
                         /\ error r = None
                         /\ path_join output_dir (image_filename lid (heading r) p) ∈ files w'
                    else image_path r = None /\ exists msg, error r = Some msg)
              results
    /\ offline_step (expected_files output_dir lid hs p) w w'
    /\ panorama_lookups (trace w') = panorama_lookups (trace w) ++ [pid]
    /\ (length (panorama_fetches (trace w')) <= S (length (panorama_fetches (trace w))))%nat.
Proof.
  intros hs.
  destruct (stage1_cases w pid zoom)
    as [(msg & la & lo & events & Hfail) | (pano & img & Hfind & Hget)].
  - unfold download_location_hires, bind. fold hs.
    rewrite (resolve_panorama_failure env pid hs p zoom w msg la lo events Hfail).
    eexists. eexists. split; [reflexivity|].
    split; [unfold fail_all; rewrite map_map; cbn [heading]; apply map_id|].
    split.
    { unfold fail_all. apply List.Forall_forall. intros r Hr.
      apply in_map_iff in Hr. destruct Hr as (h & <- & _). cbn. eauto. }
    split; [apply offline_step_events; destruct Hfail; reflexivity|].
    cbn [trace]. rewrite panorama_lookups_app, panorama_fetches_app, length_app.
    destruct Hfail; cbn; (split; [reflexivity|lia]).
  - unfold download_location_hires, bind. fold hs.
    rewrite (resolve_panorama_success env pid hs p zoom w pano img Hfind Hget).
    set (w0 := mkWorld (files w) (trace w ++ [FindPanorama pid; GetPanorama pano zoom])).
    destruct (hires_loop_spec env pano img lid output_dir p fov hs w0)
      as (w' & results & Hrun & Hmap & _ & _ & Hall & Hin).
    destruct (hires_loop_footprint pano img lid output_dir p fov hs w0) as (Hstep & Hl & Hf).
    rewrite Hrun in Hstep, Hl, Hf. cbn [fst] in Hstep, Hl, Hf.
    exists w', results. split; [exact Hrun|]. split; [exact Hmap|].
    split.
    { apply List.Forall_forall. intros r Hr.
      rewrite List.Forall_forall in Hall, Hin.
      specialize (Hall r Hr). specialize (Hin r Hr).
      destruct Hall as (_ & _ & Hp & Hcase). split; [exact Hp|].
      destruct (crop_panorama img (heading r) p fov).
      - destruct Hcase as [(Hs & Hpath & Herr)|(t & e & _ & Hs & Hpath & Herr)]; rewrite Hs.
        + split; [exact Hpath|]. split; [exact Herr|]. now apply Hin.
        + split; [exact Hpath|]. eauto.
      - destruct Hcase as (Hs & Hpath & Herr). rewrite Hs. split; [exact Hpath|]. eauto. }
    split.
    { apply (offline_step_trans _ w w0 w'); [|exact Hstep].
      now apply offline_step_events. }
    rewrite Hl, Hf. unfold w0. cbn [trace].
    rewrite panorama_lookups_app, panorama_fetches_app, length_app. cbn.
    split; [reflexivity|lia].
Qed.

End HiresFootprint.

(** X9: the hi-res fetcher never raises.  It returns one result per heading,
    in order; a success carries the expected path of its heading, which
    exists afterwards, and a failure carries a message and no path.  The
    call sends no HTTP request, writes nothing but expected files, looks
    the panorama up exactly once and fetches its bitmap at most once,
    however many headings there are. *)
Theorem hires_fetcher_never_raises (env : environment) (pid lid output_dir : string)
    (headings : option (list Z)) (p fov zoom : Z) (w : world) :
  let hs := headings_or_default headings in
  exists w' results,
    download_location_hires env pid lid output_dir headings p fov zoom w = (w', Ok results)
    /\ map heading results = hs
    /\ Forall (fun r => pitch r = p
                 /\ if success r
                    then image_path r
                         = Some (path_join output_dir (image_filename lid (heading r) p))
                         /\ error r = None
                         /\ path_join output_dir (image_filename lid (heading r) p) ∈ files w'
                    else image_path r = None /\ exists msg, error r = Some msg)
              results
    /\ files w ⊆ files w'
    /\ http_requests (trace w') = http_requests (trace w)
    /\ (forall f, In f (file_writes (trace w')) ->
          In f (file_writes (trace w)) \/ In f (expected_files output_dir lid hs p))
    /\ panorama_lookups (trace w') = panorama_lookups (trace w) ++ [pid]
    /\ (length (panorama_fetches (trace w')) <= S (length (panorama_fetches (trace w))))%nat.
Proof.
  intros hs.
  destruct (download_location_hires_returns env pid lid output_dir headings p fov zoom w)
    as (w' & results & Hrun & Hmap & Hall & (Hfiles & Hhttp & written & Hw & Hexp) & Hl & Hf).
  exists w', results. split; [exact Hrun|]. split; [exact Hmap|]. split; [exact Hall|].
  split; [exact Hfiles|]. split; [exact Hhttp|]. split; [|split; assumption].
  intros f. rewrite Hw, in_app_iff. intros [Hold|Hnew]; [now left|right].
  rewrite List.Forall_forall in Hexp. now apply Hexp.
Qed.

(** ** One hi-res image *)

Section SingleImageFacts.
Variable env : environment.


End SingleImageFacts.


(** ** The hi-res batch *)

Section BatchRows.
Variable env : environment.

Lemma skip_check_cases (skip_existing : bool) (expected : list string) (w : world) :
  (skip_check skip_existing expected w = (w, Ok true)
   /\ skip_existing = true /\ all_present (files w) expected)
  \/ skip_check skip_existing expected w = (w, Ok false).
Proof.
  unfold skip_check, all_exist, ret. destruct skip_existing; [|now right].
  destruct (forallb _ expected) eqn:Hall; [left|now right].
  split; [reflexivity|]. split; [reflexivity|]. now apply all_exist_true.
Qed.

Lemma present_records_keys (output_dir : string) (p : Z) (row : Location) (hs : list Z) :
  map record_key (map (present_record output_dir p row) hs) = row_keys hs p row.
Proof. unfold row_keys. rewrite map_map. reflexivity. Qed.

Lemma present_records_on_disk (output_dir : string) (p : Z) (row : Location) (hs : list Z)
    (fs : gset string) :
  all_present fs (expected_files output_dir (location_id row) hs p) ->
  Forall (success_on_disk fs) (map (present_record output_dir p row) hs).
Proof.
  intros Hall. apply List.Forall_forall. intros d Hd.
  apply in_map_iff in Hd. destruct Hd as (h & <- & Hh). intros _.
  eexists. split; [reflexivity|]. apply Hall.
  unfold expected_files. apply in_map_iff. eauto.
Qed.

(** The records made from the results of a fetcher. *)
Lemma fetched_records (output_dir : string) (p : Z) (row : Location) (hs : list Z)
    (fs : gset string) (results : list ImageResult) :
  map heading results = hs ->
  Forall (fun r => pitch r = p
            /\ (success r = true ->
                image_path r
                = Some (path_join output_dir (image_filename (location_id row) (heading r) p))
                /\ path_join output_dir (image_filename (location_id row) (heading r) p) ∈ fs))
         results ->
  map record_key (map (download_record row) results) = row_keys hs p row
  /\ Forall (success_on_disk fs) (map (download_record row) results).
Proof.
  intros <- Hall. induction results as [|r rs IH]; [split; [reflexivity|constructor]|].
  apply Forall_cons in Hall. destruct Hall as [[Hp Hs] Hall].
  destruct (IH Hall) as [IHk IHd]. split.
  - cbn [map row_keys]. unfold row_keys in IHk. rewrite IHk.
    unfold record_key at 1, download_record at 1. cbn. now rewrite Hp.
  - cbn [map]. constructor; [|exact IHd].
    intros Hsucc. cbn in Hsucc. destruct (Hs Hsucc) as [Hpath Hin].
    eexists. split; [exact Hpath|exact Hin].
Qed.

(** A row of the hi-res batch: it returns, with one record per heading. *)
Lemma download_images_hires_row_returns (output_dir : string) (hs : list Z)
    (p fov zoom : Z) (skip_existing : bool) (row : Location) (w : world) :
  headings_or_default (Some hs) = hs ->
  exists w' rs,
    download_images_hires_row env output_dir hs p fov zoom skip_existing row w = (w', Ok rs)
    /\ map record_key rs = row_keys hs p row
    /\ Forall (success_on_disk (files w')) rs
    /\ offline_step (expected_files output_dir (location_id row) hs p) w w'.
Proof.
  intros Hhs. unfold download_images_hires_row.
  destruct (pano_id_missing (pano_id row)).
  { exists w. eexists. split; [reflexivity|]. split; [|split].
    - unfold row_keys. now rewrite map_map.
    - apply List.Forall_forall. intros d Hd. apply in_map_iff in Hd.
      destruct Hd as (h & <- & _). intros Hs. discriminate Hs.
    - apply offline_step_refl. }
  unfold bind at 1.
  destruct (skip_check_cases skip_existing
              (expected_files output_dir (location_id row) hs p) w)
    as [(-> & _ & Hall) | ->].
  - exists w. eexists. split; [reflexivity|]. rewrite skip_records_present.
    split; [apply present_records_keys|].
    split; [now apply present_records_on_disk|apply offline_step_refl].
  - unfold bind, ret.
    destruct (download_location_hires_returns env (default EmptyString (pano_id row))
                (location_id row) output_dir (Some hs) p fov zoom w)
      as (w' & results & -> & Hmap & Hres & Hstep & _).
    rewrite Hhs in Hmap, Hstep.
    exists w'. eexists. split; [reflexivity|].
    destruct (fetched_records output_dir p row hs (files w') results Hmap) as [Hk Hd].
    { eapply Forall_impl; [exact Hres|]. cbn beta. intros r [Hp Hcase].
      split; [exact Hp|]. intros Hs. rewrite Hs in Hcase.
      destruct Hcase as (Hpath & _ & Hin). now split. }
    split; [exact Hk|]. split; [exact Hd|exact Hstep].
Qed.

(** A row of the direct batch. *)
Lemma download_images_row_files (client : StreetViewClient) (output_dir : string)
    (hs : list Z) (p : Z) (skip_existing : bool) (row : Location) (w : world) :
  files w ⊆ files (fst (download_images_row env client output_dir hs p skip_existing row w)).
Proof.
  unfold download_images_row, bind at 1.
  destruct (skip_check_cases skip_existing
              (expected_files output_dir (location_id row) hs p) w)
    as [(-> & _ & _) | ->]; [reflexivity|].
  unfold bind, download_location_images.
  pose proof (for_each_preserves
                (fun heading =>
                   do result <- download_image env client (lat row) (lon row) heading
                                  (path_join output_dir
                                     (image_filename (location_id row) heading p))
                                  p 90 "640x640";
                   ret [result])
                (fun a b => files a ⊆ files b) (headings_or_default (Some hs))) as H.
  cbn beta in H. specialize (H ltac:(intros ?; reflexivity)).
  specialize (H ltac:(intros a b c ? ?; now transitivity (files b))).
  assert (Hstep : forall h w0, In h (headings_or_default (Some hs)) ->
            files w0 ⊆ files (fst ((do result <- download_image env client (lat row) (lon row) h
                                       (path_join output_dir
                                          (image_filename (location_id row) h p))
                                       p 90 "640x640";
                                     ret [result]) w0))).
  { intros h w0 _. unfold bind. rewrite download_image_cases. cbn zeta.
    destruct (requests_get env _ _) as [msg|response]; [reflexivity|].
    destruct (raise_for_status response) as [[]|e]; [|reflexivity].
    destruct (negb _); [reflexivity|].
    destruct (file_write env _ _); cbn [fst files ret].
    - destruct (write_creates env _ _); [|reflexivity].
      intros f Hf. apply elem_of_union. now right.
    - intros f Hf. apply elem_of_union. now right. }
  specialize (H Hstep [] w).
  destruct (for_each _ _ [] w) as [w1 [results|e]]; exact H.
Qed.

Lemma download_images_row_returns (client : StreetViewClient) (output_dir : string)
    (hs : list Z) (p : Z) (skip_existing : bool) (row : Location) (w w' : world)
    (rs : list DownloadRecord) :
  headings_or_default (Some hs) = hs ->
  download_images_row env client output_dir hs p skip_existing row w = (w', Ok rs) ->
  map record_key rs = row_keys hs p row /\ Forall (success_on_disk (files w')) rs.
Proof.
  intros Hhs. unfold download_images_row, bind at 1.
  destruct (skip_check_cases skip_existing
              (expected_files output_dir (location_id row) hs p) w)
    as [(-> & _ & Hall) | ->].
  - intros [= <- <-]. rewrite skip_records_present.
    split; [apply present_records_keys|now apply present_records_on_disk].
  - unfold bind, ret, download_location_images. rewrite Hhs.
    destruct (for_each _ hs [] w) as [w1 [results|e]] eqn:Hloop; [|discriminate].
    intros [= <- <-].
    destruct (images_loop_spec env _ _ _ _ _ _ _ _ _ _ Hloop) as (Hmap & _ & _ & Hok).
    apply (fetched_records output_dir p row hs (files w1) results Hmap).
    eapply Forall_impl; [exact Hok|]. cbn beta. intros r [Hp Hs].
    split; [exact Hp|]. intros Hsucc. destruct (Hs Hsucc) as (Hpath & _ & Hin). now split.
Qed.

Lemma download_images_row_requests (client : StreetViewClient) (output_dir : string)
    (hs : list Z) (p : Z) (row : Location) (w w' : world) (rs : list DownloadRecord) :
  headings_or_default (Some hs) = hs ->
  download_images_row env client output_dir hs p false row w = (w', Ok rs) ->
  http_requests (trace w')
  = http_requests (trace w)
    ++ map (fun h => ImageRequest (lat row) (lon row) h p 90 "640x640" (api_key client)) hs.
Proof.
  intros Hhs. unfold download_images_row, bind, skip_check, ret, download_location_images.
  rewrite Hhs.
  destruct (for_each _ hs [] w) as [w1 [results|e]] eqn:Hloop; [|discriminate].
  intros [= <- _].
  now destruct (images_loop_spec env _ _ _ _ _ _ _ _ _ _ Hloop) as (_ & Hreq & _).
Qed.

End BatchRows.

Lemma row_keys_length (hs : list Z) (p : Z) (row : Location) :
  length (row_keys hs p row) = length hs.
Proof. unfold row_keys. apply length_map. Qed.

Lemma success_on_disk_mono (fs fs' : gset string) (d : DownloadRecord) :
  fs ⊆ fs' -> success_on_disk fs d -> success_on_disk fs' d.
Proof. intros Hsub H Hs. destruct (H Hs) as (f & Hp & Hf). eauto. Qed.

(** The rows of the two batches, looped over. *)
Lemma hires_rows_records (env : environment) (output_dir : string) (hs : list Z)
    (p fov zoom : Z) (skip_existing : bool) (locations : list Location) (w w' : world)
    (records : list DownloadRecord) :
  headings_or_default (Some hs) = hs ->
  for_each (download_images_hires_row env output_dir hs p fov zoom skip_existing)
    locations [] w = (w', Ok records) ->
  Forall (success_on_disk (files w')) records
  /\ map record_key records = flat_map (row_keys hs p) locations.
Proof.
  intros Hidem.
  apply (for_each_records _ success_on_disk record_key (row_keys hs p) locations).
  - apply success_on_disk_mono.
  - intros row w0 _.
    destruct (download_images_hires_row_returns env output_dir hs p fov zoom skip_existing
                row w0 Hidem) as (w1 & rs & Hrow & _ & _ & Hstep & _).
    now rewrite Hrow.
  - intros row w0 w1 rs _ Hrow.
    destruct (download_images_hires_row_returns env output_dir hs p fov zoom skip_existing
                row w0 Hidem) as (w1' & rs' & Hrow' & Hk & Hd & _).
    rewrite Hrow' in Hrow. injection Hrow as <- <-. now split.
Qed.

Lemma direct_rows_records (env : environment) (client : StreetViewClient)
    (output_dir : string) (hs : list Z) (p : Z) (skip_existing : bool)
    (locations : list Location) (w w' : world) (records : list DownloadRecord) :
  headings_or_default (Some hs) = hs ->
  for_each (download_images_row env client output_dir hs p skip_existing)
    locations [] w = (w', Ok records) ->
  Forall (success_on_disk (files w')) records
  /\ map record_key records = flat_map (row_keys hs p) locations.
Proof.
  intros Hidem.
  apply (for_each_records _ success_on_disk record_key (row_keys hs p) locations).
  - apply success_on_disk_mono.
  - intros row w0 _. apply download_images_row_files.
  - intros row w0 w1 rs _ Hrow.
    destruct (download_images_row_returns env client output_dir hs p skip_existing row
                w0 w1 rs Hidem Hrow) as [Hk Hd]. now split.
Qed.

(** With skip-existing off, a row of the hi-res batch looks its panorama
    up once when it has an id, and not at all when it has none. *)
Lemma download_images_hires_row_lookups (env : environment) (output_dir : string)
    (hs : list Z) (p fov zoom : Z) (row : Location) (w w' : world)
    (rs : list DownloadRecord) :
  download_images_hires_row env output_dir hs p fov zoom false row w = (w', Ok rs) ->
  panorama_lookups (trace w')
  = panorama_lookups (trace w)
    ++ (if pano_id_missing (pano_id row) then [] else [default EmptyString (pano_id row)]).
Proof.
  unfold download_images_hires_row. destruct (pano_id_missing (pano_id row)).
  { intros [= <- _]. now rewrite app_nil_r. }
  unfold bind, skip_check, ret.
  destruct (download_location_hires_returns env (default EmptyString (pano_id row))
              (location_id row) output_dir (Some hs) p fov zoom w)
    as (w1 & results & -> & _ & _ & _ & Hl & _).
  now intros [= <- _].
Qed.

(** X11: when the hi-res batch returns, it has sent no HTTP request (it
    needs no API key) and has removed no file.  It returns one record
    per location and heading, in order (location by location, heading by
    heading), each carrying the location's own id, city and coordinates
    and the pitch of the batch; the path of every success record exists
    at the end, and only expected files have been written.  With
    skip-existing off, the panorama of every location that has an id has
    been looked up once, in order, whatever files exist. *)
Theorem hires_batch_records (env : environment) (locations : list Location)
    (output_dir : string) (headings : option (list Z)) (p fov zoom : Z)
    (skip_existing : bool) (w w' : world) (records : list DownloadRecord) :
  download_images_hires_batch env locations output_dir headings p fov zoom skip_existing w
  = (w', Ok records) ->
  let hs := headings_or_default headings in
  map record_key records = flat_map (row_keys hs p) locations
  /\ length records = (length locations * length hs)%nat
  /\ Forall (success_on_disk (files w')) records
  /\ files w ⊆ files w'
  /\ http_requests (trace w') = http_requests (trace w)
  /\ (forall f, In f (file_writes (trace w')) ->
        In f (file_writes (trace w))
        \/ exists row, In row locations
             /\ In f (expected_files output_dir (location_id row) hs p))
  /\ (skip_existing = false ->
      panorama_lookups (trace w')
      = panorama_lookups (trace w)
        ++ flat_map (fun row => if pano_id_missing (pano_id row) then []
                                else [default EmptyString (pano_id row)])
                    locations).
Proof.
  intros Hrun hs. revert Hrun. unfold download_images_hires_batch. fold hs.
  pose proof (headings_or_default_idem headings) as Hidem. fold hs in Hidem.
  set (body := download_images_hires_row env output_dir hs p fov zoom skip_existing).
  intros Hrun.
  destruct (hires_rows_records env output_dir hs p fov zoom skip_existing locations w w'
              records Hidem Hrun) as [Hdisk Hkeys].
  split; [exact Hkeys|]. split.
  { rewrite <- (length_map record_key), Hkeys.
    apply flat_map_constant_length. intros row. apply row_keys_length. }
  split; [exact Hdisk|].
  pose proof (for_each_preserves body
                (offline_step (flat_map (fun row => expected_files output_dir
                                                      (location_id row) hs p) locations))
                locations (offline_step_refl _) (offline_step_trans _)) as Hpres.
  assert (Hstep : forall row w0, In row locations ->
            offline_step (flat_map (fun row => expected_files output_dir
                                                 (location_id row) hs p) locations)
              w0 (fst (body row w0))).
  { intros row w0 Hrow.
    destruct (download_images_hires_row_returns env output_dir hs p fov zoom skip_existing
                row w0 Hidem) as (w1 & rs & Hr & _ & _ & Hstep).
    unfold body. rewrite Hr. cbn [fst].
    eapply offline_step_weaken; [|exact Hstep].
    intros f Hf. apply in_flat_map. eauto. }
  specialize (Hpres Hstep [] w). rewrite Hrun in Hpres. cbn [fst] in Hpres.
  destruct Hpres as (Hfiles & Hhttp & written & Hw & Hexp).
  split; [exact Hfiles|]. split; [exact Hhttp|]. split.
  { intros f. rewrite Hw, in_app_iff. intros [Hold|Hnew]; [now left|right].
    rewrite List.Forall_forall in Hexp. specialize (Hexp f Hnew).
    apply in_flat_map in Hexp. exact Hexp. }
  intros ->.
  apply (for_each_observed body panorama_lookups
           (fun row => if pano_id_missing (pano_id row) then []
                       else [default EmptyString (pano_id row)]) locations)
    with (rs := records); [|exact Hrun].
  intros row w0 w1 rs _ Hrow.
  exact (download_images_hires_row_lookups env output_dir hs p fov zoom row w0 w1 rs Hrow).
Qed.

Lemma hires_batch_records_witness :
  exists w' records,
    download_images_hires_batch hires_service [good_location; location_without_pano] "img"
      (Some [0; 90]) 0 90 3 false empty_world = (w', Ok records)
    /\ map dl_success records = [true; false; false; false]
    /\ length records = 4%nat
    /\ http_requests (trace w') = []
    /\ panorama_lookups (trace w') = ["good"].
Proof.
  destruct (download_images_hires_batch hires_service [good_location; location_without_pano]
              "img" (Some [0; 90]) 0 90 3 false empty_world) as [w' [records|e]] eqn:Hrun;
    [|vm_compute in Hrun; discriminate Hrun].
  destruct (hires_batch_records hires_service [good_location; location_without_pano] "img"
              (Some [0; 90]) 0 90 3 false empty_world w' records Hrun)
    as (_ & Hlen & _ & _ & Hhttp & _ & Hlook).
  exists w', records. split; [reflexivity|]. split.
  - vm_compute in Hrun. injection Hrun as _ <-. reflexivity.
  - split; [exact Hlen|]. split; [exact Hhttp|]. exact (Hlook eq_refl).
Defined.

(** ** The direct batch *)

(** X12: when the direct batch returns, it returns one record per location
    and heading, in order, each carrying the location's own id, city and
    coordinates and the pitch of the batch; the path of every success
    record exists at the end and no file has been removed.  With
    skip-existing off, every image is requested again, whatever files
    exist: one request per location and heading, in order. *)
Theorem direct_batch_records (env : environment) (locations : list Location)
    (output_dir : string) (headings : option (list Z)) (p : Z) (key : option string)
    (rate : Q) (skip_existing : bool) (w w' : world) (records : list DownloadRecord) :
  download_images_batch env locations output_dir headings p key rate skip_existing w
  = (w', Ok records) ->
  let hs := headings_or_default headings in
  map record_key records = flat_map (row_keys hs p) locations
  /\ length records = (length locations * length hs)%nat
  /\ Forall (success_on_disk (files w')) records
  /\ files w ⊆ files w'
  /\ (skip_existing = false ->
      exists client,
        StreetViewClient_init env key rate = Ok client
        /\ http_requests (trace w')
           = http_requests (trace w)
             ++ flat_map (fun row =>
                            map (fun h => ImageRequest (lat row) (lon row) h p 90 "640x640"
                                            (api_key client)) hs)
                         locations).
Proof.
  intros Hrun hs. revert Hrun. unfold download_images_batch, bind, lift. fold hs.
  pose proof (headings_or_default_idem headings) as Hidem. fold hs in Hidem.
  destruct (StreetViewClient_init env key rate) as [client|e]; [|discriminate].
  set (body := download_images_row env client output_dir hs p skip_existing).
  intros Hrun.
  destruct (direct_rows_records env client output_dir hs p skip_existing locations w w'
              records Hidem Hrun) as [Hdisk Hkeys].
  split; [exact Hkeys|]. split.
  { rewrite <- (length_map record_key), Hkeys.
    apply flat_map_constant_length. intros row. apply row_keys_length. }
  split; [exact Hdisk|]. split.
  { pose proof (for_each_preserves body (fun a b => files a ⊆ files b) locations) as H.
    cbn beta in H. specialize (H ltac:(intros ?; reflexivity)).
    specialize (H ltac:(intros a b c ? ?; now transitivity (files b))).
    specialize (H ltac:(intros row w0 _; apply download_images_row_files) [] w).
    now rewrite Hrun in H. }
  intros ->. exists client. split; [reflexivity|].
  apply (for_each_observed body http_requests
           (fun row => map (fun h => ImageRequest (lat row) (lon row) h p 90 "640x640"
                                       (api_key client)) hs) locations)
    with (rs := records); [|exact Hrun].
  intros row w0 w1 rs _ Hrow.
  exact (download_images_row_requests env client output_dir hs p row w0 w1 rs Hidem Hrow).
Qed.

Lemma direct_batch_records_witness :
  exists w' records,
    download_images_batch image_service two_locations "img" (Some [0; 90]) 0 (Some "key")
      (1 # 10) false empty_world = (w', Ok records)
    /\ map dl_heading records = [0; 90; 0; 90]
    /\ length records = 4%nat
    /\ length (http_requests (trace w')) = 4%nat.
Proof.
  destruct (download_images_batch image_service two_locations "img" (Some [0; 90]) 0
              (Some "key") (1 # 10) false empty_world) as [w' [records|e]] eqn:Hrun;
    [|vm_compute in Hrun; discriminate Hrun].
  destruct (direct_batch_records image_service two_locations "img" (Some [0; 90]) 0
              (Some "key") (1 # 10) false empty_world w' records Hrun)
    as (Hkeys & Hlen & _ & _ & Hreq).
  exists w', records. split; [reflexivity|]. split.
  - apply (f_equal (map (fun k => snd (fst k)))) in Hkeys.
    rewrite map_map in Hkeys. exact Hkeys.
  - split; [exact Hlen|].
    destruct (Hreq eq_refl) as (client & _ & ->). reflexivity.
Defined.

Section FetchFacts.
Variable env : environment.

(** One turn of the loop of [download_location_images] sends the request
    of its heading, whether it returns or raises; it raises only through
    a failed write of the file of the heading. *)
Lemma images_turn (client : StreetViewClient) (la lo : Q) (lid output_dir : string)
    (p h : Z) (w : world) :
  let turn :=
    (do result <- download_image env client la lo h
                    (path_join output_dir (image_filename lid h p)) p 90 "640x640";
     ret [result]) w in
  http_requests (trace (fst turn))
  = http_requests (trace w) ++ [ImageRequest la lo h p 90 "640x640" (api_key client)]
  /\ (forall e, snd turn = Raise e ->
        exn_kind e = OSError
        /\ exists t, file_write env t (path_join output_dir (image_filename lid h p))
                     = Some (exn_msg e))
  /\ ((forall t f, file_write env t f = None) -> exists rs, snd turn = Ok rs).
Proof.
  cbn zeta. unfold bind. rewrite download_image_cases. cbn zeta.
  destruct (requests_get env _ _) as [msg|response].
  { cbn [fst snd trace ret]. rewrite http_requests_app. cbn.
    split; [reflexivity|]. split; [discriminate|eauto]. }
  destruct (raise_for_status response) as [[]|e0].
  2: { cbn [fst snd trace ret]. rewrite http_requests_app. cbn.
       split; [reflexivity|]. split; [discriminate|eauto]. }
  destruct (negb _).
  { cbn [fst snd trace ret]. rewrite http_requests_app. cbn.
    split; [reflexivity|]. split; [discriminate|eauto]. }
  destruct (file_write env _ _) as [msg|] eqn:Hwrite.
  - cbn [fst snd trace]. rewrite !http_requests_app. cbn. rewrite app_nil_r.
    split; [reflexivity|]. split.
    + intros e [= <-]. split; [reflexivity|]. eauto.
    + intros Hdisk. rewrite Hdisk in Hwrite. discriminate Hwrite.
  - cbn [fst snd trace ret]. rewrite !http_requests_app. cbn. rewrite app_nil_r.
    split; [reflexivity|]. split; [discriminate|eauto].
Qed.

(** The loop of [download_location_images], when it raises. *)
Lemma images_loop_raises (client : StreetViewClient) (la lo : Q) (lid output_dir : string)
    (p : Z) (hs : list Z) (w w' : world) (e : exn) :
  for_each
    (fun h =>
       do result <- download_image env client la lo h
                      (path_join output_dir (image_filename lid h p)) p 90 "640x640";
       ret [result]) hs [] w = (w', Raise e) ->
  exn_kind e = OSError
  /\ exists before k after t,
       hs = before ++ k :: after
       /\ file_write env t (path_join output_dir (image_filename lid k p)) = Some (exn_msg e)
       /\ http_requests (trace w')
          = http_requests (trace w)
            ++ map (fun h => ImageRequest la lo h p 90 "640x640" (api_key client))
                   (before ++ [k]).
Proof.
  revert w. induction hs as [|h rest IH]; intros w; [discriminate|].
  rewrite for_each_cons.
  destruct (images_turn client la lo lid output_dir p h w) as (Hreq & Hraise & _).
  cbn zeta in Hreq, Hraise.
  destruct ((do result <- download_image env client la lo h
                            (path_join output_dir (image_filename lid h p)) p 90 "640x640";
             ret [result]) w) as [w1 [rs|e1]]; cbn [fst snd] in Hreq, Hraise.
  - destruct (for_each _ rest [] w1) as [w2 [rs'|e2]] eqn:Hrest; [discriminate|].
    intros [= <- <-].
    destruct (IH w1 Hrest) as (Hkind & before & k & after & t & -> & Hwrite & Hreqs).
    split; [exact Hkind|]. exists (h :: before), k, after, t.
    split; [reflexivity|]. split; [exact Hwrite|].
    rewrite Hreqs, Hreq, <- app_assoc. reflexivity.
  - intros [= <- <-]. destruct (Hraise e1 eq_refl) as (Hkind & t & Hwrite).
    split; [exact Hkind|]. exists [], h, rest, t.
    split; [reflexivity|]. split; [exact Hwrite|exact Hreq].
Qed.

End FetchFacts.

(** X13: a transport error never stops the direct fetcher of a location:
    with rate-limit waits that return, [download_location_images] raises
    only through a failed write of the file of one of its headings (the
    [OSError] of the directory creation, of the open or of the write,
    which [download_image] does not catch); the headings up to that one have
    been requested, the headings after it have not.  With a disk that
    accepts every write the call returns, one result per heading,
    whatever the network does. *)
Theorem location_fetch_stops_only_on_disk_errors (env : environment)
    (client : StreetViewClient) (lat lon : Q) (lid output_dir : string)
    (headings : option (list Z)) (p : Z) (w : world) :
  let hs := headings_or_default headings in
  let fetch := download_location_images env client lat lon lid output_dir headings p w in
  (forall e, snd fetch = Raise e ->
     exn_kind e = OSError
     /\ exists before k after t,
          hs = before ++ k :: after
          /\ file_write env t (path_join output_dir (image_filename lid k p))
             = Some (exn_msg e)
          /\ http_requests (trace (fst fetch))
             = http_requests (trace w)
               ++ map (fun h => ImageRequest lat lon h p 90 "640x640" (api_key client))
                      (before ++ [k]))
  /\ ((forall t f, file_write env t f = None) ->
      exists results, snd fetch = Ok results /\ map heading results = hs).
Proof.
  intros hs fetch. unfold fetch, download_location_images. fold hs. split.
  - intros e Hraise.
    destruct (for_each _ hs [] w) as [w' [results|e']] eqn:Hloop; [discriminate|].
    cbn [snd] in Hraise. injection Hraise as ->. cbn [fst].
    exact (images_loop_raises env client lat lon lid output_dir p hs w w' e Hloop).
  - intros Hdisk.
    destruct (for_each_total
                (fun h =>
                   do result <- download_image env client lat lon h
                                  (path_join output_dir (image_filename lid h p)) p 90
                                  "640x640";
                   ret [result]) hs w) as (w' & results & Hloop).
    { intros h w0.
      destruct (images_turn env client lat lon lid output_dir p h w0) as (_ & _ & Hok).
      cbn zeta in Hok. destruct (Hok Hdisk) as [rs Hrs].
      destruct ((do result <- download_image env client lat lon h
                                (path_join output_dir (image_filename lid h p)) p 90
                                "640x640";
                 ret [result]) w0) as [w1 r]. cbn [snd] in Hrs. subst r. eauto. }
    exists results. split.
    + change (snd (for_each
                (fun h =>
                   do result <- download_image env client lat lon h
                                  (path_join output_dir (image_filename lid h p)) p 90
                                  "640x640";
                   ret [result]) hs [] w) = Ok results). now rewrite Hloop.
    + now destruct (images_loop_spec env _ _ _ _ _ _ _ _ _ _ Hloop) as (Hmap & _).
Qed.

Lemma location_fetch_stops_only_on_disk_errors_witness :
  (exists results,
     snd (download_location_images flaky_service sample_client 28 77 "loc_00000" "img"
            (Some [0; 90]) 0 empty_world) = Ok results
     /\ map success results = [false; false])
  /\ exists e,
       snd (download_location_images full_disk_service sample_client 28 77 "loc_00000" "img"
              (Some [0; 90; 180]) 0 empty_world) = Raise e
       /\ exn_kind e = OSError.
Proof.
  split.
  - destruct (location_fetch_stops_only_on_disk_errors flaky_service sample_client 28 77
                "loc_00000" "img" (Some [0; 90]) 0 empty_world) as [_ Hreturns].
    destruct (Hreturns ltac:(reflexivity)) as (results & Hrun & _).
    exists results. split; [exact Hrun|].
    vm_compute in Hrun. injection Hrun as <-. reflexivity.
  - destruct (location_fetch_stops_only_on_disk_errors full_disk_service sample_client 28 77
                "loc_00000" "img" (Some [0; 90; 180]) 0 empty_world) as [Hraises _].
    exists (Exn OSError "No space left on device").
    assert (Hrun : snd (download_location_images full_disk_service sample_client 28 77
                          "loc_00000" "img" (Some [0; 90; 180]) 0 empty_world)
                   = Raise (Exn OSError "No space left on device"))
      by (vm_compute; reflexivity).
    split; [exact Hrun|]. now destruct (Hraises _ Hrun).
Defined.

(** The failed write of heading 90 stops the fetch before heading 180, and
    leaves the file it had opened. *)
Example failed_write_stops_the_fetch :
  download_location_images full_disk_service sample_client 28 77 "loc_00000" "img"
    (Some [0; 90; 180]) 0 empty_world
  = (mkWorld {["img/loc_00000_h090_p+00.jpg"]}
       [HttpGet (ImageRequest 28 77 0 0 90 "640x640" "key");
        HttpGet (ImageRequest 28 77 90 0 90 "640x640" "key");
        FileWrite "img/loc_00000_h090_p+00.jpg"],
     Raise (Exn OSError "No space left on device")).
Proof. vm_compute. reflexivity. Qed.

(** ** The file name as the key of the batches *)

Section FileNameFacts.
Variable env : environment.



End FileNameFacts.



(** ** The coverage batch *)

Section CoverageBatchEffects.
Variable env : environment.


(** [check_coverage_batch], stage by stage. *)
Lemma check_coverage_batch_cases (locations : list Location) (output_path key : option string)
    (rate : Q) (w : world) :
  check_coverage_batch env locations output_path key rate w =
    match StreetViewClient_init env key rate with
    | Raise e => (w, Raise e)
    | Ok client =>
        match for_each (check_coverage_row env client) locations [] w with
        | (w1, Raise e) => (w1, Raise e)
        | (w1, Ok results) =>
            if truthy output_path then
              let path := default EmptyString output_path in
              match file_write env (trace w1) path with
              | None =>
                  (mkWorld ({[path]} ∪ files w1) (trace w1 ++ [FileWrite path]), Ok results)
              | Some msg =>
                  (mkWorld (if write_creates env (trace w1) path
                            then {[path]} ∪ files w1 else files w1)
                           (trace w1 ++ [FileWrite path]),
                   Raise (Exn OSError msg))
              end
            else (w1, Ok results)
        end
    end.
Proof.
  unfold check_coverage_batch, bind at 1, lift.
  destruct (StreetViewClient_init env key rate) as [client|e]; [|reflexivity].
  unfold bind at 1.
  destruct (for_each _ locations [] w) as [w1 [results|e]]; [|reflexivity].
  unfold bind, ret. destruct (truthy output_path); [|reflexivity].
  unfold write_file. destruct (file_write env (trace w1) _); reflexivity.
Qed.

End CoverageBatchEffects.



(* ================================================================== *)
(** * Part VIII: file names, the annotation file and the statistics    *)
(* ================================================================== *)

(** ** File names can be read back *)

Lemma occurrences_app (c : Ascii.ascii) (a b : string) :
  occurrences c (a +:+ b) = (occurrences c a + occurrences c b)%nat.
Proof.
  induction a as [|x a IH]; [reflexivity|].
  change (String x a +:+ b) with (String x (a +:+ b)). cbn [occurrences]. rewrite IH. lia.
Qed.

(** Two strings cut at a character [c] that the tails hold equally often
    are cut at the same place. *)
Lemma prefix_unique (c : Ascii.ascii) (a a' t t' : string) :
  a +:+ String c t = a' +:+ String c t' ->
  occurrences c t = occurrences c t' ->
  a = a' /\ t = t'.
Proof.
  revert a'. induction a as [|x a IH]; intros [|x' a'] Heq Hocc.
  - cbn in Heq. now injection Heq as ->.
  - change (String c t = String x' (a' +:+ String c t')) in Heq.
    injection Heq as <- ->. rewrite occurrences_app in Hocc. cbn [occurrences] in Hocc.
    rewrite Ascii.eqb_refl in Hocc. lia.
  - change (String x (a +:+ String c t) = String c t') in Heq.
    injection Heq as -> <-. rewrite occurrences_app in Hocc. cbn [occurrences] in Hocc.
    rewrite Ascii.eqb_refl in Hocc. lia.
  - change (String x (a +:+ String c t) = String x' (a' +:+ String c t')) in Heq.
    injection Heq as <- Heq. destruct (IH a' Heq Hocc) as [-> ->]. now split.
Qed.

Lemma append_inv_head (a b b' : string) : a +:+ b = a +:+ b' -> b = b'.
Proof.
  induction a as [|x a IH]; [trivial|]. intros H.
  change (String x (a +:+ b) = String x (a +:+ b')) in H. injection H as H. now apply IH.
Qed.

(** A string of digits holds digits only. *)
Lemma digits_only (s : string) (d : Decimal.uint) :
  NilEmpty.uint_of_string s = Some d ->
  forall c, (c = Ascii.ascii_of_nat 95 \/ c = Ascii.ascii_of_nat 46
             \/ c = Ascii.ascii_of_nat 45 \/ c = Ascii.ascii_of_nat 43
             \/ c = Ascii.ascii_of_nat 47) ->
  occurrences c s = O.
Proof.
  revert d. induction s as [|x s IH]; intros d Hs c Hc; [reflexivity|].
  cbn [NilEmpty.uint_of_string] in Hs.
  destruct (NilEmpty.uint_of_string s) as [d0|] eqn:Hrest; [|discriminate Hs].
  cbn [occurrences]. rewrite (IH d0 eq_refl c Hc).
  apply uint_of_char_spec in Hs.
  destruct Hc as [-> | [-> | [-> | [-> | ->]]]];
    repeat (destruct Hs as [[-> _] | Hs]; [reflexivity|]); destruct Hs as [-> _]; reflexivity.
Qed.

Lemma zeros_digits (k : nat) (n : N) :
  NilEmpty.uint_of_string (zeros k +:+ decimal n) = Some (Nat.iter k Decimal.D0 (N.to_uint n)).
Proof.
  induction k as [|k IH].
  - cbn [zeros Nat.iter]. change (EmptyString +:+ decimal n) with (decimal n).
    unfold decimal, NilZero.string_of_uint.
    destruct (N.to_uint n) eqn:Hn; try apply NilEmpty.usu.
    exfalso. destruct n as [|q]; [discriminate Hn|].
    now apply (DecimalPos.Unsigned.to_uint_nonnil q).
  - cbn [zeros Nat.iter].
    change (String (Ascii.ascii_of_nat 48) (zeros k) +:+ decimal n)
      with (String (Ascii.ascii_of_nat 48) (zeros k +:+ decimal n)).
    cbn [NilEmpty.uint_of_string]. rewrite IH. reflexivity.
Qed.

Lemma of_uint_leading_zeros (k : nat) (d : Decimal.uint) :
  N.of_uint (Nat.iter k Decimal.D0 d) = N.of_uint d.
Proof. induction k as [|k IH]; [reflexivity|]. cbn [Nat.iter]. exact IH. Qed.

Lemma decimal_nonempty (n : N) : exists c s, decimal n = String c s.
Proof.
  unfold decimal, NilZero.string_of_uint.
  destruct (N.to_uint n) eqn:Hn; cbn; eauto.
Qed.

Lemma zeros_decimal_value (k : nat) (n : N) :
  digits_value (zeros k +:+ decimal n) = Some n.
Proof.
  unfold digits_value, NilZero.uint_of_string.
  pose proof (zeros_digits k n) as H.
  destruct (zeros k +:+ decimal n) as [|c s] eqn:Hs.
  - exfalso. destruct (decimal_nonempty n) as (c & s & Hd). rewrite Hd in Hs.
    destruct k; discriminate Hs.
  - rewrite H. cbn [option_map]. f_equal.
    rewrite of_uint_leading_zeros. apply DecimalN.Unsigned.of_to.
Qed.

(** Reading a formatted integer back gives the integer. *)
Lemma int_value_format_d (plus : bool) (width : nat) (z : Z) :
  int_value (format_d plus width z) = Some z.
Proof.
  unfold format_d. cbn zeta. destruct (Z.ltb_spec z 0) as [Hneg|Hpos].
  - match goal with |- int_value (_ +:+ ?x) = _ =>
      change (int_value (String (Ascii.ascii_of_nat 45) x) = Some z) end.
    cbn [int_value]. rewrite Ascii.eqb_refl, zeros_decimal_value. cbn [option_map].
    f_equal. lia.
  - destruct plus.
    + match goal with |- int_value (_ +:+ ?x) = _ =>
        change (int_value (String (Ascii.ascii_of_nat 43) x) = Some z) end.
      cbn [int_value]. change (Ascii.eqb (Ascii.ascii_of_nat 43) (Ascii.ascii_of_nat 45))
        with false. rewrite Ascii.eqb_refl, zeros_decimal_value. cbn [option_map].
      f_equal. lia.
    + match goal with |- int_value (_ +:+ ?x) = _ => change (int_value x = Some z) end.
      match goal with |- int_value (zeros ?k +:+ _) = _ =>
        pose proof (zeros_decimal_value k (Z.abs_N z)) as Hv;
        pose proof (zeros_digits k (Z.abs_N z)) as Hd;
        destruct (zeros k +:+ decimal (Z.abs_N z)) as [|c s] eqn:Hs; [discriminate Hv|]
      end.
      cbn [int_value].
      pose proof (digits_only _ _ Hd (Ascii.ascii_of_nat 45) ltac:(tauto)) as H45.
      pose proof (digits_only _ _ Hd (Ascii.ascii_of_nat 43) ltac:(tauto)) as H43.
      cbn [occurrences] in H45, H43.
      destruct (Ascii.eqb c (Ascii.ascii_of_nat 45)); [discriminate H45|].
      destruct (Ascii.eqb c (Ascii.ascii_of_nat 43)); [discriminate H43|].
      rewrite Hv. cbn [option_map]. f_equal. lia.
Qed.

(** A formatted integer holds no underscore, no dot and no slash. *)
Lemma format_d_plain (plus : bool) (width : nat) (z : Z) (c : Ascii.ascii) :
  c = Ascii.ascii_of_nat 95 \/ c = Ascii.ascii_of_nat 46 \/ c = Ascii.ascii_of_nat 47 ->
  occurrences c (format_d plus width z) = O.
Proof.
  intros Hc. unfold format_d. cbn zeta. rewrite occurrences_app.
  match goal with |- (_ + occurrences c (zeros ?k +:+ _))%nat = _ =>
    pose proof (zeros_digits k (Z.abs_N z)) as Hd end.
  rewrite (digits_only _ _ Hd c ltac:(tauto)).
  destruct (z <? 0); [|destruct plus]; destruct Hc as [-> | [-> | ->]]; reflexivity.
Qed.

(** The file name determines the location id, the heading and the pitch. *)
Lemma image_filename_inj (lid lid' : string) (h h' p p' : Z) :
  image_filename lid h p = image_filename lid' h' p' ->
  lid = lid' /\ h = h' /\ p = p'.
Proof.
  unfold image_filename. intros Heq.
  set (us := Ascii.ascii_of_nat 95) in *. set (dot := Ascii.ascii_of_nat 46) in *.
  assert (Htail : forall H P,
            occurrences us H = O -> occurrences us P = O ->
            occurrences us ("h" +:+ H +:+ "_p" +:+ P +:+ ".jpg") = 1%nat).
  { intros H P HH HP. rewrite !occurrences_app, HH, HP. reflexivity. }
  change (lid +:+ String us ("h" +:+ format_d false 3 h +:+ "_p" +:+ format_d true 3 p
                               +:+ ".jpg")
          = lid' +:+ String us ("h" +:+ format_d false 3 h' +:+ "_p" +:+ format_d true 3 p'
                                  +:+ ".jpg")) in Heq.
  apply prefix_unique in Heq;
    [|rewrite !Htail by (apply format_d_plain; now left); reflexivity].
  destruct Heq as [-> Heq]. split; [reflexivity|].
  apply (append_inv_head "h") in Heq.
  change (format_d false 3 h +:+ String us ("p" +:+ format_d true 3 p +:+ ".jpg")
          = format_d false 3 h' +:+ String us ("p" +:+ format_d true 3 p' +:+ ".jpg")) in Heq.
  apply prefix_unique in Heq;
    [|rewrite !occurrences_app, !format_d_plain by (now left); reflexivity].
  destruct Heq as [Hh Heq].
  apply (append_inv_head "p") in Heq.
  change (format_d true 3 p +:+ String dot "jpg" = format_d true 3 p' +:+ String dot "jpg")
    in Heq.
  apply prefix_unique in Heq; [|reflexivity]. destruct Heq as [Hp _].
  pose proof (int_value_format_d false 3 h) as E1. rewrite Hh, int_value_format_d in E1.
  pose proof (int_value_format_d true 3 p) as E2. rewrite Hp, int_value_format_d in E2.
  split; congruence.
Qed.

(** *** Paths of plain names *)

(** A string without slash is one component. *)
Lemma split_slash_plain (s : string) :
  occurrences (Ascii.ascii_of_nat 47) s = O -> split_slash s = [s].
Proof.
  induction s as [|c s IH]; [reflexivity|]. cbn [occurrences split_slash].
  destruct (Ascii.eqb c (Ascii.ascii_of_nat 47)); [discriminate|].
  intros Hs. now rewrite (IH Hs).
Qed.

Lemma leading_slashes_plain (s : string) :
  occurrences (Ascii.ascii_of_nat 47) s = O -> leading_slashes s = O.
Proof.
  destruct s as [|c s]; [reflexivity|]. cbn [occurrences leading_slashes].
  now destruct (Ascii.eqb c (Ascii.ascii_of_nat 47)).
Qed.

(** Joining components of which the last is [name]: what comes before
    the name depends on the other components only. *)
Lemma join_slash_last (parts : list string) :
  exists before, forall name, join_slash (parts ++ [name]) = before +:+ name.
Proof.
  induction parts as [|part rest [before IH]].
  - exists EmptyString. reflexivity.
  - exists (part +:+ "/" +:+ before). intros name.
    change ((part :: rest) ++ [name]) with (part :: (rest ++ [name])).
    cbn [join_slash]. destruct (rest ++ [name]) as [|x l] eqn:Hrest.
    + destruct rest; discriminate Hrest.
    + rewrite <- Hrest, IH. now rewrite !string_app_assoc.
Qed.

(** Under a given directory, the path of a plain name (no slash, not
    empty, not ".") is a prefix that depends on the directory only,
    followed by the name. *)
Lemma path_join_plain (output_dir : string) :
  exists before, forall name,
    occurrences (Ascii.ascii_of_nat 47) name = O -> name <> EmptyString -> name <> "." ->
    path_join output_dir name = before +:+ name.
Proof.
  destruct (join_slash_last (path_parts output_dir)) as [before Hjoin].
  exists (path_root output_dir +:+ before). intros name Hplain Hne Hdot.
  unfold path_join. rewrite (leading_slashes_plain name Hplain). cbn [Nat.ltb Nat.leb].
  assert (Hparts : path_parts name = [name]).
  { unfold path_parts. rewrite (split_slash_plain name Hplain). cbn [List.filter].
    destruct (String.eqb_spec name EmptyString); [contradiction|].
    destruct (String.eqb_spec name "."); [contradiction|]. reflexivity. }
  rewrite Hparts. unfold path_str.
  destruct (path_parts output_dir ++ [name]) as [|x l] eqn:Hall.
  { destruct (path_parts output_dir); discriminate Hall. }
  rewrite <- Hall, Hjoin, string_app_assoc.
  now destruct (path_root output_dir).
Qed.

(** The file name of an id without slash is a plain name. *)
Lemma image_filename_plain (lid : string) (h p : Z) :
  occurrences (Ascii.ascii_of_nat 47) lid = O ->
  occurrences (Ascii.ascii_of_nat 47) (image_filename lid h p) = O
  /\ image_filename lid h p <> EmptyString /\ image_filename lid h p <> ".".
Proof.
  intros Hlid. unfold image_filename. split.
  - rewrite !occurrences_app, Hlid, !format_d_plain by tauto. reflexivity.
  - assert (Hus : occurrences (Ascii.ascii_of_nat 95)
                    (lid +:+ "_h" +:+ format_d false 3 h +:+ "_p" +:+ format_d true 3 p
                         +:+ ".jpg") <> O).
    { change (lid +:+ "_h" +:+ format_d false 3 h +:+ "_p" +:+ format_d true 3 p +:+ ".jpg")
        with (lid +:+ String (Ascii.ascii_of_nat 95)
                        ("h" +:+ format_d false 3 h +:+ "_p" +:+ format_d true 3 p +:+ ".jpg")).
      rewrite occurrences_app. cbn [occurrences]. rewrite Ascii.eqb_refl. lia. }
    split; intros Heq; rewrite Heq in Hus; now apply Hus.
Qed.

(** X15: the file name is a faithful key: the heading and the pitch can be
    read back from their formatted fields, for every integer, whatever
    the width, the sign and the number of digits; two file names are
    equal only for the same location id, heading and pitch.  Under one
    output directory the same holds of the paths, and the expected files
    of a location are pairwise distinct when its headings are, as long
    as the location ids hold no slash; it does not hold of all ids: the
    path drops a leading "./", so the ids "./a" and "a" share their
    files. *)
Theorem image_files_never_collide (output_dir : string) :
  (forall plus width z, int_value (format_d plus width z) = Some z)
  /\ (forall lid lid' h h' p p',
        image_filename lid h p = image_filename lid' h' p' ->
        lid = lid' /\ h = h' /\ p = p')
  /\ (forall lid lid' h h' p p',
        occurrences (Ascii.ascii_of_nat 47) lid = O ->
        occurrences (Ascii.ascii_of_nat 47) lid' = O ->
        path_join output_dir (image_filename lid h p)
        = path_join output_dir (image_filename lid' h' p') ->
        lid = lid' /\ h = h' /\ p = p')
  /\ (forall lid hs p,
        occurrences (Ascii.ascii_of_nat 47) lid = O ->
        NoDup hs -> NoDup (expected_files output_dir lid hs p))
  /\ (forall h p,
        path_join output_dir (image_filename "./a" h p)
        = path_join output_dir (image_filename "a" h p)).
Proof.
  split; [exact int_value_format_d|]. split; [exact image_filename_inj|].
  assert (Hpath : forall lid lid' h h' p p',
            occurrences (Ascii.ascii_of_nat 47) lid = O ->
            occurrences (Ascii.ascii_of_nat 47) lid' = O ->
            path_join output_dir (image_filename lid h p)
            = path_join output_dir (image_filename lid' h' p') ->
            lid = lid' /\ h = h' /\ p = p').
  { intros lid lid' h h' p p' Hlid Hlid' Heq.
    destruct (path_join_plain output_dir) as [before Hjoin].
    destruct (image_filename_plain lid h p Hlid) as (H1 & H2 & H3).
    destruct (image_filename_plain lid' h' p' Hlid') as (H1' & H2' & H3').
    rewrite (Hjoin _ H1 H2 H3), (Hjoin _ H1' H2' H3') in Heq.
    apply append_inv_head in Heq. now apply image_filename_inj. }
  split; [exact Hpath|]. split.
  - intros lid hs p Hlid Hnd. unfold expected_files.
    apply NoDup_ListNoDup, Finite.Injective_map_NoDup_in; [|now apply NoDup_ListNoDup].
    intros h h' _ _ Heq. apply Hpath in Heq; tauto.
  - intros h p. unfold image_filename.
    remember (format_d false 3 h +:+ "_p" +:+ format_d true 3 p +:+ ".jpg") as tail eqn:E.
    clear E. reflexivity.
Qed.

Lemma image_files_never_collide_witness :
  int_value (format_d true 3 (-7)) = Some (-7)
  /\ int_value "090" = Some 90
  /\ NoDup (expected_files "img" "loc_00042" [0; 90; 180; 270] 0)
  /\ path_join "img" (image_filename "./a" 90 0) = "img/a_h090_p+00.jpg".
Proof.
  destruct (image_files_never_collide "img") as (Hread & _ & _ & Hdistinct & Hdot).
  split; [apply Hread|]. split; [exact (Hread false 3%nat 90)|]. split.
  - apply Hdistinct; [reflexivity|]. apply NoDup_ListNoDup. repeat constructor; cbn; lia.
  - rewrite Hdot. vm_compute. reflexivity.
Defined.

(** ** The annotation file *)

Lemma annotation_ids_length (n : nat) : length (annotation_ids n) = n.
Proof. unfold annotation_ids. now rewrite length_map, length_seq. Qed.


(** Rows paired with as many ids. *)
Lemma annotation_rows (ids : list string) (ds : list DownloadRecord) :
  length ids = length ds ->
  let anns := map (fun '(id, d) => annotation_record id d) (zip ids ds) in
  map annotation_id anns = ids
  /\ map (fun a => (an_location_id a, an_city a, an_lat a, an_lon a,
                    an_heading a, an_pitch a, an_image_path a)) anns
     = map (fun d => (dl_location_id d, dl_city d, dl_lat d, dl_lon d,
                      dl_heading d, dl_pitch d, dl_image_path d)) ds.
Proof.
  revert ds. induction ids as [|id ids IH]; intros [|d ds] Hlen; try discriminate Hlen.
  - split; reflexivity.
  - injection Hlen as Hlen. destruct (IH ds Hlen) as [IH1 IH2].
    cbn zeta in *. cbn [zip zip_with map]. split.
    + cbn [annotation_record annotation_id]. f_equal. exact IH1.
    + f_equal. exact IH2.
Qed.

Section AnnotationFacts.
Variable env : environment.

(** [generate_annotation_csv] on a table that has its columns. *)
Lemma generate_annotation_csv_cases (rows : list DownloadRecord) (output_path : string)
    (w : world) :
  let successful := List.filter (fun d => dl_success d) rows in
  let anns := map (fun '(id, d) => annotation_record id d)
                  (zip (annotation_ids (length successful)) successful) in
  generate_annotation_csv env (Table rows) output_path w =
    match file_write env (trace w) output_path with
    | None =>
        (mkWorld ({[output_path]} ∪ files w) (trace w ++ [FileWrite output_path]),
         Ok (Table anns))
    | Some msg =>
        (mkWorld (if write_creates env (trace w) output_path
                  then {[output_path]} ∪ files w else files w)
                 (trace w ++ [FileWrite output_path]),
         Raise (Exn OSError msg))
    end.
Proof.
  cbn zeta. unfold generate_annotation_csv, bind, write_file, ret.
  destruct (file_write env (trace w) output_path); reflexivity.
Qed.

End AnnotationFacts.



(** X17: every row of the annotation file made from the records of a batch
    names an image that exists on disk, and keeps the id, city,
    coordinates, heading and pitch of a record of the batch: this holds
    for the hi-res batch and for the direct batch alike. *)
Theorem annotations_name_existing_files (env : environment) (locations : list Location)
    (output_dir : string) (headings : option (list Z)) (p : Z) (skip_existing : bool)
    (annotation_path : string) (w w1 w2 : world) (records : list DownloadRecord)
    (anns : list AnnotationRecord) :
  (exists fov zoom,
     download_images_hires_batch env locations output_dir headings p fov zoom
       skip_existing w = (w1, Ok records))
  \/ (exists key rate,
        download_images_batch env locations output_dir headings p key rate
          skip_existing w = (w1, Ok records)) ->
  generate_annotation_csv env (DataFrame_of records) annotation_path w1
  = (w2, Ok (Table anns)) ->
  Forall (fun a => (exists f, an_image_path a = Some f /\ f ∈ files w2)
                   /\ In (an_location_id a, an_city a, an_lat a, an_lon a,
                          an_heading a, an_pitch a)
                        (flat_map (row_keys (headings_or_default headings) p) locations))
         anns
  /\ length anns = length (List.filter (fun d => dl_success d) records).
Proof.
  intros Hbatch Hann.
  pose proof (headings_or_default_idem headings) as Hidem.
  assert (Hrec : Forall (success_on_disk (files w1)) records
                 /\ map record_key records
                    = flat_map (row_keys (headings_or_default headings) p) locations).
  { destruct Hbatch as [(fov & zoom & Hrun) | (key & rate & Hrun)].
    - unfold download_images_hires_batch in Hrun.
      exact (hires_rows_records env _ _ _ _ _ _ _ _ _ _ Hidem Hrun).
    - unfold download_images_batch, bind, lift in Hrun.
      destruct (StreetViewClient_init env key rate) as [client|e]; [|discriminate].
      exact (direct_rows_records env client _ _ _ _ _ _ _ _ Hidem Hrun). }
  destruct Hrec as [Hdisk Hkeys].
  destruct (DataFrame_of records) as [|rows] eqn:Hdf; [discriminate Hann|].
  assert (rows = records) as ->
    by (destruct records; [discriminate Hdf|now injection Hdf as <-]).
  rewrite generate_annotation_csv_cases in Hann. cbn zeta in Hann.
  destruct (file_write env (trace w1) annotation_path); [discriminate|].
  injection Hann as <- <-.
  set (successful := List.filter (fun d => dl_success d) records).
  destruct (annotation_rows (annotation_ids (length successful)) successful
              (annotation_ids_length _)) as [Hids Hfields].
  cbn zeta in Hids, Hfields.
  set (anns := map (fun '(id, d) => annotation_record id d)
                   (zip (annotation_ids (length successful)) successful)) in *.
  split; [|rewrite <- (length_map annotation_id anns), Hids; apply annotation_ids_length].
  apply List.Forall_forall. intros a Ha.
  assert (Hfrom : exists d0, In d0 successful
            /\ (an_location_id a, an_city a, an_lat a, an_lon a,
                an_heading a, an_pitch a, an_image_path a)
               = (dl_location_id d0, dl_city d0, dl_lat d0, dl_lon d0,
                  dl_heading d0, dl_pitch d0, dl_image_path d0)).
  { apply (in_map (fun a => (an_location_id a, an_city a, an_lat a, an_lon a,
                             an_heading a, an_pitch a, an_image_path a))) in Ha.
    rewrite Hfields in Ha. apply in_map_iff in Ha. destruct Ha as (d0 & Heq & Hd0). eauto. }
  destruct Hfrom as (d0 & Hd0 & Heq). injection Heq as -> -> -> -> -> -> ->.
  apply filter_In in Hd0. destruct Hd0 as [Hin Hsucc].
  rewrite List.Forall_forall in Hdisk. destruct (Hdisk d0 Hin Hsucc) as (f & Hpath & Hf).
  split.
  - exists f. split; [exact Hpath|]. cbn [files]. apply elem_of_union. now right.
  - rewrite <- Hkeys. apply (in_map record_key) in Hin. exact Hin.
Qed.

Lemma annotations_name_existing_files_witness :
  exists w1 records w2 anns,
    download_images_hires_batch hires_service [good_location] "img" (Some [0; 90]) 0 90 3
      true empty_world = (w1, Ok records)
    /\ generate_annotation_csv hires_service (DataFrame_of records) "annotation.csv" w1
       = (w2, Ok (Table anns))
    /\ map an_image_path anns = [Some "img/loc_00003_h000_p+00.jpg"]
    /\ Forall (fun a => exists f, an_image_path a = Some f /\ f ∈ files w2) anns.
Proof.
  destruct (download_images_hires_batch hires_service [good_location] "img" (Some [0; 90])
              0 90 3 true empty_world) as [w1 [records|e]] eqn:Hrun;
    [|vm_compute in Hrun; discriminate Hrun].
  destruct (generate_annotation_csv hires_service (DataFrame_of records) "annotation.csv" w1)
    as [w2 [[|anns]|e]] eqn:Hann.
  1, 3: exfalso; vm_compute in Hrun; injection Hrun as <- <-;
        vm_compute in Hann; discriminate Hann.
  exists w1, records, w2, anns. split; [reflexivity|]. split; [exact Hann|].
  destruct (annotations_name_existing_files hires_service [good_location] "img"
              (Some [0; 90]) 0 true "annotation.csv" empty_world w1 w2 records anns
              ltac:(left; exists 90, 3; exact Hrun) Hann) as [Hall _].
  split.
  - vm_compute in Hrun. injection Hrun as <- <-.
    vm_compute in Hann. injection Hann as _ <-. reflexivity.
  - eapply Forall_impl; [exact Hall|]. now intros a [Hf _].
Defined.

(** ** The coverage statistics *)

Lemma unique_In (xs : list string) (x : string) : In x (unique xs) <-> In x xs.
Proof.
  induction xs as [|y xs IH]; [reflexivity|]. cbn [unique In].
  rewrite filter_In, IH, negb_true_iff, String.eqb_neq.
  split; [tauto|]. intros [->|Hx]; [now left|].
  destruct (String.eqb_spec x y) as [->|Hne]; [now left|right; now split].
Qed.

Lemma unique_NoDup (xs : list string) : List.NoDup (unique xs).
Proof.
  induction xs as [|y xs IH]; cbn [unique]; constructor.
  - rewrite filter_In, negb_true_iff, String.eqb_neq. tauto.
  - now apply List.NoDup_filter.
Qed.

Section PercentageFacts.
Import Float64 Float64Facts.
Local Open Scope Q_scope.

Lemma round_half_even_exact (q : Q) (n : Z) : q == inject_Z n -> round_half_even q = n.
Proof.
  intros Hq.
  pose proof (round_half_even_ge q n ltac:(lra)).
  pose proof (round_half_even_le q n ltac:(lra)). lia.
Qed.

(** X19: the percentage of a statistics line is a percentage: with [k] rows
    with coverage out of [n] (below 2^52), the float
    [(k / n) * 100 if n > 0 else 0] lies between 0 and 100; it is printed
    as 100.0 when every row has coverage, and as 0.0 when none has, or
    when there is no row at all. *)
Theorem percentage_is_a_percentage (k n : nat) :
  (k <= n)%nat -> (Z.of_nat n < 2 ^ 52)%Z ->
  0 <= percentage k n /\ percentage k n <= 100
  /\ (k = n -> (0 < n)%nat -> format_1f (percentage k n) = "100.0")
  /\ (k = O -> format_1f (percentage k n) = "0.0").
Proof.
  intros Hkn Hn. unfold percentage.
  destruct (Nat.ltb_spec 0 n) as [Hpos|Hzero].
  2: { split; [lra|]. split; [lra|]. split; [lia|]. intros _. reflexivity. }
  pose proof (of_int_exact (Z.of_nat k) ltac:(lia)) as Ek.
  pose proof (of_int_exact (Z.of_nat n) ltac:(lia)) as En.
  assert (HK : 0 <= inject_Z (Z.of_nat k)) by (apply (inject_Z_le 0); lia).
  assert (HN : 1 <= inject_Z (Z.of_nat n)) by (apply (inject_Z_le 1); lia).
  assert (HKN : inject_Z (Z.of_nat k) <= inject_Z (Z.of_nat n)) by (apply inject_Z_le; lia).
  unfold fmul, fdiv.
  assert (Hx : of_int (Z.of_nat k) / of_int (Z.of_nat n) * inject_Z (Z.of_nat n)
               == inject_Z (Z.of_nat k)).
  { rewrite Ek, En. field. lra. }
  remember (of_int (Z.of_nat k) / of_int (Z.of_nat n)) as x eqn:Dx. clear Dx Ek En.
  remember (inject_Z (Z.of_nat k)) as qk eqn:Dk.
  remember (inject_Z (Z.of_nat n)) as qn eqn:Dn.
  assert (Hx0 : 0 <= x).
  { destruct (Qlt_le_dec x 0) as [Hneg|H]; [|exact H]. nra. }
  assert (Hx1 : x <= 1).
  { destruct (Qlt_le_dec 1 x) as [Hbig|H]; [|exact H]. nra. }
  destruct (RN_bounds x 0 2) as [Q1 Q2];
    [lia | lia | change (inject_Z 0) with 0; lra | change (inject_Z 2) with 2; lra |].
  change (inject_Z 0) with 0 in Q1. change (inject_Z 2) with 2 in Q2.
  assert (Hexact : forall z : Z, (0 <= z <= 1)%Z -> x == inject_Z z ->
            format_1f (RN (RN x * 100))
            = decimal (Z.to_N (1000 * z / 10)) +:+ "." +:+ decimal (Z.to_N (1000 * z mod 10))).
  { intros z Hz Hxz.
    assert (Hq : RN x == inject_Z z) by (apply RN_exact; [lia|exact Hxz]).
    assert (Hp : RN (RN x * 100) == inject_Z (100 * z)).
    { apply RN_exact; [lia|]. rewrite Hq, inject_Z_mult. change (inject_Z 100) with 100. ring. }
    unfold format_1f. cbn zeta.
    rewrite (round_half_even_exact (RN (RN x * 100) * 10) (1000 * z)); [reflexivity|].
    rewrite Hp, !inject_Z_mult. change (inject_Z 100) with 100.
    change (inject_Z 1000) with 1000. ring. }
  remember (RN x) as q eqn:Dq.
  destruct (RN_bounds (q * 100) 0 200) as [P1 P2];
    [lia | lia | change (inject_Z 0) with 0; lra | change (inject_Z 200) with 200; lra |].
  change (inject_Z 0) with 0 in P1. change (inject_Z 200) with 200 in P2.
  split; [lra|]. split; [lra|]. split.
  - intros -> _. rewrite (Hexact 1%Z); [reflexivity|lia|].
    change (inject_Z 1) with 1.
    apply (Qmult_inj_r _ _ qn); [lra|]. rewrite Hx, Dk, Dn. ring.
  - intros ->. rewrite (Hexact 0%Z); [reflexivity|lia|].
    change (inject_Z 0) with 0.
    apply (Qmult_inj_r _ _ qn); [lra|]. rewrite Hx, Dk. reflexivity.
Qed.

End PercentageFacts.

Lemma percentage_is_a_percentage_witness :
  (0 <= percentage 1 3 /\ percentage 1 3 <= 100)%Q
  /\ format_1f (percentage 3 3) = "100.0"
  /\ stats_line "Delhi" 1 16 = "Delhi: 1/16 (6.2%)".
Proof.
  destruct (percentage_is_a_percentage 1 3 ltac:(lia) ltac:(cbn; lia)) as (H0 & H100 & _).
  destruct (percentage_is_a_percentage 3 3 ltac:(lia) ltac:(cbn; lia)) as (_ & _ & Hall & _).
  split; [split; assumption|]. split; [apply Hall; [reflexivity|lia]|].
  vm_compute. reflexivity.
Defined.

(** X20: the statistics need a table with columns.  On the table of an empty
    list of records (what [check_coverage_batch] returns for no
    location), [print_coverage_stats] prints its two header lines and
    raises [KeyError] on the column city; on every other table of records
    it returns, having printed the header, one line per city, a rule and
    the line of the totals.  The coverage batch itself accepts an empty
    table of locations: it returns no record, after writing the result
    file if one is asked for. *)
Theorem statistics_need_a_row (records : list CoverageRecord) :
  let header := [EmptyString; "Coverage Statistics:"; dashes] in
  let printed := print_coverage_stats (DataFrame_of records) in
  (records = [] -> printed = (header, Raise (KeyError "city")))
  /\ (records <> [] ->
      snd printed = Ok tt
      /\ length (fst printed) = (5 + length (unique (map cov_city records)))%nat
      /\ fst printed
         = header
           ++ map (fun s => stats_line (fst (fst s)) (snd (fst s)) (snd s)) (city_stats records)
           ++ [dashes; stats_line "Total" (coverage_sum records) (length records)])
  /\ (forall env output_path key rate w client,
        StreetViewClient_init env key rate = Ok client ->
        (forall t f, file_write env t f = None) ->
        exists w',
          check_coverage_batch env [] output_path key rate w = (w', Ok [])
          /\ http_requests (trace w') = http_requests (trace w)).
Proof.
  intros header printed. split; [|split].
  - intros ->. reflexivity.
  - intros Hne. unfold printed. destruct records as [|r rs]; [contradiction|].
    cbn [DataFrame_of print_coverage_stats fst snd]. fold header.
    assert (Hlines : map (fun '(c, with_coverage, total) => stats_line c with_coverage total)
                       (city_stats (r :: rs))
                     = map (fun s => stats_line (fst (fst s)) (snd (fst s)) (snd s))
                         (city_stats (r :: rs))).
    { apply map_ext. now intros [[c k] n]. }
    rewrite Hlines. split; [reflexivity|]. split; [|reflexivity].
    rewrite !length_app, length_map. unfold city_stats. rewrite length_map.
    cbn [length header]. lia.
  - intros env output_path key rate w client Hinit Hdisk.
    rewrite check_coverage_batch_cases, Hinit. cbn [for_each ret].
    destruct (truthy output_path); [|eauto].
    cbn zeta. rewrite Hdisk. eexists. split; [reflexivity|].
    cbn [trace]. rewrite http_requests_app. cbn. now rewrite app_nil_r.
Qed.

Lemma statistics_need_a_row_witness :
  snd (print_coverage_stats (DataFrame_of [])) = Raise (KeyError "city")
  /\ fst (print_coverage_stats
            (DataFrame_of
               [mkCoverageRecord "loc_00000" "Delhi" 28 77 true PyNone PyNone (PyStr "OK");
                mkCoverageRecord "loc_00001" "Mumbai" 19 72 false PyNone PyNone
                  (PyStr "ZERO_RESULTS");
                mkCoverageRecord "loc_00002" "Delhi" 28 77 false PyNone PyNone
                  (PyStr "ZERO_RESULTS")]))
     = [EmptyString; "Coverage Statistics:"; dashes;
        "Delhi: 1/2 (50.0%)"; "Mumbai: 0/1 (0.0%)"; dashes; "Total: 1/3 (33.3%)"].
Proof.
  split.
  - destruct (statistics_need_a_row []) as (Hempty & _). now rewrite (Hempty eq_refl).
  - match goal with |- fst (print_coverage_stats (DataFrame_of ?rs)) = _ =>
      destruct (statistics_need_a_row rs) as (_ & Hrows & _) end.
    destruct (Hrows ltac:(discriminate)) as (_ & _ & ->). vm_compute. reflexivity.
Defined.
